(** * Smart Expense Tracker: forecasting, risk scoring, conversation context
      and the NL-to-SQL safety gate

    A shallow embedding of [backend/app/chatbot/forecasting.py],
    [context_manager.py] and [nlp_to_sql.py], and the properties the
    specification states about them.

    Numbers.  The monetary series are Python floats (IEEE 754 binary64)
    in the source and "decimal totals" in the specification.  Every finite
    float is a rational, so amounts are embedded in [Q], with equality
    [Qeq] ([==]).  Module [Forecasting] reads the arithmetic of the source
    exactly; it carries the statements that do not turn on rounding: which
    branch runs, what is computed from what, signs, orderings, the worked
    scenario.  Module [Rounded] is the same code with a rounding applied
    after each floating-point operation; with [Binary64.round64] it is the
    arithmetic the program runs, and the statements that turn on rounding
    are made there, with explicit error bounds.  A Python division that
    can raise [ZeroDivisionError] is [py_div], which returns [None] where
    Python raises; numpy divisions never raise (their divisors are lengths
    of at least 2 wherever the code reaches them).

    Effects.  The database, the clock and the language model are inputs:
    [forecast_next_month] takes the monthly series the query returns,
    [predict_budget_risk] the day of the month and the budget lines,
    [add_message] the clock reading, [generate_sql_query] the model's reply,
    and [execute_nlp_query] returns the statements it sends to the database
    next to its response.

    Layout.  Modules [Py] and [PyStr] hold the Python and numpy primitives,
    [Forecasting], [Binary64], [Rounded], [ContextManager] and [NlpToSql]
    the three source files; the sections after them hold the lemmas and
    the theorems. *)

From Stdlib Require Import ZArith QArith Qabs Qminmax Qround Qpower Qreals.
From Stdlib Require Import Lia Lqa.
From Stdlib Require Import String Ascii List Bool DecimalString.
From Stdlib Require Import Reals Lra.
From stdpp Require Import base option list strings gmap.

Local Open Scope Z_scope.

(** ** Python primitives used by the three modules *)

Module Py.

(** A computation that may raise: [None] stands for the exception. *)
Definition exc (A : Type) : Type := option A.

Definition len {A} (l : list A) : Z := Z.of_nat (length l).

(** [l[i:]] with Python's treatment of a negative start index. *)
Definition slice_from {A} (i : Z) (l : list A) : list A :=
  let start := if i <? 0 then Z.max 0 (len l + i) else Z.min i (len l) in
  drop (Z.to_nat start) l.

(** [sum(l)]: left to right, starting from 0. *)
Definition sum (l : list Q) : Q := fold_left Qplus l 0%Q.

(** [x / y] on Python numbers. *)
Definition py_div (x y : Q) : exc Q :=
  if Qeq_bool y 0 then None else Some (x / y)%Q.

Definition Qltb (x y : Q) : bool := negb (Qle_bool y x).

(** [max(a, b)]: the second argument wins only when strictly greater. *)
Definition py_max (a b : Q) : Q := if Qltb a b then b else a.

(** [key in xs] for a list of strings. *)
Definition str_in (s : string) (xs : list string) : bool :=
  existsb (String.eqb s) xs.

(** Insertion-ordered dict with string keys, as [forecasts] is. *)
Definition dict (V : Type) : Type := list (string * V).

Fixpoint dict_get {V} (d : dict V) (k : string) : option V :=
  match d with
  | [] => None
  | (k', v) :: d' => if String.eqb k k' then Some v else dict_get d' k
  end.

(** [d[k] = v]: an existing key keeps its place, a new one goes last. *)
Fixpoint dict_set {V} (d : dict V) (k : string) (v : V) : dict V :=
  match d with
  | [] => [(k, v)]
  | (k', v') :: d' =>
      if String.eqb k k' then (k', v) :: d' else (k', v') :: dict_set d' k v
  end.

Definition dict_values {V} (d : dict V) : list V := map snd d.

(** [min] and [max] of a non-empty sequence [x, *l]. *)
Fixpoint list_min (x : Q) (l : list Q) : Q :=
  match l with
  | [] => x
  | y :: l' => Qmin x (list_min y l')
  end.

Fixpoint list_max (x : Q) (l : list Q) : Q :=
  match l with
  | [] => x
  | y :: l' => Qmax x (list_max y l')
  end.

(** numpy: [np.arange(n)], [np.sum], [np.mean], [np.var]. *)
Definition np_arange (n : Z) : list Q :=
  map (fun i => inject_Z (Z.of_nat i)) (seq 0 (Z.to_nat n)).

Definition np_sum (l : list Q) : Q := fold_left Qplus l 0%Q.

Definition np_mean (l : list Q) : Q := (np_sum l / inject_Z (len l))%Q.

Definition np_var (l : list Q) : Q :=
  let m := np_mean l in
  np_mean (map (fun x => (x - m) * (x - m))%Q l).

End Py.

Import Py.

(** ** forecasting.py *)

Module Forecasting.

Local Open Scope Q_scope.

(** [simple_moving_average(data, window=3)] *)
Definition simple_moving_average (data : list Q) (window : Z) : exc Q :=
  if (len data <? window)%Z then
    match data with
    | [] => Some 0
    | _ => py_div (sum data) (inject_Z (len data))
    end
  else py_div (sum (slice_from (- window) data)) (inject_Z window).

(** [exponential_smoothing(data, alpha=0.3)] *)
Definition exponential_smoothing (data : list Q) (alpha : Q) : Q :=
  match data with
  | [] => 0
  | [d] => d
  | d0 :: rest =>
      fold_left (fun forecast value => alpha * value + (1 - alpha) * forecast)
                rest d0
  end.

(** [linear_trend_forecast(data, periods_ahead=1)] *)
Definition linear_trend_forecast (data : list Q) (periods_ahead : Z) : Q :=
  if (len data <? 2)%Z then
    match data with
    | [] => 0
    | d :: _ => d
    end
  else
    let n := len data in
    let x := np_arange n in
    let y := data in
    let x_mean := np_mean x in
    let y_mean := np_mean y in
    let numerator :=
      np_sum (zip_with (fun xi yi => (xi - x_mean) * (yi - y_mean)) x y) in
    let denominator := np_sum (map (fun xi => (xi - x_mean) * (xi - x_mean)) x) in
    if Qeq_bool denominator 0 then y_mean
    else
      let slope := numerator / denominator in
      let intercept := y_mean - slope * x_mean in
      let forecast := intercept + slope * inject_Z (n + periods_ahead - 1) in
      py_max 0 forecast.

(** The dict returned by [seasonal_decomposition]. *)
Record Seasonal := mkSeasonal {
  s_trend : Q;
  s_seasonal : Q;
  s_forecast : Q
}.

(** [seasonal_decomposition(data, period=12)] *)
Definition seasonal_decomposition (data : list Q) (period : Z) : exc Seasonal :=
  if (len data <? period * 2)%Z then
    t ← simple_moving_average data 3;
    f ← simple_moving_average data 3;
    Some (mkSeasonal t 0 f)
  else
    trend ← simple_moving_average data period;
    let detrended := map (fun d => d - trend) data in
    seasonal ←
      (if (period <=? len detrended)%Z
       then py_div (sum (slice_from (- period) detrended)) (inject_Z period)
       else Some 0);
    let forecast := trend + seasonal in
    Some (mkSeasonal trend seasonal (py_max 0 forecast)).

(** The statistics attached to a forecast over three or more months. *)
Record Stats := mkStats {
  historical_data : list Q;
  variance : Q;
  mean : Q
}.

(** The dict returned by [forecast_next_month].  The [message] key of the
    two short-series results is presentation text and is left out. *)
Record ForecastResult := mkForecast {
  forecast : Q;
  method : string;
  confidence : string;
  stats : option Stats
}.

(** [np.sqrt(variance) / mean < t] for [mean > 0] and a positive threshold
    [t], decided on rationals by comparing squares
    (see [sqrt_ratio_lt_sound]). *)
Definition sqrt_ratio_lt (variance mean t : Q) : bool :=
  Qltb variance ((t * mean) * (t * mean)).

(** [cv < t] where [cv = (np.sqrt(variance) / mean) if mean > 0 else 0]. *)
Definition cv_lt (variance mean t : Q) : bool :=
  if Qltb 0 mean then sqrt_ratio_lt variance mean t else Qltb 0 t.

(** Lines 146-159: the estimators the requested [method] selects. *)
Definition compute_forecasts (data : list Q) (method : string) : exc (dict Q) :=
  let forecasts : dict Q := [] in
  forecasts ←
    (if str_in method ["auto"; "sma"]
     then v ← simple_moving_average data 3; Some (dict_set forecasts "sma" v)
     else Some forecasts);
  forecasts ←
    (if str_in method ["auto"; "ema"]
     then Some (dict_set forecasts "ema" (exponential_smoothing data (3 # 10)))
     else Some forecasts);
  forecasts ←
    (if str_in method ["auto"; "linear"]
     then Some (dict_set forecasts "linear" (linear_trend_forecast data 1))
     else Some forecasts);
  forecasts ←
    (if str_in method ["auto"; "seasonal"] && (6 <=? len data)%Z
     then seasonal_result ← seasonal_decomposition data (Z.min 12 (len data));
          Some (dict_set forecasts "seasonal" (s_forecast seasonal_result))
     else Some forecasts);
  Some forecasts.

(** [forecast_next_month(user_id, tx_type, method)], as a function of the
    series [get_historical_data] returns (oldest month first). *)
Definition forecast_next_month (data : list Q) (method : string)
  : exc ForecastResult :=
  match data with
  | [] => Some (mkForecast 0 "no_data" "low" None)
  | _ =>
    if (len data <? 3)%Z then
      avg ← py_div (sum data) (inject_Z (len data));
      Some (mkForecast avg "average" "low" None)
    else
      forecasts ← compute_forecasts data method;
      chosen ←
        (if String.eqb method "auto"
         then v ← py_div (sum (dict_values forecasts)) (inject_Z (len forecasts));
              Some (v, "ensemble")
         else Some (default (default 0 (dict_get forecasts "sma"))
                            (dict_get forecasts method), method));
      let forecast_value := chosen.1 in
      let used_method := chosen.2 in
      let variance := np_var data in
      let mean := np_mean data in
      let confidence :=
        if cv_lt variance mean (2 # 10) then "high"
        else if cv_lt variance mean (5 # 10) then "medium"
        else "low" in
      Some (mkForecast forecast_value used_method confidence
                       (Some (mkStats data variance mean)))
  end.

Definition scenario : list Q := [1000; 1100; 1050].

(** *** [predict_budget_risk] *)

(** One row of [Budget.query.filter_by(user_id=...)] together with what the
    spending query of the loop yields for it: [b_spent] is the [scalar()]
    of the month-to-date sum, [None] when there is no matching row. *)
Record BudgetLine := mkBudgetLine {
  b_category : string;
  b_amount : Q;
  b_spent : option Q
}.

(** An entry of [high_risk_categories]. *)
Record HighRisk := mkHighRisk {
  h_category : string;
  h_risk : Z;
  h_spent : Q;
  h_budget : Q;
  h_projected : Q
}.

(** [spent = float(... .scalar() or 0)] *)
Definition spent_to_date (b : BudgetLine) : Q :=
  match b_spent b with
  | Some s => if Qeq_bool s 0 then 0 else s
  | None => 0
  end.

(** Lines 274-275: the month-end projection of the spending so far. *)
Definition projected_total (current_day days_remaining : Z) (spent : Q) : Q :=
  let daily_avg :=
    if (0 <? current_day)%Z then spent / inject_Z current_day else 0 in
  spent + daily_avg * inject_Z days_remaining.

(** Line 276. *)
Definition projected_utilization
    (current_day days_remaining : Z) (spent budget_amount : Q) : Q :=
  (projected_total current_day days_remaining spent / budget_amount) * 100.

(** Lines 279-288: the risk score of a projected utilization. *)
Definition risk_score (projected_utilization : Q) : Z :=
  if Qltb 120 projected_utilization then 100
  else if Qltb 100 projected_utilization then 80
  else if Qltb 90 projected_utilization then 60
  else if Qltb 80 projected_utilization then 40
  else 20.

(** One iteration of the loop over the budgets, on the pair
    [(risk_scores, high_risk_categories)].  The local [utilization] of the
    source is computed there and never read. *)
Definition score_budget (current_day days_remaining : Z)
    (acc : list Z * list HighRisk) (budget : BudgetLine)
  : list Z * list HighRisk :=
  let spent := spent_to_date budget in
  let budget_amount := b_amount budget in
  if Qeq_bool budget_amount 0 then acc
  else
    let projected := projected_total current_day days_remaining spent in
    let risk :=
      risk_score
        (projected_utilization current_day days_remaining spent budget_amount) in
    (acc.1 ++ [risk],
     if (60 <=? risk)%Z
     then acc.2 ++ [mkHighRisk (b_category budget) risk spent budget_amount
                               projected]
     else acc.2).

(** The dict returned by [predict_budget_risk]; [r_details] holds
    [high_risk_categories], [total_budgets] and [days_remaining], and is
    absent from the result for a user without budgets (whose [message] text
    is left out). *)
Record RiskReport := mkRiskReport {
  r_risk_score : Q;
  r_risk_level : string;
  r_details : option (list HighRisk * Z * Z)
}.

(** [predict_budget_risk(user_id)], as a function of today's day of the
    month, the length of the month and the user's budget lines. *)
Definition predict_budget_risk
    (current_day days_in_month : Z) (budgets : list BudgetLine) : RiskReport :=
  let days_remaining := (days_in_month - current_day)%Z in
  match budgets with
  | [] => mkRiskReport 0 "none" None
  | _ =>
    let acc := fold_left (score_budget current_day days_remaining) budgets
                         ([], []) in
    let risk_scores := acc.1 in
    let high_risk_categories := acc.2 in
    let avg_risk :=
      match risk_scores with
      | [] => 0
      | _ => inject_Z (fold_left Z.add risk_scores 0%Z)
             / inject_Z (len risk_scores)
      end in
    let risk_level :=
      if Qle_bool 80 avg_risk then "critical"
      else if Qle_bool 60 avg_risk then "high"
      else if Qle_bool 40 avg_risk then "medium"
      else "low" in
    mkRiskReport avg_risk risk_level
      (Some (high_risk_categories, len budgets, days_remaining))
  end.

End Forecasting.

(** ** Binary64 arithmetic

    Python's [float] and numpy's [float64] are IEEE 754 binary64 numbers:
    every finite one is a rational, and each arithmetic operation returns
    the exact result rounded to the nearest number with a 53-bit
    significand, ties going to the even significand.  [round64] is that
    rounding on [Q].  The exponent range is not modelled: there is no
    overflow to infinity and no gradual underflow, which changes nothing
    as long as every result is 0 or of a magnitude between 2^-1022 and
    2^1024.  The statements made with [round64] are therefore about
    values that are [amount]s. *)

Module Binary64.

Local Open Scope Q_scope.

(** The integer nearest to [q], the even one of the two when [q] lies
    half-way. *)
Definition round_half_even (q : Q) : Z :=
  let f := Qfloor q in
  match Qcompare (q - inject_Z f) (1 # 2) with
  | Lt => f
  | Gt => (f + 1)%Z
  | Eq => if Z.even f then f else (f + 1)%Z
  end.

(** For [q <> 0], the exponent [e] with [2^52 <= |q| / 2^e < 2^53]. *)
Definition exponent (q : Q) : Z :=
  let k := (Z.log2 (Z.abs (Qnum q)) - Z.log2 (Zpos (Qden q)))%Z in
  if Qle_bool (2 ^ k) (Qabs q) then (k - 52)%Z else (k - 53)%Z.

Definition round64 (x : Q) : Q :=
  let q := Qred x in
  if Qeq_bool q 0 then 0
  else
    let e := exponent q in
    inject_Z (round_half_even (q / 2 ^ e)) * 2 ^ e.

(** The unit roundoff of binary64, 2^-53. *)
Definition unit_roundoff : Q := 1 / 2 ^ 53.

(** The magnitudes of money: an amount is 0, or between 2^-100 and 2^100
    in magnitude.  On amounts, on series of at most 2^40 of them and on
    the days of a month, no operation of the estimators and of the risk
    projection overflows or underflows. *)
Definition amount (x : Q) : Prop :=
  x == 0 \/ 2 ^ (-100) <= Qabs x <= 2 ^ 100.

(** A rounding whose relative error is at most [u]: [round64] with
    [u = 2^-53] (lemma [round64_error]), the identity with [u = 0]. *)
Definition rounds_within (u : Q) (rnd : Q -> Q) : Prop :=
  forall x : Q, Qabs (rnd x - x) <= u * Qabs x.

End Binary64.

(** ** forecasting.py on rounded arithmetic

    The estimators and the risk projection once more, with the rounding
    [rnd] applied after every floating-point operation of the source, in
    the order Python and numpy perform them.  With [rnd := round64] this
    is the arithmetic the program runs; with the identity it is the exact
    arithmetic of module [Forecasting].  Integers ([len(data)], [window],
    [current_day], the numbers of [np.arange]) convert to floats without
    error.  The series handed to the estimators are the floats
    [get_historical_data] returns. *)

Module Rounded.

Import Forecasting.

Local Open Scope Q_scope.

(** [sum(l)]: left to right from 0, every addition rounded (the loop of
    CPython's [sum] up to version 3.11). *)
Definition sum (rnd : Q -> Q) (l : list Q) : Q :=
  fold_left (fun acc x => rnd (acc + x)) l 0.

(** [x / y] on floats. *)
Definition py_div (rnd : Q -> Q) (x y : Q) : exc Q :=
  if Qeq_bool y 0 then None else Some (rnd (x / y)).

(** [simple_moving_average(data, window=3)] *)
Definition simple_moving_average (rnd : Q -> Q) (data : list Q) (window : Z)
  : exc Q :=
  if (len data <? window)%Z then
    match data with
    | [] => Some 0
    | _ => py_div rnd (sum rnd data) (inject_Z (len data))
    end
  else py_div rnd (sum rnd (slice_from (- window) data)) (inject_Z window).

(** [exponential_smoothing(data, alpha=0.3)] *)
Definition exponential_smoothing (rnd : Q -> Q) (data : list Q) (alpha : Q)
  : Q :=
  match data with
  | [] => 0
  | [d] => d
  | d0 :: rest =>
      fold_left
        (fun forecast value =>
           rnd (rnd (alpha * value) + rnd (rnd (1 - alpha) * forecast)))
        rest d0
  end.

(** [forecast_category_spending(user_id, category_id, months_ahead=1)] as
    a function of the category's monthly totals, oldest month first. *)
Definition forecast_category_spending (rnd : Q -> Q) (data : list Q) : Q :=
  match data with
  | [] => 0
  | _ => exponential_smoothing rnd data (rnd (3 # 10))
  end.

(** [np.sum] of a float64 array is numpy's [pairwise_sum]: fewer than 8
    elements are added left to right; up to 128 elements go into 8 partial
    sums, lane [j] taking the elements [j], [j + 8], ..., which are then
    added as a tree, the elements after the last full block of 8 being
    added one by one; longer arrays are halved. *)
Fixpoint add_lanes (rnd : Q -> Q) (r body : list Q) (blocks : nat)
  : list Q * list Q :=
  match blocks with
  | O => (r, body)
  | S b =>
      add_lanes rnd (zip_with (fun ri ai => rnd (ri + ai)) r (take 8 body))
                (drop 8 body) b
  end.

Definition block_sum (rnd : Q -> Q) (a : list Q) : Q :=
  match add_lanes rnd (take 8 a) (drop 8 a) (length a / 8 - 1) with
  | ([r0; r1; r2; r3; r4; r5; r6; r7], rest) =>
      let res :=
        rnd (rnd (rnd (r0 + r1) + rnd (r2 + r3))
             + rnd (rnd (r4 + r5) + rnd (r6 + r7))) in
      fold_left (fun acc x => rnd (acc + x)) rest res
  | _ => 0
  end.

Fixpoint pairwise_sum (rnd : Q -> Q) (fuel : nat) (a : list Q) : Q :=
  let n := length a in
  if (n <? 8)%nat then fold_left (fun acc x => rnd (acc + x)) a 0
  else if (n <=? 128)%nat then block_sum rnd a
  else
    match fuel with
    | O => 0
    | S fuel' =>
        let n2 := (n / 2 - (n / 2) mod 8)%nat in
        rnd (pairwise_sum rnd fuel' (take n2 a)
             + pairwise_sum rnd fuel' (drop n2 a))
    end.

Definition np_sum (rnd : Q -> Q) (a : list Q) : Q :=
  rnd (0 + pairwise_sum rnd (length a) a).

Definition np_mean (rnd : Q -> Q) (a : list Q) : Q :=
  rnd (np_sum rnd a / inject_Z (len a)).

(** [linear_trend_forecast(data, periods_ahead=1)] *)
Definition linear_trend_forecast (rnd : Q -> Q) (data : list Q)
    (periods_ahead : Z) : Q :=
  if (len data <? 2)%Z then
    match data with
    | [] => 0
    | d :: _ => d
    end
  else
    let n := len data in
    let x := np_arange n in
    let y := data in
    let x_mean := np_mean rnd x in
    let y_mean := np_mean rnd y in
    let numerator :=
      np_sum rnd (zip_with (fun xi yi =>
                              rnd (rnd (xi - x_mean) * rnd (yi - y_mean)))
                           x y) in
    let denominator :=
      np_sum rnd (map (fun xi => rnd (rnd (xi - x_mean) * rnd (xi - x_mean)))
                      x) in
    if Qeq_bool denominator 0 then y_mean
    else
      let slope := rnd (numerator / denominator) in
      let intercept := rnd (y_mean - rnd (slope * x_mean)) in
      let forecast :=
        rnd (intercept + rnd (slope * inject_Z (n + periods_ahead - 1))) in
      py_max 0 forecast.

(** [seasonal_decomposition(data, period=12)] *)
Definition seasonal_decomposition (rnd : Q -> Q) (data : list Q) (period : Z)
  : exc Seasonal :=
  if (len data <? period * 2)%Z then
    t ← simple_moving_average rnd data 3;
    f ← simple_moving_average rnd data 3;
    Some (mkSeasonal t 0 f)
  else
    trend ← simple_moving_average rnd data period;
    let detrended := map (fun d => rnd (d - trend)) data in
    seasonal ←
      (if (period <=? len detrended)%Z
       then py_div rnd (sum rnd (slice_from (- period) detrended))
                   (inject_Z period)
       else Some 0);
    let forecast := rnd (trend + seasonal) in
    Some (mkSeasonal trend seasonal (py_max 0 forecast)).

(** Lines 146-159 of [forecast_next_month]; [0.3] is the float literal. *)
Definition compute_forecasts (rnd : Q -> Q) (data : list Q) (method : string)
  : exc (dict Q) :=
  let forecasts : dict Q := [] in
  forecasts ←
    (if str_in method ["auto"; "sma"]
     then v ← simple_moving_average rnd data 3;
          Some (dict_set forecasts "sma" v)
     else Some forecasts);
  forecasts ←
    (if str_in method ["auto"; "ema"]
     then Some (dict_set forecasts "ema"
                         (exponential_smoothing rnd data (rnd (3 # 10))))
     else Some forecasts);
  forecasts ←
    (if str_in method ["auto"; "linear"]
     then Some (dict_set forecasts "linear" (linear_trend_forecast rnd data 1))
     else Some forecasts);
  forecasts ←
    (if str_in method ["auto"; "seasonal"] && (6 <=? len data)%Z
     then seasonal_result ←
            seasonal_decomposition rnd data (Z.min 12 (len data));
          Some (dict_set forecasts "seasonal" (s_forecast seasonal_result))
     else Some forecasts);
  Some forecasts.

(** [forecast_next_month(user_id, tx_type, method)] as a function of the
    monthly series: the [forecast] and [method] entries of the result.
    (The [confidence] entry goes through [np.var] and [np.sqrt]; it is
    studied on [Forecasting.forecast_next_month].) *)
Definition forecast_next_month (rnd : Q -> Q) (data : list Q) (method : string)
  : exc (Q * string) :=
  match data with
  | [] => Some (0, "no_data")
  | _ =>
    if (len data <? 3)%Z then
      avg ← py_div rnd (sum rnd data) (inject_Z (len data));
      Some (avg, "average")
    else
      forecasts ← compute_forecasts rnd data method;
      if String.eqb method "auto"
      then v ← py_div rnd (sum rnd (dict_values forecasts))
                      (inject_Z (len forecasts));
           Some (v, "ensemble")
      else Some (default (default 0 (dict_get forecasts "sma"))
                         (dict_get forecasts method), method)
  end.

(** Lines 274-275 of [predict_budget_risk]. *)
Definition projected_total (rnd : Q -> Q) (current_day days_remaining : Z)
    (spent : Q) : Q :=
  let daily_avg :=
    if (0 <? current_day)%Z then rnd (spent / inject_Z current_day) else 0 in
  rnd (spent + rnd (daily_avg * inject_Z days_remaining)).

(** Line 276. *)
Definition projected_utilization (rnd : Q -> Q)
    (current_day days_remaining : Z) (spent budget_amount : Q) : Q :=
  rnd (rnd (projected_total rnd current_day days_remaining spent
            / budget_amount) * 100).

(** One iteration of the loop over the budgets (lines 253-299);
    [float(spent)] and [float(budget.amount)] round the two database
    values. *)
Definition score_budget (rnd : Q -> Q) (current_day days_remaining : Z)
    (acc : list Z * list HighRisk) (budget : BudgetLine)
  : list Z * list HighRisk :=
  let spent := rnd (spent_to_date budget) in
  let budget_amount := rnd (b_amount budget) in
  if Qeq_bool budget_amount 0 then acc
  else
    let projected := projected_total rnd current_day days_remaining spent in
    let risk :=
      risk_score
        (projected_utilization rnd current_day days_remaining spent
                               budget_amount) in
    (acc.1 ++ [risk],
     if (60 <=? risk)%Z
     then acc.2 ++ [mkHighRisk (b_category budget) risk spent budget_amount
                               projected]
     else acc.2).

(** The float literals of two series used below. *)
Definition six_months : list Q :=
  map Binary64.round64
      [247718 # 100; 224746 # 100; 325796 # 100; 394362 # 100; 4693 # 10;
       14174 # 100].

Definition five_equal_months : list Q :=
  map Binary64.round64 [323 # 100; 323 # 100; 323 # 100; 323 # 100; 323 # 100].

End Rounded.


(** ** Strings: [str.upper], [str.lower] and [needle in haystack]

    Strings are sequences of bytes; the case mappings act on the ASCII
    letters, as Python's do on ASCII text. *)

Module PyStr.

Definition upper_ascii (c : ascii) : ascii :=
  let n := nat_of_ascii c in
  if ((97 <=? n) && (n <=? 122))%nat then ascii_of_nat (n - 32) else c.

Definition lower_ascii (c : ascii) : ascii :=
  let n := nat_of_ascii c in
  if ((65 <=? n) && (n <=? 90))%nat then ascii_of_nat (n + 32) else c.

Fixpoint upper (s : string) : string :=
  match s with
  | EmptyString => EmptyString
  | String c s' => String (upper_ascii c) (upper s')
  end.

Fixpoint lower (s : string) : string :=
  match s with
  | EmptyString => EmptyString
  | String c s' => String (lower_ascii c) (lower s')
  end.

Fixpoint starts_with (needle hay : string) : bool :=
  match needle, hay with
  | EmptyString, _ => true
  | String _ _, EmptyString => false
  | String a needle', String b hay' =>
      Ascii.eqb a b && starts_with needle' hay'
  end.

(** [needle in hay] *)
Fixpoint contains (needle hay : string) : bool :=
  starts_with needle hay ||
  match hay with
  | EmptyString => false
  | String _ hay' => contains needle hay'
  end.

(** [any(word in text for word in words)] *)
Definition any_in (words : list string) (text : string) : bool :=
  existsb (fun word => contains word text) words.

End PyStr.

Import PyStr.

(** ** context_manager.py *)

Module ContextManager.

(** The values stored in entity and context dicts. *)
Inductive pyval :=
| PNone
| PBool (b : bool)
| PNum (q : Q)
| PStr (s : string).

(** A message dict of the turn log.  [timestamp] is the clock reading of
    [datetime.utcnow()], in seconds. *)
Record Message := mkMessage {
  role : string;
  content : string;
  timestamp : Z;
  intent : option string;
  entities : gmap string pyval
}.

(** The attributes of a [ConversationContext] object.  [messages] is the
    [deque(maxlen=max_history)], oldest message first. *)
Record ConversationContext := mkContext {
  user_id : Z;
  max_history : nat;
  messages : list Message;
  context_data : gmap string pyval;
  last_intent : option string;
  last_entities : gmap string pyval;
  session_start : Z
}.

(** [deque.append] on a bounded deque: append on the right, then drop the
    leftmost element if the bound is exceeded. *)
Definition deque_append {A} (maxlen : nat) (d : list A) (x : A) : list A :=
  let d' := d ++ [x] in
  if (maxlen <? length d')%nat then tail d' else d'.

(** [deque(iterable, maxlen)] *)
Definition deque_of {A} (maxlen : nat) (items : list A) : list A :=
  fold_left (deque_append maxlen) items [].

(** [ConversationContext(user_id, max_history=10)] at clock reading [now]. *)
Definition init (user_id : Z) (max_history : nat) (now : Z)
  : ConversationContext :=
  mkContext user_id max_history (deque_of max_history []) ∅ None ∅ now.

(** Truth value of an optional string: [None] and [''] are false. *)
Definition truthy (s : option string) : bool :=
  match s with
  | None => false
  | Some EmptyString => false
  | Some _ => true
  end.

(** [add_message(role, content, intent=None, entities=None)] at clock
    reading [now]. *)
Definition add_message (self : ConversationContext) (now : Z)
    (role content : string) (intent : option string)
    (entities : option (gmap string pyval)) : ConversationContext :=
  let message := mkMessage role content now intent (default ∅ entities) in
  let messages' := deque_append (max_history self) (messages self) message in
  if String.eqb role "user" && truthy intent then
    mkContext (user_id self) (max_history self) messages'
              (context_data self) intent (default ∅ entities)
              (session_start self)
  else
    mkContext (user_id self) (max_history self) messages'
              (context_data self) (last_intent self) (last_entities self)
              (session_start self).

(** The arguments of one [add_message] call, with the clock reading at
    which it is made, and a run of such calls on one context. *)
Record Turn := mkTurn {
  t_now : Z;
  t_role : string;
  t_content : string;
  t_intent : option string;
  t_entities : option (gmap string pyval)
}.

Definition turn_message (t : Turn) : Message :=
  mkMessage (t_role t) (t_content t) (t_now t) (t_intent t)
            (default ∅ (t_entities t)).

Definition add_turn (self : ConversationContext) (t : Turn)
  : ConversationContext :=
  add_message self (t_now t) (t_role t) (t_content t) (t_intent t)
              (t_entities t).

Definition add_turns (self : ConversationContext) (turns : list Turn)
  : ConversationContext :=
  fold_left add_turn turns self.

(** The invariant of the turn log: it never outgrows [max_history]. *)
Definition log_within_bound (self : ConversationContext) : Prop :=
  (length (messages self) <= max_history self)%nat.

(** [set_context(key, value)] *)
Definition set_context (self : ConversationContext) (key : string)
    (value : pyval) : ConversationContext :=
  mkContext (user_id self) (max_history self) (messages self)
            (<[key := value]> (context_data self))
            (last_intent self) (last_entities self) (session_start self).

(** [clear_context()] *)
Definition clear_context (self : ConversationContext) : ConversationContext :=
  mkContext (user_id self) (max_history self) (messages self)
            ∅ None ∅ (session_start self).

Definition follow_up_patterns : gmap string (list string) :=
  list_to_map
    [("add_transaction", ["add_transaction"; "get_summary"]);
     ("get_summary", ["add_transaction"; "get_details"]);
     ("check_budget", ["predict_budget"; "add_transaction"]);
     ("forecast", ["get_summary"; "advice"]);
     ("nlp_query", ["nlp_query"; "get_details"])]%string.

(** [is_follow_up(current_intent)] *)
Definition is_follow_up (self : ConversationContext) (current_intent : string)
  : bool :=
  if negb (truthy (last_intent self)) then false
  else
    match last_intent self with
    | Some li => str_in current_intent (default [] (follow_up_patterns !! li))
    | None => false
    end.

(** [extract_reference(user_input)] *)
Definition extract_reference (self : ConversationContext) (user_input : string)
  : gmap string pyval :=
  let references : gmap string pyval := ∅ in
  let user_input_lower := lower user_input in
  let references :=
    if any_in ["that"; "this"; "it"; "same"]%string user_input_lower then
      let references :=
        match last_entities self !! "category"%string with
        | Some v => <["category"%string := v]> references
        | None => references
        end in
      match last_entities self !! "amount"%string with
      | Some v => <["amount"%string := v]> references
      | None => references
      end
    else references in
  if any_in ["more"; "details"; "elaborate"; "explain"]%string user_input_lower
  then
    <["last_intent"%string :=
        match last_intent self with Some li => PStr li | None => PNone end]>
      (<["expand_last"%string := PBool true]> references)
  else references.

(** The dict returned by [detect_intent_with_context]. *)
Record ContextualIntent := mkContextualIntent {
  ci_is_follow_up : bool;
  ci_references : gmap string pyval;
  ci_last_intent : option string;
  ci_context_data : gmap string pyval
}.

(** [detect_intent_with_context(user_input, context)] *)
Definition detect_intent_with_context (user_input : string)
    (context : ConversationContext) : ContextualIntent :=
  let references := extract_reference context user_input in
  let is_follow_up_flag :=
    if truthy (last_intent context)
    then match last_intent context with
         | Some li => is_follow_up context li
         | None => false
         end
    else false in
  mkContextualIntent is_follow_up_flag references (last_intent context)
                     (context_data context).

(** [get_user_context(user_id)] on the module-level [_context_store], at
    clock reading [now]: returns the store and the user's context. *)
Definition get_user_context (store : gmap Z ConversationContext)
    (user_id : Z) (now : Z)
  : gmap Z ConversationContext * ConversationContext :=
  let store :=
    match store !! user_id with
    | Some _ => store
    | None => <[user_id := init user_id 10 now]> store
    end in
  let context := default (init user_id 10 now) (store !! user_id) in
  if (3600 <? (now - session_start context) `mod` 86400)%Z then
    let context :=
      let c := clear_context context in
      mkContext (ContextManager.user_id c) (max_history c) (messages c)
                (context_data c) (last_intent c) (last_entities c) now in
    (<[user_id := context]> store, context)
  else (store, context).

(** The contexts a user's session can hold: created by [get_user_context]
    with the default capacity, then changed only through the methods. *)
Inductive reachable (uid start : Z) : ConversationContext -> Prop :=
| reach_init : reachable uid start (init uid 10 start)
| reach_add self t :
    reachable uid start self -> reachable uid start (add_turn self t)
| reach_set self key value :
    reachable uid start self -> reachable uid start (set_context self key value)
| reach_clear self :
    reachable uid start self -> reachable uid start (clear_context self).

(** [clear_user_context(user_id)] *)
Definition clear_user_context (store : gmap Z ConversationContext)
    (user_id : Z) : gmap Z ConversationContext :=
  delete user_id store.

End ContextManager.

(** ** nlp_to_sql.py *)

Module NlpToSql.

(** What [json.loads] returns. *)
#[local] Unset Elimination Schemes.
Inductive json :=
| JNull
| JBool (b : bool)
| JInt (n : Z)
| JFloat (q : Q)
| JStr (s : string)
| JArr (items : list json)
| JObj (fields : list (string * json)).
#[local] Set Elimination Schemes.

(** Python's truth value of a decoded JSON value. *)
Definition py_truthy (v : json) : bool :=
  match v with
  | JNull => false
  | JBool b => b
  | JInt n => negb (n =? 0)%Z
  | JFloat q => negb (Qeq_bool q 0)
  | JStr s => negb (String.eqb s EmptyString)
  | JArr items => match items with [] => false | _ => true end
  | JObj fields => match fields with [] => false | _ => true end
  end.

(** [type(v).__name__] *)
Definition type_name (v : json) : string :=
  match v with
  | JNull => "NoneType"
  | JBool _ => "bool"
  | JInt _ => "int"
  | JFloat _ => "float"
  | JStr _ => "str"
  | JArr _ => "list"
  | JObj _ => "dict"
  end.

(** [str(e)] of the [AttributeError] raised by [v.attr]. *)
Definition attribute_error (v : json) (attr : string) : string :=
  ("'" ++ type_name v ++ "' object has no attribute '" ++ attr ++ "'")%string.

(** What the request to the model and the decoding of its answer (lines
    100-125) come to: a status other than 200, an exception with
    [str(e) = msg] (transport, missing key, undecodable content), or the
    decoded value [result]. *)
Inductive llm_reply :=
| HttpStatus (status_code : Z)
| Raised (msg : string)
| Decoded (result : json).

Definition dangerous_keywords : list string :=
  ["INSERT"; "UPDATE"; "DELETE"; "DROP"; "ALTER"; "CREATE"; "TRUNCATE";
   "EXEC"]%string.

Definition unsafe_explanation : string :=
  "Query contains potentially dangerous operations".

(** The [except Exception as e] branch. *)
Definition generation_error (msg : string) : dict json :=
  [("safe", JBool false);
   ("explanation", JStr ("Error generating query: " ++ msg))]%string.

(** [generate_sql_query(natural_language_query, user_id)], as a function of
    the model's reply. *)
Definition generate_sql_query (reply : llm_reply) : dict json :=
  match reply with
  | HttpStatus status_code =>
      [("safe", JBool false);
       ("explanation",
        JStr ("API error: " ++ NilZero.string_of_int (Z.to_int status_code)))]%string
  | Raised msg => generation_error msg
  | Decoded (JObj result) =>
      match default (JStr EmptyString) (dict_get result "sql") with
      | JStr sql =>
          let sql_upper := upper sql in
          if existsb (fun keyword => contains keyword sql_upper)
                     dangerous_keywords
          then dict_set (dict_set result "safe" (JBool false))
                        "explanation" (JStr unsafe_explanation)
          else result
      | other => generation_error (attribute_error other "upper")
      end
  | Decoded other => generation_error (attribute_error other "get")
  end.

(** The database session behind [db.session.execute(text(sql))] and the
    conversion of the fetched rows (lines 171-195): for a statement and the
    [columns] entry of the plan, either an exception with [str(e) = msg] or
    the list of row dicts.  [text_error v] is [str(e)] of the [TypeError]
    that [text(v)] raises on a value that is not a string. *)
Record Database := mkDatabase {
  run_query : string -> json -> string + list (dict json);
  text_error : json -> string
}.

(** The dict returned by [execute_nlp_query]; absent keys are [None]. *)
Record Response := mkResponse {
  success : bool;
  error : option json;
  query : json;
  data : option (list (dict json));
  explanation : option json;
  row_count : option Z
}.

(** [execute_nlp_query(natural_language_query, user_id)]: the response and
    the statements sent to the database, in order. *)
Definition execute_nlp_query (db : Database) (reply : llm_reply)
  : Response * list string :=
  let query_result := generate_sql_query reply in
  if negb (py_truthy (default (JBool false) (dict_get query_result "safe")))
  then
    (mkResponse false
       (Some (default (JStr "Query could not be generated safely")
                      (dict_get query_result "explanation")))
       JNull None None None,
     [])
  else
    let sql_query := default JNull (dict_get query_result "sql") in
    match sql_query with
    | JStr sql =>
        match run_query db sql (default (JArr []) (dict_get query_result "columns")) with
        | inr rows =>
            (mkResponse true None sql_query (Some rows)
               (Some (default JNull (dict_get query_result "explanation")))
               (Some (len rows)),
             [sql])
        | inl msg =>
            (mkResponse false
               (Some (JStr ("Query execution error: " ++ msg)))
               sql_query None None None,
             [sql])
        end
    | other =>
        (mkResponse false
           (Some (JStr ("Query execution error: " ++ text_error db other)))
           sql_query None None None,
         [])
    end.

(** [keyword] occurs in [text] up to the case of ASCII letters. *)
Definition occurs_ignoring_case (keyword text : string) : Prop :=
  exists before word after,
    text = (before ++ word ++ after)%string /\ upper word = upper keyword.

End NlpToSql.

(** ** forecasting.py, the remaining functions *)

Module Insights.

Import Forecasting.

Local Open Scope Q_scope.

(** An entry of the list [get_spending_insights] returns. *)
Record Insight := mkInsight {
  i_category : string;
  i_current : Q;
  i_average : Q;
  i_change_pct : Q;
  i_trend : string
}.

(** One row of the current-month query of [get_spending_insights] with the
    outcome of the historical-average query for its category: [None] when
    executing it raises, [Some None] when [scalar()] finds nothing,
    [Some (Some h)] otherwise.  That query asks for [avg(sum(amount))]
    under a [GROUP BY]; a database that does not accept an aggregate
    inside an aggregate raises on it, whatever the category. *)
Record CategorySpend := mkCategorySpend {
  cs_category : string;
  cs_total : Q;
  cs_hist_avg : exc (option Q)
}.

(** The body of the loop over [results], on floats rounded by [rnd]; the
    function has no exception handler. *)
Definition insight_step (rnd : Q -> Q) (insights : list Insight)
    (row : CategorySpend) : exc (list Insight) :=
  scalar ← cs_hist_avg row;
  let hist_avg :=
    rnd (match scalar with
         | Some h => if Qeq_bool h 0 then 0 else h
         | None => 0
         end) in
  let total := rnd (cs_total row) in
  if Qltb 0 hist_avg then
    let change_pct := rnd (rnd (rnd (total - hist_avg) / hist_avg) * 100) in
    if Qltb 20 (Qabs change_pct) then
      let trend := if Qltb 0 change_pct then "up" else "down" in
      Some (insights
            ++ [mkInsight (cs_category row) total hist_avg change_pct trend])
    else Some insights
  else Some insights.

(** [get_spending_insights(user_id)], as a function of the query rows. *)
Definition get_spending_insights (rnd : Q -> Q)
    (results : list CategorySpend) : exc (list Insight) :=
  fold_left (fun acc row => insights ← acc; insight_step rnd insights row)
            results (Some []).

End Insights.

(** The per-line quantities of [predict_budget_risk], named for the
    statements about its loop. *)
Module RiskLines.

Import Forecasting.

Local Open Scope Q_scope.

(** The lines the loop does not skip. *)
Definition scorable (budget : BudgetLine) : bool :=
  negb (Qeq_bool (b_amount budget) 0).

(** The score the loop appends for a line it does not skip. *)
Definition line_risk (current_day days_remaining : Z) (budget : BudgetLine)
  : Z :=
  risk_score (projected_utilization current_day days_remaining
                (spent_to_date budget) (b_amount budget)).

(** The entry the loop appends to [high_risk_categories] for such a line. *)
Definition high_risk_entry (current_day days_remaining : Z)
    (budget : BudgetLine) : HighRisk :=
  mkHighRisk (b_category budget) (line_risk current_day days_remaining budget)
             (spent_to_date budget) (b_amount budget)
             (projected_total current_day days_remaining
                (spent_to_date budget)).

End RiskLines.

(** ** chat_logic.py *)

Module ChatLogic.

Import Forecasting.

Local Open Scope Q_scope.

(** *** Budget status and budget prediction *)

(** A [status] dict of [check_budget_status]. *)
Record BudgetStatus := mkBudgetStatus {
  bs_category : string;
  bs_spent : Q;
  bs_budget : Q;
  bs_percentage : Q;
  bs_exceeded : bool;
  bs_over_amount : Q
}.

(** The body of the loop of [check_budget_status] up to [status]. *)
Definition budget_status (budget : BudgetLine) : BudgetStatus :=
  let spent := spent_to_date budget in
  let budget_amount := b_amount budget in
  let percentage :=
    if Qltb 0 budget_amount then spent / budget_amount * 100 else 0 in
  let over_amount := spent - budget_amount in
  mkBudgetStatus (b_category budget) spent budget_amount percentage
                 (Qltb budget_amount spent)
                 (if Qltb budget_amount spent then over_amount else 0).

(** The dict returned by [check_budget_status]. *)
Record BudgetReport := mkBudgetReport {
  all_budgets : list BudgetStatus;
  exceeded : list BudgetStatus;
  has_exceeded : bool
}.

(** [check_budget_status(user_id)], as a function of the budget lines. *)
Definition check_budget_status (budgets : list BudgetLine) : BudgetReport :=
  let acc :=
    fold_left
      (fun (acc : list BudgetStatus * list BudgetStatus) budget =>
         let status := budget_status budget in
         (acc.1 ++ [status],
          if Qltb (b_amount budget) (spent_to_date budget)
          then acc.2 ++ [status] else acc.2))
      budgets ([], []) in
  mkBudgetReport acc.1 acc.2 (0 <? len acc.2)%Z.

(** A [prediction] dict of [predict_budget_status]. *)
Record Prediction := mkPrediction {
  p_category : string;
  p_spent_so_far : Q;
  p_budget : Q;
  p_daily_avg : Q;
  p_predicted_total : Q;
  p_will_exceed : bool;
  p_over_amount : Q;
  p_days_remaining : Z
}.

(** The body of the loop of [predict_budget_status] up to [prediction]
    (lines 368-402); the rendering of the predictions as text is left
    out. *)
Definition budget_prediction (current_day days_remaining : Z)
    (budget : BudgetLine) : Prediction :=
  let spent := spent_to_date budget in
  let budget_amount := b_amount budget in
  let daily_avg :=
    if (0 <? current_day)%Z then spent / inject_Z current_day else 0 in
  let predicted_total := spent + daily_avg * inject_Z days_remaining in
  let will_exceed_budget := Qltb budget_amount predicted_total in
  let over_amount := predicted_total - budget_amount in
  mkPrediction (b_category budget) spent budget_amount daily_avg
               predicted_total will_exceed_budget
               (if will_exceed_budget then over_amount else 0)
               days_remaining.

(** *** Categories *)

(** An entry of the list [load_categories] returns. *)
Record Category := mkCategory {
  c_name : string;
  c_type : string
}.

(** ASCII white space, what [str.strip] removes from ASCII text. *)
Definition is_space (c : ascii) : bool :=
  let n := nat_of_ascii c in
  (((9 <=? n) && (n <=? 13)) || ((28 <=? n) && (n <=? 32)))%nat.

Fixpoint lstrip (s : string) : string :=
  match s with
  | EmptyString => EmptyString
  | String c s' => if is_space c then lstrip s' else s
  end.

Fixpoint rstrip (s : string) : string :=
  match s with
  | EmptyString => EmptyString
  | String c s' =>
      match rstrip s' with
      | EmptyString => if is_space c then EmptyString else String c EmptyString
      | kept => String c kept
      end
  end.

(** [s.strip()] *)
Definition strip (s : string) : string := rstrip (lstrip s).

(** The loop of [match_category] over the categories, [name] being already
    stripped and lower-cased. *)
Fixpoint match_category_loop (name tx_type : string)
    (categories : list Category) : option string :=
  match categories with
  | [] => None
  | c :: rest =>
      if String.eqb (c_type c) tx_type
         && String.eqb (lower (strip (c_name c))) name
      then Some (c_name c)
      else match_category_loop name tx_type rest
  end.

(** [match_category(name, tx_type, categories)] *)
Definition match_category (name tx_type : string)
    (categories : list Category) : option string :=
  match_category_loop (lower (strip name)) tx_type categories.

(** *** The pattern-matching fallback *)

Definition is_digit (c : ascii) : bool :=
  let n := nat_of_ascii c in ((48 <=? n) && (n <=? 57))%nat.

Definition is_dot (c : ascii) : bool := Ascii.eqb c "."%char.

Definition snoc (s : string) (c : ascii) : string :=
  (s ++ String c EmptyString)%string.

(** The matcher of [r'(\d+(?:\.\d+)?)'] between two characters: outside a
    match, inside the integer part, after a dot that may start a fraction,
    inside the fraction.  [acc] is the text matched so far. *)
Inductive scan_state :=
| Outside
| InInt (acc : string)
| AfterDot (acc : string)
| InFrac (acc : string).

(** [re.findall(r'(\d+(?:\.\d+)?)', text)], from state [st]. *)
Fixpoint scan (st : scan_state) (text : string) : list string :=
  match text with
  | EmptyString =>
      match st with
      | Outside => []
      | InInt acc | AfterDot acc | InFrac acc => [acc]
      end
  | String c rest =>
      match st with
      | Outside =>
          if is_digit c then scan (InInt (String c EmptyString)) rest
          else scan Outside rest
      | InInt acc =>
          if is_digit c then scan (InInt (snoc acc c)) rest
          else if is_dot c then scan (AfterDot acc) rest
          else acc :: scan Outside rest
      | AfterDot acc =>
          if is_digit c then scan (InFrac (snoc (snoc acc "."%char) c)) rest
          else acc :: scan Outside rest
      | InFrac acc =>
          if is_digit c then scan (InFrac (snoc acc c)) rest
          else acc :: scan Outside rest
      end
  end.

Definition find_numbers (text : string) : list string := scan Outside text.

(** [float(token)] for a token of digits with an optional fraction, as an
    exact rational. *)
Definition digit_value (c : ascii) : Z := Z.of_nat (nat_of_ascii c - 48).

Fixpoint float_of_token_from (int_part : Z) (token : string) : Q :=
  match token with
  | EmptyString => inject_Z int_part
  | String c rest =>
      if is_dot c then
        inject_Z int_part
        + inject_Z (fold_left (fun v d => 10 * v + digit_value d)%Z
                              (list_ascii_of_string rest) 0%Z)
          / inject_Z (10 ^ Z.of_nat (String.length rest))
      else float_of_token_from (10 * int_part + digit_value c) rest
  end.

Definition float_of_token (token : string) : Q := float_of_token_from 0 token.

(** The dicts [simple_intent_fallback] returns, by their [intent] key. *)
Inductive FallbackIntent :=
| UpdateTransaction (old_amount new_amount : Q) (category : option string)
| DeleteTransaction (amount : option Q) (category : option string)
| AddTransaction (amount : Q) (category description tx_type : string)
| Chat (message : string)
| GetMonthlyTotalIncome
| GetMonthlyTotalExpense
| GetSummary (message : string)
| PredictBudget
| CheckBudget
| ForecastIncome
| ForecastExpense.

Definition intent_key (r : FallbackIntent) : string :=
  match r with
  | UpdateTransaction _ _ _ => "update_transaction"
  | DeleteTransaction _ _ => "delete_transaction"
  | AddTransaction _ _ _ _ => "add_transaction"
  | Chat _ => "chat"
  | GetMonthlyTotalIncome => "get_monthly_total_income"
  | GetMonthlyTotalExpense => "get_monthly_total_expense"
  | GetSummary _ => "get_summary"
  | PredictBudget => "predict_budget"
  | CheckBudget => "check_budget"
  | ForecastIncome => "forecast_income"
  | ForecastExpense => "forecast_expense"
  end.

Definition newline : string := String "010"%char EmptyString.

(** The rupee sign, as its three bytes. *)
Definition rupee : string :=
  String "226"%char (String "130"%char (String "185"%char EmptyString)).

(** [sep.join(items)] *)
Fixpoint join (sep : string) (items : list string) : string :=
  match items with
  | [] => EmptyString
  | [x] => x
  | x :: rest => (x ++ sep ++ join sep rest)%string
  end.

(** The first category whose lower-cased name occurs in the lower-cased
    input: the [for cat in categories] loop with its [break]. *)
Definition mentioned_category (user_input_lower : string)
    (categories : list Category) : option Category :=
  List.find (fun cat => contains (lower (c_name cat)) user_input_lower)
            categories.

(** [simple_intent_fallback(user_input, categories)] *)
Definition simple_intent_fallback (user_input : string)
    (categories : list Category) : option FallbackIntent :=
  let user_input_lower := lower user_input in
  let matched_category := mentioned_category user_input_lower categories in
  let amount_match := head (find_numbers user_input) in
  let update_branch :=
    if any_in ["update"; "change"; "modify"; "edit"]%string user_input_lower
    then
      match find_numbers user_input with
      | a0 :: a1 :: _ =>
          Some (UpdateTransaction (float_of_token a0) (float_of_token a1)
                                  (option_map c_name matched_category))
      | [_] =>
          Some (Chat ("To update a transaction, please specify both the old and new amounts."
                      ++ newline ++ newline
                      ++ "Example: 'Update my food expense from 1200 to 500'"))
      | [] => None
      end
    else None in
  match update_branch with
  | Some r => Some r
  | None =>
    if any_in ["delete"; "remove"; "cancel"]%string user_input_lower then
      Some (DeleteTransaction (option_map float_of_token amount_match)
                              (option_map c_name matched_category))
    else
      let add_branch :=
        if any_in ["add"; "spent"; "paid"; "bought"; "transaction"]%string
                  user_input_lower
        then
          match amount_match, matched_category with
          | Some token, Some cat =>
              Some (AddTransaction (float_of_token token) (c_name cat)
                                   user_input (c_type cat))
          | None, Some cat =>
              Some (Chat ("I see you want to add a transaction for '"
                          ++ c_name cat
                          ++ "' category. Please specify the amount."
                          ++ newline ++ newline ++ "Example: 'Add 500 for "
                          ++ c_name cat ++ "'"))
          | Some token, None =>
              Some (Chat ("I see you want to add " ++ rupee ++ token
                          ++ ". Please specify the category."
                          ++ newline ++ newline ++ "Available categories: "
                          ++ join ", " (map c_name categories)))
          | None, None => None
          end
        else None in
      match add_branch with
      | Some r => Some r
      | None =>
        if any_in ["summary"; "total"; "spent"; "expenses"]%string
                  user_input_lower
        then
          if contains "income" user_input_lower
          then Some GetMonthlyTotalIncome
          else if contains "expense" user_input_lower
                  || contains "spent" user_input_lower
          then Some GetMonthlyTotalExpense
          else Some (GetSummary "Here is your financial summary.")
        else if contains "budget" user_input_lower then
          if any_in ["will"; "exceed"; "predict"; "future"]%string
                    user_input_lower
          then Some PredictBudget
          else Some CheckBudget
        else if any_in ["forecast"; "predict"; "next month"]%string
                       user_input_lower
        then
          if contains "income" user_input_lower
          then Some ForecastIncome
          else Some ForecastExpense
        else None
      end
  end.

End ChatLogic.

(** ** ASCII text

    Strings are sequences of bytes.  On text made of ASCII characters
    only, [str.lower], [str.strip], [in] and the digit class of [re] act
    character by character as [lower], [strip], [contains] and [is_digit]
    do; the statements about [match_category] and the details of
    [simple_intent_fallback] are made for such text. *)

Module AsciiText.

Fixpoint is_ascii (s : string) : bool :=
  match s with
  | EmptyString => true
  | String c rest => (nat_of_ascii c <? 128)%nat && is_ascii rest
  end.

Definition ascii_names (categories : list ChatLogic.Category) : Prop :=
  Forall (fun c => is_ascii (ChatLogic.c_name c) = true) categories.

End AsciiText.

(** ** context_manager.py, the remaining methods *)

Module ContextStore.

Import ContextManager.

(** [get_history(limit=None)] *)
Definition get_history (self : ConversationContext) (limit : option Z)
  : list Message :=
  match limit with
  | Some l =>
      if (l =? 0)%Z then messages self else slice_from (- l) (messages self)
  | None => messages self
  end.

(** [get_context(key, default=None)] *)
Definition get_context (self : ConversationContext) (key : string)
    (default_value : pyval) : pyval :=
  default default_value (context_data self !! key).

(** The dict returned by [get_context_summary]. *)
Record ContextSummary := mkContextSummary {
  cs_user_id : Z;
  cs_message_count : Z;
  cs_last_intent : option string;
  cs_last_entities : gmap string pyval;
  cs_session_duration : Z;
  cs_context_data : gmap string pyval
}.

(** [get_context_summary()] at clock reading [now]; [timedelta.seconds] is
    the seconds part of the difference, between 0 and 86399. *)
Definition get_context_summary (self : ConversationContext) (now : Z)
  : ContextSummary :=
  mkContextSummary (user_id self) (len (messages self)) (last_intent self)
                   (last_entities self)
                   ((now - session_start self) `mod` 86400)%Z
                   (context_data self).

(** The dict [to_dict] returns and [from_dict] reads.  A field is [None]
    when the key is absent; for [last_intent], which [from_dict] reads with
    [data.get], an absent key and a stored [None] are the same.  The
    session start is kept as the clock reading: [isoformat] and
    [fromisoformat] are taken to be inverse. *)
Record ContextDict := mkContextDict {
  d_user_id : option Z;
  d_messages : option (list Message);
  d_context_data : option (gmap string pyval);
  d_last_intent : option string;
  d_last_entities : option (gmap string pyval);
  d_session_start : option Z
}.

(** [to_dict()] *)
Definition to_dict (self : ConversationContext) : ContextDict :=
  mkContextDict (Some (user_id self)) (Some (messages self))
                (Some (context_data self)) (last_intent self)
                (Some (last_entities self)) (Some (session_start self)).

(** [from_dict(data)] at clock reading [now]; [None] is the [KeyError] of
    [data['user_id']]. *)
Definition from_dict (data : ContextDict) (now : Z) : exc ConversationContext :=
  uid ← d_user_id data;
  let context := init uid 10 now in
  Some (mkContext (user_id context) (max_history context)
          (deque_of (max_history context) (default [] (d_messages data)))
          (default ∅ (d_context_data data))
          (d_last_intent data)
          (default ∅ (d_last_entities data))
          (default (session_start context) (d_session_start data))).

(** The most recent user turn that carries an intent, if any. *)
Fixpoint last_user_intent (turns : list Turn) : option Turn :=
  match turns with
  | [] => None
  | t :: turns' =>
      match last_user_intent turns' with
      | Some t' => Some t'
      | None =>
          if String.eqb (t_role t) "user" && truthy (t_intent t)
          then Some t else None
      end
  end.

End ContextStore.
Import Forecasting.

(** ** Arithmetic of the Python primitives *)

Section PyFacts.

Local Open Scope Q_scope.

Lemma len_nonneg {A} (l : list A) : (0 <= len l)%Z.
Proof. unfold len. lia. Qed.

Lemma len_cons {A} (x : A) (l : list A) : len (x :: l) = (len l + 1)%Z.
Proof. unfold len. simpl length. lia. Qed.

Lemma len_map {A B} (f : A -> B) (l : list A) : len (map f l) = len l.
Proof. unfold len. now rewrite length_map. Qed.

Lemma fold_plus_shift (l : list Q) (a : Q) :
  fold_left Qplus l a == a + fold_left Qplus l 0.
Proof.
  revert a. induction l as [|x l IH]; intros a; simpl.
  - ring.
  - rewrite (IH (a + x)), (IH (0 + x)). ring.
Qed.

Lemma sum_nil : sum [] == 0.
Proof. reflexivity. Qed.

Lemma sum_cons (x : Q) (l : list Q) : sum (x :: l) == x + sum l.
Proof. unfold sum. simpl. rewrite fold_plus_shift. ring. Qed.

Lemma sum_nonneg (l : list Q) : Forall (fun x => 0 <= x) l -> 0 <= sum l.
Proof.
  induction 1 as [|x l Hx _ IH].
  - rewrite sum_nil. apply Qle_refl.
  - rewrite sum_cons. Lqa.lra.
Qed.

(** Subtracting a constant from every element. *)
Lemma sum_map_minus (t : Q) (l : list Q) :
  sum (map (fun d => d - t) l) == sum l - inject_Z (len l) * t.
Proof.
  induction l as [|x l IH].
  - simpl. rewrite sum_nil. unfold len. simpl. ring.
  - simpl map. rewrite !sum_cons, IH, len_cons, inject_Z_plus. ring.
Qed.

Lemma slice_from_map {A B} (f : A -> B) (i : Z) (l : list A) :
  slice_from i (map f l) = map f (slice_from i l).
Proof.
  unfold slice_from. rewrite len_map. apply List.skipn_map.
Qed.

(** [l[-p:]] keeps exactly the last [p] elements when [0 < p <= len(l)]. *)
Lemma len_slice_last {A} (p : Z) (l : list A) :
  (0 < p <= len l)%Z -> len (slice_from (- p) l) = p.
Proof.
  intros Hp. unfold slice_from.
  replace (- p <? 0)%Z with true by (symmetry; apply Z.ltb_lt; lia).
  unfold len in *. rewrite length_drop. lia.
Qed.

Lemma Forall_slice_from {A} (P : A -> Prop) (i : Z) (l : list A) :
  Forall P l -> Forall P (slice_from i l).
Proof. intros H. unfold slice_from. now apply Forall_drop. Qed.

Lemma inject_Z_nonzero (p : Z) : p <> 0%Z -> ~ inject_Z p == 0.
Proof.
  intros Hp H. apply Hp. unfold Qeq in H. simpl in H. lia.
Qed.

Lemma py_div_inject (x : Q) (p : Z) :
  p <> 0%Z -> py_div x (inject_Z p) = Some (x / inject_Z p).
Proof.
  intros Hp. unfold py_div.
  destruct (Qeq_bool (inject_Z p) 0) eqn:E; [|reflexivity].
  apply Qeq_bool_iff in E. now apply inject_Z_nonzero in E.
Qed.

Lemma py_div_zero (x y : Q) : y == 0 -> py_div x y = None.
Proof.
  intros H. unfold py_div. apply Qeq_bool_iff in H. now rewrite H.
Qed.

Lemma Qltb_lt (x y : Q) : Qltb x y = true <-> x < y.
Proof.
  unfold Qltb. rewrite negb_true_iff.
  split; intros H.
  - apply Qnot_le_lt. intros Hle. apply Qle_bool_iff in Hle. congruence.
  - destruct (Qle_bool y x) eqn:E; [|reflexivity].
    apply Qle_bool_iff in E. exfalso. eapply Qlt_not_le; eauto.
Qed.

Lemma Qltb_ge (x y : Q) : Qltb x y = false <-> y <= x.
Proof.
  unfold Qltb. rewrite negb_false_iff. apply Qle_bool_iff.
Qed.

(** On a non-negative value the floor at 0 changes nothing. *)
Lemma py_max_0_nonneg (f : Q) : 0 <= f -> py_max 0 f == f.
Proof.
  intros Hf. unfold py_max. destruct (Qltb 0 f) eqn:E; [reflexivity|].
  apply Qltb_ge in E. now apply Qle_antisym.
Qed.

Lemma py_max_0_floor (f : Q) : 0 <= py_max 0 f.
Proof.
  unfold py_max. destruct (Qltb 0 f) eqn:E.
  - apply Qltb_lt in E. now apply Qlt_le_weak.
  - apply Qle_refl.
Qed.

End PyFacts.

(** Case analysis on every [Qltb] test of the goal, each turned into the
    order fact it decides. *)
Ltac case_Qltb :=
  repeat match goal with
  | |- context [Qltb ?a ?b] =>
      let E := fresh "E" in
      destruct (Qltb a b) eqn:E;
      [apply Qltb_lt in E | apply Qltb_ge in E]
  end.


(** ** The forecast aggregator *)

Section AggregatorFacts.

Local Open Scope Q_scope.

(** With a positive window the moving average never raises. *)
Lemma sma_total (data : list Q) (window : Z) :
  (0 < window)%Z -> exists m, simple_moving_average data window = Some m.
Proof.
  intros Hw. unfold simple_moving_average.
  destruct (len data <? window)%Z.
  - destruct data as [|d data]; [eauto|].
    rewrite py_div_inject; [eauto|]. rewrite len_cons.
    pose proof (len_nonneg data). lia.
  - rewrite py_div_inject; [eauto|lia].
Qed.

Lemma seasonal_decomposition_total (data : list Q) (period : Z) :
  (0 < period)%Z -> exists r, seasonal_decomposition data period = Some r.
Proof.
  intros Hp. unfold seasonal_decomposition.
  destruct (len data <? period * 2)%Z.
  - destruct (sma_total data 3) as [m ->]; [lia|]. simpl. eauto.
  - destruct (sma_total data period) as [m ->]; [lia|]. simpl.
    destruct (period <=? _)%Z; simpl; [|eauto].
    rewrite py_div_inject by lia. simpl. eauto.
Qed.

(** C7. On the empty series every estimator returns 0 without raising
    (for every smoothing factor and horizon, and every window and period
    of at least 1), and the aggregator reports method [no_data],
    confidence [low] and value 0 whatever the requested mode. *)
Theorem empty_series_yields_zero
    (window period periods_ahead : Z) (alpha : Q)
    (Hwindow : (0 < window)%Z) (Hperiod : (0 < period)%Z) :
  simple_moving_average [] window = Some 0 /\
  exponential_smoothing [] alpha = 0 /\
  linear_trend_forecast [] periods_ahead = 0 /\
  seasonal_decomposition [] period = Some (mkSeasonal 0 0 0) /\
  forall mode,
    forecast_next_month [] mode = Some (mkForecast 0 "no_data" "low" None).
Proof.
  assert (Hsma : forall w, (0 < w)%Z -> simple_moving_average [] w = Some 0).
  { intros w Hw. unfold simple_moving_average.
    replace (len [] <? w)%Z with true; [reflexivity|].
    symmetry. apply Z.ltb_lt. exact Hw. }
  repeat split.
  - now apply Hsma.
  - unfold seasonal_decomposition.
    replace (len [] <? period * 2)%Z with true.
    + now rewrite (Hsma 3%Z).
    + symmetry. apply Z.ltb_lt. change (len (@nil Q)) with 0%Z. lia.
Qed.

Lemma empty_series_yields_zero_witness :
  (0 < 3)%Z /\ (0 < 12)%Z /\
  simple_moving_average [] 3 = Some 0 /\
  exponential_smoothing [] (3 # 10) = 0 /\
  linear_trend_forecast [] 1 = 0 /\
  seasonal_decomposition [] 12 = Some (mkSeasonal 0 0 0) /\
  forall mode,
    forecast_next_month [] mode = Some (mkForecast 0 "no_data" "low" None).
Proof.
  split; [reflexivity|]. split; [reflexivity|].
  apply (empty_series_yields_zero 3 12 1 (3 # 10)); reflexivity.
Defined.

(** *** Named modes *)

Lemma long_series_not_nil {A} (data : list A) :
  (3 <= len data)%Z -> data <> [].
Proof. intros H ->. unfold len in H. simpl in H. lia. Qed.

(** Past the two short-series returns the aggregator is its third branch. *)
Lemma forecast_next_month_long (data : list Q) (mode : string) :
  (3 <= len data)%Z ->
  forecast_next_month data mode =
    (forecasts ← compute_forecasts data mode;
     chosen ←
       (if String.eqb mode "auto"
        then v ← py_div (sum (dict_values forecasts)) (inject_Z (len forecasts));
             Some (v, "ensemble"%string)
        else Some (default (default 0 (dict_get forecasts "sma"))
                           (dict_get forecasts mode), mode));
     Some (mkForecast chosen.1 chosen.2
             (if cv_lt (np_var data) (np_mean data) (2 # 10) then "high"
              else if cv_lt (np_var data) (np_mean data) (5 # 10) then "medium"
              else "low")
             (Some (mkStats data (np_var data) (np_mean data))))).
Proof.
  intros Hlen. unfold forecast_next_month.
  destruct data as [|d data]; [unfold len in Hlen; simpl in Hlen; lia|].
  replace (len (d :: data) <? 3)%Z with false
    by (symmetry; apply Z.ltb_ge; lia).
  reflexivity.
Qed.

(** A named estimator that was computed is returned as it is. *)
Lemma named_mode_sma (data : list Q) :
  (3 <= len data)%Z ->
  exists r v, forecast_next_month data "sma" = Some r /\
              simple_moving_average data 3 = Some v /\
              forecast r = v /\ method r = "sma"%string.
Proof.
  intros Hlen. rewrite forecast_next_month_long by exact Hlen.
  unfold compute_forecasts.
  destruct (sma_total data 3) as [v Hv]; [lia|].
  cbn. rewrite Hv. cbn. eexists _, _. repeat split.
Qed.

Lemma named_mode_ema (data : list Q) :
  (3 <= len data)%Z ->
  exists r, forecast_next_month data "ema" = Some r /\
            forecast r = exponential_smoothing data (3 # 10) /\
            method r = "ema"%string.
Proof.
  intros Hlen. rewrite forecast_next_month_long by exact Hlen.
  unfold compute_forecasts. cbn. eauto.
Qed.

Lemma named_mode_linear (data : list Q) :
  (3 <= len data)%Z ->
  exists r, forecast_next_month data "linear" = Some r /\
            forecast r = linear_trend_forecast data 1 /\
            method r = "linear"%string.
Proof.
  intros Hlen. rewrite forecast_next_month_long by exact Hlen.
  unfold compute_forecasts. cbn. eauto.
Qed.

Lemma named_mode_seasonal (data : list Q) :
  (6 <= len data)%Z ->
  exists r s, forecast_next_month data "seasonal" = Some r /\
              seasonal_decomposition data (Z.min 12 (len data)) = Some s /\
              forecast r = s_forecast s /\ method r = "seasonal"%string.
Proof.
  intros Hlen. rewrite forecast_next_month_long by lia.
  unfold compute_forecasts.
  destruct (seasonal_decomposition_total data (Z.min 12 (len data)))
    as [s Hs]; [lia|].
  replace (6 <=? len data)%Z with true by (symmetry; apply Z.leb_le; lia).
  cbn. rewrite Hs. cbn. eexists _, _. repeat split.
Qed.

(** A seasonal request on three to five months computes no estimator at
    all: the moving average is only computed in modes [auto] and [sma], so
    the fallback [forecasts.get('sma', 0)] yields 0. *)
Lemma seasonal_mode_short_series (data : list Q) :
  (3 <= len data < 6)%Z ->
  exists r, forecast_next_month data "seasonal" = Some r /\
            forecast r = 0 /\ method r = "seasonal"%string.
Proof.
  intros Hlen. rewrite forecast_next_month_long by lia.
  unfold compute_forecasts.
  replace (6 <=? len data)%Z with false by (symmetry; apply Z.leb_gt; lia).
  cbn. eauto.
Qed.

(** C1. At the series [1000, 1100, 1050] the mode [seasonal] returns 0 under
    method [seasonal], whereas the moving average of the series is 1050:
    the fallback to the moving average does not take place. *)
Theorem seasonal_fallback_returns_zero :
  exists r m,
    forecast_next_month [1000; 1100; 1050] "seasonal" = Some r /\
    forecast r = 0 /\ method r = "seasonal"%string /\
    simple_moving_average [1000; 1100; 1050] 3 = Some m /\
    m == 1050 /\ ~ forecast r == m.
Proof.
  eexists _, _. repeat split; try reflexivity.
  vm_compute. discriminate.
Qed.

(** *** The ensemble *)

Lemma sum_between (lo hi : Q) (l : list Q) :
  Forall (fun v => lo <= v <= hi) l ->
  inject_Z (len l) * lo <= sum l <= inject_Z (len l) * hi.
Proof.
  induction 1 as [|x l [Hlo Hhi] _ [IHlo IHhi]].
  - rewrite sum_nil. change (inject_Z (len [])) with 0. Lqa.lra.
  - rewrite sum_cons, len_cons, inject_Z_plus.
    change (inject_Z 1) with 1. split; Lqa.lra.
Qed.

Lemma list_min_le (x : Q) (l : list Q) :
  Forall (fun v => list_min x l <= v) (x :: l).
Proof.
  revert x. induction l as [|y l IH]; intros x; simpl.
  - repeat constructor. apply Qle_refl.
  - constructor; [apply Q.le_min_l|].
    eapply Forall_impl; [apply IH|]. simpl. intros v Hv.
    eapply Qle_trans; [apply Q.le_min_r|exact Hv].
Qed.

Lemma list_max_ge (x : Q) (l : list Q) :
  Forall (fun v => v <= list_max x l) (x :: l).
Proof.
  revert x. induction l as [|y l IH]; intros x; simpl.
  - repeat constructor. apply Qle_refl.
  - constructor; [apply Q.le_max_l|].
    eapply Forall_impl; [apply IH|]. simpl. intros v Hv.
    eapply Qle_trans; [exact Hv|apply Q.le_max_r].
Qed.

Lemma list_min_max_bounds (x : Q) (l : list Q) :
  Forall (fun v => list_min x l <= v <= list_max x l) (x :: l).
Proof.
  pose proof (list_min_le x l) as Hmin.
  pose proof (list_max_ge x l) as Hmax.
  rewrite Forall_forall in *. intros v Hv. split; auto.
Qed.

(** In mode [auto] three or four estimators are computed, none raises. *)
Lemma compute_forecasts_auto (data : list Q) :
  (3 <= len data)%Z ->
  exists s rest,
    simple_moving_average data 3 = Some s /\
    compute_forecasts data "auto" =
      Some (("sma", s) :: ("ema", exponential_smoothing data (3 # 10))
            :: ("linear", linear_trend_forecast data 1) :: rest) /\
    ((len data < 6)%Z /\ rest = []
     \/ (6 <= len data)%Z /\
        exists r, seasonal_decomposition data (Z.min 12 (len data)) = Some r /\
                  rest = [("seasonal", s_forecast r)]).
Proof.
  intros Hlen. destruct (sma_total data 3) as [s Hs]; [lia|].
  unfold compute_forecasts. rewrite Hs. cbn.
  destruct (6 <=? len data)%Z eqn:E.
  - apply Z.leb_le in E.
    destruct (seasonal_decomposition_total data (Z.min 12 (len data)))
      as [r Hr]; [lia|].
    rewrite Hr. cbn. eexists _, _. split; [reflexivity|]. split; [reflexivity|].
    right. split; [exact E|]. eauto.
  - apply Z.leb_gt in E. cbn. eexists _, _.
    split; [reflexivity|]. split; [reflexivity|]. left. now split.
Qed.

End AggregatorFacts.

(** ** The confidence label *)

Section ConfidenceFacts.

(** The rational test [sqrt_ratio_lt] decides the comparison the source
    writes with [np.sqrt]: for a non-negative variance, a positive mean and
    a positive threshold, [variance < (t * mean)^2] holds exactly when
    [sqrt(variance) / mean < t] does, over the reals. *)
Lemma sqrt_ratio_lt_sound (v m t : Q) :
  (0 <= v)%Q -> (0 < m)%Q -> (0 < t)%Q ->
  sqrt_ratio_lt v m t = true <-> (sqrt (Q2R v) / Q2R m < Q2R t)%R.
Proof.
  intros Hv Hm Ht. unfold sqrt_ratio_lt. rewrite Qltb_lt.
  apply Qle_Rle in Hv. apply Qlt_Rlt in Hm, Ht.
  rewrite RMicromega.Q2R_0 in Hv, Hm, Ht.
  set (V := Q2R v) in *. set (M := Q2R m) in *. set (T := Q2R t) in *.
  assert (Hs : (0 <= sqrt V)%R) by apply sqrt_pos.
  assert (Hss : (sqrt V * sqrt V = V)%R) by now apply sqrt_sqrt.
  assert (HTM : (0 < T * M)%R) by now apply Rmult_lt_0_compat.
  assert (Hdiv : (sqrt V / M < T <-> sqrt V < T * M)%R).
  { split; intros H.
    - apply (Rmult_lt_compat_r M) in H; [|exact Hm].
      unfold Rdiv in H. rewrite Rmult_assoc, Rinv_l, Rmult_1_r in H;
        [exact H|Lra.lra].
    - apply (Rmult_lt_reg_r M); [exact Hm|].
      unfold Rdiv. rewrite Rmult_assoc, Rinv_l, Rmult_1_r; [exact H|Lra.lra]. }
  rewrite Hdiv. split; intros H.
  - apply Qlt_Rlt in H. rewrite !Q2R_mult in H. fold V M T in H.
    rewrite <- (sqrt_square (T * M)) by Lra.lra.
    apply sqrt_lt_1; [exact Hv| Lra.nra |exact H].
  - apply Rlt_Qlt. rewrite !Q2R_mult. fold V M T.
    rewrite <- Hss. Lra.nra.
Qed.

Lemma np_var_nonneg (l : list Q) : (0 <= np_var l)%Q.
Proof.
  unfold np_var, np_mean. change np_sum with sum.
  apply Qmult_le_0_compat.
  - apply sum_nonneg. apply Forall_forall. intros y Hy.
    apply list_elem_of_In, in_map_iff in Hy as (x & <- & _).
    set (d := (x - sum l / inject_Z (len l))%Q).
    destruct (Qlt_le_dec d 0) as [Hneg|Hpos].
    + assert (E : (d * d == (- d) * (- d))%Q) by ring.
      rewrite E. apply Qmult_le_0_compat; Lqa.lra.
    + now apply Qmult_le_0_compat.
  - apply Qinv_le_0_compat. change 0%Q with (inject_Z 0).
    rewrite <- Zle_Qle. apply len_nonneg.
Qed.

(** On a series with a positive mean the test [cv_lt] of the aggregator is
    the comparison of the coefficient of variation with the threshold. *)
Lemma cv_lt_sound (data : list Q) (t : Q) :
  (0 < np_mean data)%Q -> (0 < t)%Q ->
  cv_lt (np_var data) (np_mean data) t = true <->
  (sqrt (Q2R (np_var data)) / Q2R (np_mean data) < Q2R t)%R.
Proof.
  intros Hmean Ht. unfold cv_lt.
  replace (Qltb 0 (np_mean data)) with true
    by (symmetry; now apply Qltb_lt).
  apply sqrt_ratio_lt_sound; [apply np_var_nonneg|exact Hmean|exact Ht].
Qed.

End ConfidenceFacts.

(** ** The three-month scenario [1000, 1100, 1050] in mode [auto] *)

Section Scenario.

Local Open Scope Q_scope.

(** C3, as stated, fails: on [1000, 1100, 1050] exponential smoothing is not
    within 1 of 1034.5, the linear trend is not within 1 of 1083.3 and the
    ensemble is not within 1 of 1055.9. *)
Lemma scenario_stated_values_fail :
  ~ Qabs (exponential_smoothing scenario (3 # 10) - (10345 # 10)) <= 1 /\
  ~ Qabs (linear_trend_forecast scenario 1 - (10833 # 10)) <= 1 /\
  ~ (exists r, forecast_next_month scenario "auto" = Some r /\
               Qabs (forecast r - (10559 # 10)) <= 1).
Proof.
  split; [|split].
  - intros H. apply Qle_bool_iff in H. vm_compute in H. discriminate.
  - intros H. apply Qle_bool_iff in H. vm_compute in H. discriminate.
  - intros (r & Hr & H). vm_compute in Hr. injection Hr as <-.
    apply Qle_bool_iff in H. vm_compute in H. discriminate.
Qed.

(** C3, amended. On [1000, 1100, 1050] in mode [auto] the moving average is
    1050, exponential smoothing with factor 0.3 is 1036, the linear trend is
    1100, no seasonal estimator runs, the ensemble is their mean 1062, and
    the confidence is [high]: the variance is 5000/3, the mean 1050, and
    sqrt(variance)/mean is below 0.2. *)
Theorem scenario_auto_forecast :
  exists m forecasts r st,
    simple_moving_average scenario 3 = Some m /\ m == 1050 /\
    exponential_smoothing scenario (3 # 10) == 1036 /\
    linear_trend_forecast scenario 1 == 1100 /\
    compute_forecasts scenario "auto" = Some forecasts /\
    map fst forecasts = ["sma"; "ema"; "linear"]%string /\
    forecast_next_month scenario "auto" = Some r /\
    method r = "ensemble"%string /\
    forecast r == 1062 /\
    forecast r == (1050 + 1036 + 1100) / 3 /\
    confidence r = "high"%string /\
    stats r = Some st /\
    variance st == 5000 / 3 /\ mean st == 1050 /\
    (sqrt (Q2R (variance st)) / Q2R (mean st) < Q2R (2 # 10))%R.
Proof.
  eexists _, _, _, _.
  split; [reflexivity|]. split; [reflexivity|].
  split; [reflexivity|]. split; [reflexivity|].
  split; [reflexivity|]. split; [reflexivity|].
  split; [reflexivity|]. split; [reflexivity|].
  split; [reflexivity|]. split; [reflexivity|].
  split; [reflexivity|]. split; [reflexivity|].
  split; [reflexivity|]. split; [reflexivity|].
  apply sqrt_ratio_lt_sound; [| |reflexivity|reflexivity].
  - vm_compute. discriminate.
  - reflexivity.
Qed.

End Scenario.

(** ** The risk scorer *)

Section RiskFacts.

Local Open Scope Q_scope.

Lemma risk_score_values (u : Q) :
  (120 < u -> risk_score u = 100%Z) /\
  (100 < u <= 120 -> risk_score u = 80%Z) /\
  (90 < u <= 100 -> risk_score u = 60%Z) /\
  (80 < u <= 90 -> risk_score u = 40%Z) /\
  (u <= 80 -> risk_score u = 20%Z).
Proof.
  unfold risk_score. case_Qltb;
    repeat split; intros; try reflexivity; exfalso; Lqa.lra.
Qed.

Lemma risk_score_monotone (u1 u2 : Q) :
  u1 <= u2 -> (risk_score u1 <= risk_score u2)%Z.
Proof.
  intros Hle. unfold risk_score. case_Qltb; try lia; exfalso; Lqa.lra.
Qed.

End RiskFacts.

Import Binary64.

(** ** Binary64 rounding *)

Section Binary64Facts.

Local Open Scope Q_scope.

Lemma round_half_even_close (q : Q) :
  Qabs (inject_Z (round_half_even q) - q) <= 1 # 2.
Proof.
  unfold round_half_even.
  pose proof (Qfloor_le q) as Hlo. pose proof (Qlt_floor q) as Hhi.
  rewrite inject_Z_plus in Hhi. change (inject_Z 1) with 1 in Hhi.
  set (f := Qfloor q) in *. apply Qabs_Qle_condition.
  destruct (Qcompare_spec (q - inject_Z f) (1 # 2)) as [E|E|E].
  - destruct (Z.even f);
      [|rewrite inject_Z_plus; change (inject_Z 1) with 1]; split; Lqa.lra.
  - split; Lqa.lra.
  - rewrite inject_Z_plus. change (inject_Z 1) with 1. split; Lqa.lra.
Qed.

Lemma pow2_pos (z : Z) : 0 < 2 ^ z.
Proof. now apply Qpower_0_lt. Qed.

Lemma pow2_split (n m : Z) : 2 ^ (n + m) == 2 ^ n * 2 ^ m.
Proof. apply Qpower_plus. discriminate. Qed.

(** The scaled significand is at least 2^52. *)
Lemma exponent_lower (q : Q) : ~ q == 0 -> 2 ^ (exponent q + 52) <= Qabs q.
Proof.
  intros Hq. unfold exponent.
  set (a := Z.abs (Qnum q)). set (d := Zpos (Qden q)).
  set (k := (Z.log2 a - Z.log2 d)%Z).
  destruct (Qle_bool (2 ^ k) (Qabs q)) eqn:E.
  - apply Qle_bool_iff in E. now replace (k - 52 + 52)%Z with k by lia.
  - clear E.
    assert (Ha : (0 < a)%Z).
    { unfold a. destruct q as [n dd]. simpl.
      unfold Qeq in Hq. simpl in Hq. lia. }
    assert (Hd : (0 < d)%Z) by (unfold d; lia).
    destruct (Z.log2_spec a Ha) as [Hla _].
    destruct (Z.log2_spec d Hd) as [_ Hld].
    pose proof (Z.log2_nonneg a) as Hna. pose proof (Z.log2_nonneg d) as Hnd.
    replace (k - 53 + 52)%Z with (Z.log2 a + - Z.succ (Z.log2 d))%Z
      by (unfold k; lia).
    rewrite pow2_split, Qpower_opp.
    change 2 with (inject_Z 2).
    rewrite <- !Zpower_Qpower by lia.
    assert (E : Qabs q == inject_Z a / inject_Z d).
    { destruct q as [n dd]. unfold a, d. simpl. apply Qmake_Qdiv. }
    rewrite E.
    assert (Hpd : 0 < inject_Z d)
      by (change 0 with (inject_Z 0); rewrite <- Zlt_Qlt; exact Hd).
    assert (Hp2 : 0 < inject_Z (2 ^ Z.succ (Z.log2 d))).
    { change 0 with (inject_Z 0). rewrite <- Zlt_Qlt. lia. }
    apply Qle_shift_div_l; [exact Hpd|].
    apply Qle_trans with (inject_Z (2 ^ Z.log2 a)).
    + unfold Qdiv. rewrite <- Qmult_assoc.
      rewrite <- (Qmult_1_r (inject_Z (2 ^ Z.log2 a))) at 2.
      apply Qmult_le_l.
      * change 0 with (inject_Z 0). rewrite <- Zlt_Qlt. lia.
      * rewrite Qmult_comm. apply Qle_shift_div_r; [exact Hp2|].
        rewrite Qmult_1_l. rewrite <- Zle_Qle. lia.
    + rewrite <- Zle_Qle. exact Hla.
Qed.

(** Equal rationals round to the same value. *)
Lemma round64_ext (x y : Q) : x == y -> round64 x = round64 y.
Proof. intros H. unfold round64. now rewrite (Qred_complete x y H). Qed.

Lemma round64_0 (x : Q) : x == 0 -> round64 x = 0.
Proof. intros H. now rewrite (round64_ext x 0 H). Qed.

Lemma unit_roundoff_value : unit_roundoff == 1 # 9007199254740992.
Proof. reflexivity. Qed.

(** Rounding moves a value by at most the fraction 2^-53 of its
    magnitude. *)
Lemma round64_error (x : Q) :
  Qabs (round64 x - x) <= unit_roundoff * Qabs x.
Proof.
  unfold round64. pose proof (Qred_correct x) as Hq.
  set (q := Qred x) in *.
  destruct (Qeq_bool q 0) eqn:E0.
  - apply Qeq_bool_iff in E0. rewrite <- Hq, E0. vm_compute. discriminate.
  - apply Qeq_bool_neq in E0. pose proof (exponent_lower q E0) as Hlow.
    set (e := exponent q) in *. pose proof (pow2_pos e) as He.
    pose proof (round_half_even_close (q / 2 ^ e)) as Hc.
    set (N := inject_Z (round_half_even (q / 2 ^ e))) in *.
    rewrite <- Hq.
    assert (Hdiff : N * 2 ^ e - q == (N - q / 2 ^ e) * 2 ^ e)
      by (field; Lqa.lra).
    rewrite Hdiff, Qabs_Qmult, (Qabs_pos (2 ^ e)) by Lqa.lra.
    rewrite pow2_split in Hlow. change (2 ^ 52) with 4503599627370496 in Hlow.
    rewrite unit_roundoff_value.
    apply Qle_trans with ((1 # 2) * 2 ^ e).
    + apply Qmult_le_compat_r; [exact Hc|Lqa.lra].
    + Lqa.lra.
Qed.

(** Rounding keeps the sign of a value. *)
Lemma round64_pos (x : Q) : 0 < x -> 0 < round64 x.
Proof.
  intros Hx. pose proof (round64_error x) as H.
  rewrite (Qabs_pos x) in H by Lqa.lra. rewrite unit_roundoff_value in H.
  apply Qabs_Qle_condition in H. Lqa.lra.
Qed.

(** The scaled significand is below 2^53. *)
Lemma exponent_upper (q : Q) : ~ q == 0 -> Qabs q < 2 ^ (exponent q + 53).
Proof.
  intros Hq. unfold exponent.
  set (a := Z.abs (Qnum q)). set (d := Zpos (Qden q)).
  set (k := (Z.log2 a - Z.log2 d)%Z).
  destruct (Qle_bool (2 ^ k) (Qabs q)) eqn:E.
  - clear E.
    assert (Ha : (0 < a)%Z).
    { unfold a. destruct q as [n dd]. simpl.
      unfold Qeq in Hq. simpl in Hq. lia. }
    assert (Hd : (0 < d)%Z) by (unfold d; lia).
    destruct (Z.log2_spec a Ha) as [_ Hla].
    destruct (Z.log2_spec d Hd) as [Hld _].
    pose proof (Z.log2_nonneg a) as Hna. pose proof (Z.log2_nonneg d) as Hnd.
    replace (k - 52 + 53)%Z with (Z.succ (Z.log2 a) + - Z.log2 d)%Z
      by (unfold k; lia).
    rewrite pow2_split, Qpower_opp.
    change 2 with (inject_Z 2).
    rewrite <- !Zpower_Qpower by lia.
    assert (E : Qabs q == inject_Z a / inject_Z d).
    { destruct q as [n dd]. unfold a, d. simpl. apply Qmake_Qdiv. }
    rewrite E.
    assert (Hpd : 0 < inject_Z d)
      by (change 0 with (inject_Z 0); rewrite <- Zlt_Qlt; exact Hd).
    assert (Hp2 : 0 < inject_Z (2 ^ Z.log2 d)).
    { change 0 with (inject_Z 0). rewrite <- Zlt_Qlt. lia. }
    apply Qlt_shift_div_r; [exact Hpd|].
    apply Qlt_le_trans with (inject_Z (2 ^ Z.succ (Z.log2 a)));
      [rewrite <- Zlt_Qlt; exact Hla|].
    rewrite <- Qmult_assoc.
    rewrite <- (Qmult_1_r (inject_Z (2 ^ Z.succ (Z.log2 a)))) at 1.
    apply Qmult_le_l.
    + change 0 with (inject_Z 0). rewrite <- Zlt_Qlt. lia.
    + rewrite Qmult_comm.
      change (1 <= inject_Z d / inject_Z (2 ^ Z.log2 d)).
      apply Qle_shift_div_l; [exact Hp2|].
      rewrite Qmult_1_l. rewrite <- Zle_Qle. lia.
  - assert (H : ~ 2 ^ k <= Qabs q).
    { intros H. apply Qle_bool_iff in H. congruence. }
    apply Qnot_le_lt in H. now replace (k - 53 + 53)%Z with k by lia.
Qed.

(** What [round64] returns is a binary64 value: an integer of at most 53
    bits times a power of two. *)
Lemma round64_significand (x : Q) :
  exists n e : Z,
    round64 x = inject_Z n * 2 ^ e /\ (Z.abs n <= 2 ^ 53)%Z.
Proof.
  unfold round64. set (q := Qred x).
  destruct (Qeq_bool q 0) eqn:E0.
  - exists 0%Z, 0%Z. split; [reflexivity|]. vm_compute. discriminate.
  - apply Qeq_bool_neq in E0. pose proof (exponent_upper q E0) as Hup.
    set (e := exponent q) in *. pose proof (pow2_pos e) as He.
    exists (round_half_even (q / 2 ^ e)), e. split; [reflexivity|].
    pose proof (round_half_even_close (q / 2 ^ e)) as Hc.
    set (N := round_half_even (q / 2 ^ e)) in *.
    replace (e + 53)%Z with (53 + e)%Z in Hup by lia.
    rewrite pow2_split in Hup.
    change (2 ^ 53) with 9007199254740992 in Hup.
    assert (Hm : Qabs (q / 2 ^ e) < 9007199254740992).
    { unfold Qdiv. rewrite Qabs_Qmult, Qabs_Qinv, (Qabs_pos (2 ^ e))
        by Lqa.lra.
      apply Qlt_shift_div_r; [exact He|exact Hup]. }
    apply Qabs_Qlt_condition in Hm. apply Qabs_Qle_condition in Hc.
    assert (HN : - (9007199254740993) < inject_Z N < 9007199254740993)
      by (split; Lqa.lra).
    destruct HN as [HNlo HNhi].
    change (- (9007199254740993)) with (inject_Z (-9007199254740993)) in HNlo.
    change 9007199254740993 with (inject_Z 9007199254740993) in HNhi.
    rewrite <- Zlt_Qlt in HNlo, HNhi.
    change (2 ^ 53)%Z with 9007199254740992%Z. lia.
Qed.

End Binary64Facts.

(** ** Rounded sums and means *)

Section RoundingFacts.

Local Open Scope Q_scope.

Lemma round64_rounds : rounds_within unit_roundoff round64.
Proof. exact round64_error. Qed.

Lemma exact_rounds : rounds_within 0 (fun x => x).
Proof.
  intros x. unfold Qminus. rewrite Qplus_opp_r, Qmult_0_l. apply Qle_refl.
Qed.

(** A value of magnitude at most [M] moves by at most [u * M]. *)
Lemma rounding_close (u : Q) (rnd : Q -> Q) (x M : Q) :
  rounds_within u rnd -> 0 <= u -> Qabs x <= M ->
  - (u * M) <= rnd x - x <= u * M.
Proof.
  intros Hr Hu Hx. apply Qabs_Qle_condition.
  eapply Qle_trans; [apply Hr|].
  rewrite !(Qmult_comm u). now apply Qmult_le_compat_r.
Qed.

Lemma rounding_nonneg (u : Q) (rnd : Q -> Q) (x : Q) :
  rounds_within u rnd -> 0 <= u <= 1 -> 0 <= x -> 0 <= rnd x.
Proof.
  intros Hr [Hu0 Hu1] Hx.
  pose proof (Hr x) as H. rewrite (Qabs_pos x Hx) in H.
  apply Qabs_Qle_condition in H. destruct H as [Hlo _].
  assert (Hp : 0 <= (1 - u) * x) by (apply Qmult_le_0_compat; Lqa.lra).
  Lqa.lra.
Qed.

Lemma abs_bounds (x M : Q) : Qabs x <= M <-> - M <= x <= M.
Proof. apply Qabs_Qle_condition. Qed.

Lemma rounded_sum_snoc (rnd : Q -> Q) (l : list Q) (x : Q) :
  Rounded.sum rnd (l ++ [x]) = rnd (Rounded.sum rnd l + x).
Proof. unfold Rounded.sum. now rewrite fold_left_app. Qed.

Lemma sum_snoc (l : list Q) (x : Q) : Py.sum (l ++ [x]) == Py.sum l + x.
Proof. unfold Py.sum. rewrite fold_left_app. reflexivity. Qed.

Lemma len_snoc {A} (l : list A) (x : A) : len (l ++ [x]) = (len l + 1)%Z.
Proof. unfold len. rewrite length_app. simpl. lia. Qed.

Lemma inject_len_nonneg {A} (l : list A) : 0 <= inject_Z (len l).
Proof.
  change 0 with (inject_Z 0). rewrite <- Zle_Qle. apply len_nonneg.
Qed.

(** The left-to-right rounded sum of [n] values of magnitude at most [B]
    differs from their exact sum by at most [n^2 u B], and the exact sum is
    at most [n B] in magnitude. *)
Lemma rounded_sum_error (u : Q) (rnd : Q -> Q) (B : Q) (l : list Q) :
  rounds_within u rnd -> 0 <= u ->
  inject_Z (len l) * u <= 1 ->
  Forall (fun x => Qabs x <= B) l ->
  Qabs (Py.sum l) <= inject_Z (len l) * B /\
  Qabs (Rounded.sum rnd l - Py.sum l)
  <= inject_Z (len l) * inject_Z (len l) * u * B.
Proof.
  intros Hr Hu. induction l as [|x l IH] using rev_ind; intros Hn Hall.
  - change (inject_Z (len [])) with 0. split; vm_compute; discriminate.
  - apply Forall_app in Hall as [Hall Hx]. inversion_clear Hx as [|? ? Hx' _].
    rewrite len_snoc, inject_Z_plus in *. change (inject_Z 1) with 1 in *.
    pose proof (inject_len_nonneg l) as Hn0.
    set (n := inject_Z (len l)) in *.
    assert (HB : 0 <= B) by (eapply Qle_trans; [apply Qabs_nonneg|exact Hx']).
    assert (Hnu : n * u <= 1).
    { assert (0 <= 1 * u) by Lqa.lra. Lqa.lra. }
    destruct (IH Hnu Hall) as [Hs He].
    rewrite rounded_sum_snoc, sum_snoc.
    set (S := Rounded.sum rnd l) in *. set (T := Py.sum l) in *.
    apply abs_bounds in Hs, He, Hx'.
    assert (HuB : 0 <= u * B) by now apply Qmult_le_0_compat.
    assert (HnuB : 0 <= n * (u * B)) by now apply Qmult_le_0_compat.
    assert (Hsq : n * u * (n * (u * B)) <= 1 * (n * (u * B))).
    { apply Qmult_le_compat_r; [exact Hnu|exact HnuB]. }
    assert (Hnn : 0 <= n * (n * (u * B))) by now apply Qmult_le_0_compat.
    assert (Hmag : Qabs (S + x) <= n * B + n * n * u * B + B).
    { apply abs_bounds. split; Lqa.lra. }
    pose proof (rounding_close u rnd (S + x) _ Hr Hu Hmag) as Hrc.
    split; apply abs_bounds; split; Lqa.lra.
Qed.

End RoundingFacts.

Section RoundedMeans.

Local Open Scope Q_scope.

Lemma div_bounds (a b x n : Q) :
  0 < n -> a * n <= x <= b * n -> a <= x / n <= b.
Proof.
  intros Hn [Hlo Hhi]. split.
  - now apply Qle_shift_div_l.
  - now apply Qle_shift_div_r.
Qed.

Lemma rounded_div_inject (rnd : Q -> Q) (x : Q) (p : Z) :
  p <> 0%Z -> Rounded.py_div rnd x (inject_Z p) = Some (rnd (x / inject_Z p)).
Proof.
  intros Hp. unfold Rounded.py_div.
  destruct (Qeq_bool (inject_Z p) 0) eqn:E; [|reflexivity].
  apply Qeq_bool_iff in E. now apply inject_Z_nonzero in E.
Qed.

Lemma scale_bounds (n d e : Q) :
  0 <= n -> - e <= d <= e -> - (n * e) <= n * d <= n * e.
Proof.
  intros Hn [Hlo Hhi].
  assert (H1 : 0 <= n * (d + e)) by (apply Qmult_le_0_compat; Lqa.lra).
  assert (H2 : 0 <= n * (e - d)) by (apply Qmult_le_0_compat; Lqa.lra).
  split; Lqa.lra.
Qed.

(** The rounded mean [m] of [n >= 1] values of magnitude at most [B]:
    [n m] is within [n (n + 2) u B] of their exact sum, and [m] is at most
    [B + (n + 2) u B] in magnitude. *)
Lemma rounded_mean_error (u : Q) (rnd : Q -> Q) (B : Q) (l : list Q) :
  rounds_within u rnd -> 0 <= u ->
  inject_Z (len l) * u <= 1 ->
  (0 < len l)%Z ->
  Forall (fun x => Qabs x <= B) l ->
  let n := inject_Z (len l) in
  let m := rnd (Rounded.sum rnd l / n) in
  Qabs (n * m - Py.sum l) <= n * ((n + 2) * (u * B)) /\
  Qabs (m - Py.sum l / n) <= (n + 2) * (u * B).
Proof.
  intros Hr Hu Hnu Hlen Hmag n m.
  destruct (rounded_sum_error u rnd B l Hr Hu Hnu Hmag) as [Hs He].
  assert (Hn : 0 < n)
    by (unfold n; change 0 with (inject_Z 0); now rewrite <- Zlt_Qlt).
  fold n in Hs, He, Hnu. subst m.
  set (S := Rounded.sum rnd l) in *. set (T := Py.sum l) in *.
  apply abs_bounds in Hs, He.
  assert (HB : 0 <= B).
  { destruct l as [|x l]; [discriminate|].
    inversion_clear Hmag as [|? ? Hx _].
    eapply Qle_trans; [apply Qabs_nonneg|exact Hx]. }
  assert (HuB : 0 <= u * B) by now apply Qmult_le_0_compat.
  assert (Hsq : n * u * (u * B) <= 1 * (u * B))
    by now apply Qmult_le_compat_r.
  assert (Hqm : Qabs (S / n) <= B + n * u * B).
  { apply abs_bounds. apply div_bounds; [exact Hn|split; Lqa.lra]. }
  pose proof (rounding_close u rnd (S / n) _ Hr Hu Hqm) as Hrc.
  set (m := rnd (S / n)) in *.
  assert (Hmq : - (2 * (u * B)) <= m - S / n <= 2 * (u * B))
    by (split; Lqa.lra).
  pose proof (scale_bounds n _ _ (Qlt_le_weak _ _ Hn) Hmq) as Hsc.
  assert (Hnq : n * (S / n) == S) by (field; Lqa.lra).
  assert (Hfirst : - (n * ((n + 2) * (u * B))) <= n * m - T
                   <= n * ((n + 2) * (u * B))).
  { split; Lqa.lra. }
  split; apply abs_bounds; [exact Hfirst|].
  assert (Hdiv : m - T / n == (n * m - T) / n) by (field; Lqa.lra).
  rewrite Hdiv. apply div_bounds; [exact Hn|]. split; Lqa.lra.
Qed.

(** The rounded mean of [n >= 1] values taken from [[lo, hi]], of
    magnitude at most [B], lies within [(n + 2) u B] of that interval. *)
Lemma rounded_mean_near (u : Q) (rnd : Q -> Q) (lo hi B : Q) (l : list Q) :
  rounds_within u rnd -> 0 <= u ->
  inject_Z (len l) * u <= 1 ->
  (0 < len l)%Z ->
  Forall (fun x => lo <= x <= hi) l ->
  Forall (fun x => Qabs x <= B) l ->
  lo - (inject_Z (len l) + 2) * u * B
  <= rnd (Rounded.sum rnd l / inject_Z (len l))
  <= hi + (inject_Z (len l) + 2) * u * B.
Proof.
  intros Hr Hu Hnu Hlen Hrange Hmag.
  destruct (rounded_mean_error u rnd B l Hr Hu Hnu Hlen Hmag) as [_ He].
  cbv zeta in He. apply abs_bounds in He.
  destruct (sum_between lo hi l Hrange) as [Hlo Hhi].
  assert (Hn : 0 < inject_Z (len l))
    by (change 0 with (inject_Z 0); now rewrite <- Zlt_Qlt).
  assert (Hmean : lo <= Py.sum l / inject_Z (len l) <= hi).
  { apply div_bounds; [exact Hn|]. split; Lqa.lra. }
  split; Lqa.lra.
Qed.

End RoundedMeans.

(** ** The ensemble on rounded arithmetic *)

Section RoundedAggregator.

Local Open Scope Q_scope.

Lemma rounded_sma_full_window (rnd : Q -> Q) (data : list Q) (window : Z) :
  (0 < window <= len data)%Z ->
  Rounded.simple_moving_average rnd data window
  = Some (rnd (Rounded.sum rnd (slice_from (- window) data)
               / inject_Z window)).
Proof.
  intros Hw. unfold Rounded.simple_moving_average.
  replace (len data <? window)%Z with false by (symmetry; apply Z.ltb_ge; lia).
  apply rounded_div_inject. lia.
Qed.

Lemma rounded_sma_total (rnd : Q -> Q) (data : list Q) (window : Z) :
  (0 < window)%Z ->
  exists m, Rounded.simple_moving_average rnd data window = Some m.
Proof.
  intros Hw. unfold Rounded.simple_moving_average.
  destruct (len data <? window)%Z.
  - destruct data as [|d data]; [eauto|].
    rewrite rounded_div_inject; [eauto|]. rewrite len_cons.
    pose proof (len_nonneg data). lia.
  - rewrite rounded_div_inject; [eauto|lia].
Qed.

Lemma rounded_seasonal_total (rnd : Q -> Q) (data : list Q) (period : Z) :
  (0 < period)%Z ->
  exists r, Rounded.seasonal_decomposition rnd data period = Some r.
Proof.
  intros Hp. unfold Rounded.seasonal_decomposition.
  destruct (len data <? period * 2)%Z.
  - destruct (rounded_sma_total rnd data 3) as [m ->]; [lia|]. simpl. eauto.
  - destruct (rounded_sma_total rnd data period) as [m ->]; [lia|]. simpl.
    destruct (period <=? _)%Z; simpl; [|eauto].
    rewrite rounded_div_inject by lia. simpl. eauto.
Qed.

(** In mode [auto] three or four estimates are computed, none raises. *)
Lemma rounded_forecasts_auto (rnd : Q -> Q) (data : list Q) :
  (3 <= len data)%Z ->
  exists s rest,
    Rounded.compute_forecasts rnd data "auto" =
      Some (("sma", s)
            :: ("ema", Rounded.exponential_smoothing rnd data (rnd (3 # 10)))
            :: ("linear", Rounded.linear_trend_forecast rnd data 1) :: rest) /\
    ((len data < 6)%Z /\ rest = []
     \/ (6 <= len data)%Z /\ exists f, rest = [("seasonal", f)]).
Proof.
  intros Hlen. destruct (rounded_sma_total rnd data 3) as [s Hs]; [lia|].
  unfold Rounded.compute_forecasts. rewrite Hs. cbn.
  destruct (6 <=? len data)%Z eqn:E.
  - apply Z.leb_le in E.
    destruct (rounded_seasonal_total rnd data (Z.min 12 (len data)))
      as [r Hr]; [lia|].
    rewrite Hr. cbn. eexists _, _. split; [reflexivity|].
    right. split; [exact E|]. eauto.
  - apply Z.leb_gt in E. cbn. eexists _, _.
    split; [reflexivity|]. left. now split.
Qed.

Lemma rounded_forecast_long (rnd : Q -> Q) (data : list Q) (mode : string) :
  (3 <= len data)%Z ->
  Rounded.forecast_next_month rnd data mode =
    (forecasts ← Rounded.compute_forecasts rnd data mode;
     if String.eqb mode "auto"
     then v ← Rounded.py_div rnd (Rounded.sum rnd (dict_values forecasts))
                             (inject_Z (len forecasts));
          Some (v, "ensemble"%string)
     else Some (default (default 0 (dict_get forecasts "sma"))
                        (dict_get forecasts mode), mode)).
Proof.
  intros Hlen. unfold Rounded.forecast_next_month.
  destruct data as [|d data]; [unfold len in Hlen; simpl in Hlen; lia|].
  now replace (len (d :: data) <? 3)%Z with false
    by (symmetry; apply Z.ltb_ge; lia).
Qed.

(** The ensemble of mode [auto] under a rounding of relative error [u]:
    it is computed without raising from three or four estimates and lies
    within [6 u B] of the interval they span, [B] bounding their
    magnitudes. *)
Lemma ensemble_near (u : Q) (rnd : Q -> Q) (data : list Q) :
  rounds_within u rnd -> 0 <= u -> 4 * u <= 1 ->
  (3 <= len data)%Z ->
  exists forecasts v vs value,
    Rounded.compute_forecasts rnd data "auto" = Some forecasts /\
    dict_values forecasts = v :: vs /\
    (len forecasts = 3 \/ len forecasts = 4)%Z /\
    Rounded.forecast_next_month rnd data "auto"
      = Some (value, "ensemble"%string) /\
    forall B : Q,
      Forall (fun e => Qabs e <= B) (v :: vs) ->
      list_min v vs - 6 * u * B <= value <= list_max v vs + 6 * u * B.
Proof.
  intros Hr Hu Hu4 Hlen.
  destruct (rounded_forecasts_auto rnd data Hlen) as (s & rest & Hcf & Hrest).
  rewrite rounded_forecast_long by exact Hlen. rewrite Hcf.
  set (ema := Rounded.exponential_smoothing rnd data (rnd (3 # 10))) in *.
  set (lin := Rounded.linear_trend_forecast rnd data 1) in *.
  remember (("sma"%string, s) :: ("ema"%string, ema)
            :: ("linear"%string, lin) :: rest) as fs eqn:Hfs.
  assert (Hvals : dict_values fs = s :: ema :: lin :: dict_values rest)
    by (subst fs; reflexivity).
  assert (Hn : len fs = len (dict_values fs))
    by (unfold dict_values; now rewrite len_map).
  assert (Hcount : (len fs = 3 \/ len fs = 4)%Z).
  { subst fs. destruct Hrest as [[_ ->]|[_ [f ->]]]; [now left|now right]. }
  change (String.eqb "auto" "auto") with true.
  cbn [mbind option_bind]. cbv iota.
  rewrite rounded_div_inject by lia. cbn [mbind option_bind].
  exists fs. eexists s, (ema :: lin :: dict_values rest), _.
  split; [reflexivity|]. split; [exact Hvals|]. split; [exact Hcount|].
  split; [reflexivity|]. intros B HB.
  rewrite Hn, Hvals in *.
  set (vals := s :: ema :: lin :: dict_values rest) in *.
  assert (Hn4 : 0 <= inject_Z (len vals) <= 4).
  { change 0 with (inject_Z 0). change 4 with (inject_Z 4).
    rewrite <- !Zle_Qle. lia. }
  assert (HB0 : 0 <= B).
  { inversion_clear HB as [|? ? Hx _].
    eapply Qle_trans; [apply Qabs_nonneg|exact Hx]. }
  assert (HuB : 0 <= u * B) by now apply Qmult_le_0_compat.
  assert (Hnu : inject_Z (len vals) * u <= 1).
  { assert (inject_Z (len vals) * u <= 4 * u)
      by (apply Qmult_le_compat_r; [apply Hn4|exact Hu]). Lqa.lra. }
  assert (HnuB : inject_Z (len vals) * (u * B) <= 4 * (u * B))
    by (apply Qmult_le_compat_r; [apply Hn4|exact HuB]).
  pose proof (rounded_mean_near u rnd
                (list_min s (ema :: lin :: dict_values rest))
                (list_max s (ema :: lin :: dict_values rest)) B vals Hr Hu Hnu)
    as Hmean.
  destruct Hmean as [Hlo Hhi];
    [lia|apply list_min_max_bounds|exact HB|].
  split; Lqa.lra.
Qed.

(** The fuel [np_sum] gives [pairwise_sum], the length of the array, is
    enough: more fuel changes nothing. *)
Lemma pairwise_sum_fuel (rnd : Q -> Q) (fuel : nat) :
  forall (a : list Q) (more : nat),
    (length a <= fuel)%nat -> (length a <= more)%nat ->
    Rounded.pairwise_sum rnd fuel a = Rounded.pairwise_sum rnd more a.
Proof.
  induction fuel as [|fuel IH]; intros a more Hfuel Hmore.
  - destruct a; [|simpl in Hfuel; lia]. now destruct more.
  - destruct more as [|more].
    + destruct a; [reflexivity|simpl in Hmore; lia].
    + cbn [Rounded.pairwise_sum].
      destruct (length a <? 8)%nat eqn:E8; [reflexivity|].
      destruct (length a <=? 128)%nat eqn:E128; [reflexivity|].
      apply Nat.leb_gt in E128.
      set (n2 := (length a / 2 - (length a / 2) mod 8)%nat).
      assert (Hdiv : (64 <= length a / 2 <= length a - 1)%nat).
      { pose proof (Nat.div_mod_eq (length a) 2) as Hd.
        pose proof (Nat.mod_upper_bound (length a) 2). lia. }
      assert (Hmod : ((length a / 2) mod 8 < 8)%nat)
        by (apply Nat.mod_upper_bound; lia).
      assert (Hn2 : (0 < n2 < length a)%nat) by (unfold n2; lia).
      rewrite (IH (take n2 a) more), (IH (drop n2 a) more);
        rewrite ?length_take, ?length_drop; try lia.
      reflexivity.
Qed.

End RoundedAggregator.

(** ** The seasonal path on rounded arithmetic *)

Section RoundedSeasonal.

Local Open Scope Q_scope.

Lemma rounded_sum_nonneg (u : Q) (rnd : Q -> Q) (l : list Q) :
  rounds_within u rnd -> 0 <= u <= 1 ->
  Forall (fun x => 0 <= x) l -> 0 <= Rounded.sum rnd l.
Proof.
  intros Hr Hu. induction l as [|x l IH] using rev_ind; intros Hall.
  - apply Qle_refl.
  - apply Forall_app in Hall as [Hall Hx]. inversion_clear Hx as [|? ? Hx' _].
    rewrite rounded_sum_snoc. apply (rounding_nonneg u); [exact Hr|exact Hu|].
    specialize (IH Hall). Lqa.lra.
Qed.

(** Two maps that differ by at most [e] pointwise have sums that differ by
    at most [len(l) e]. *)
Lemma sum_map_close (f g : Q -> Q) (e : Q) (l : list Q) :
  Forall (fun x => - e <= f x - g x <= e) l ->
  - (inject_Z (len l) * e) <= Py.sum (map f l) - Py.sum (map g l)
  <= inject_Z (len l) * e.
Proof.
  induction 1 as [|x l [Hlo Hhi] _ [IHlo IHhi]].
  - simpl. rewrite sum_nil. change (inject_Z (len [])) with 0. split; Lqa.lra.
  - simpl map. rewrite !sum_cons, len_cons, inject_Z_plus.
    change (inject_Z 1) with 1. split; Lqa.lra.
Qed.

(** The floor at 0 brings a value no further from a non-negative one. *)
Lemma py_max_0_near (f m e : Q) :
  0 <= m -> - e <= f - m <= e -> - e <= py_max 0 f - m <= e.
Proof.
  intros Hm [Hlo Hhi]. unfold py_max.
  destruct (Qltb 0 f) eqn:E; [now split|].
  apply Qltb_ge in E. split; Lqa.lra.
Qed.

(** Under a rounding of relative error [u] with [16 period u <= 1], on a
    series of values in [[0, B]] holding at least two periods: the trend is
    the moving average over one period, and the seasonal component and the
    distance between forecast and moving average are at most
    [20 period u B]. *)
Lemma seasonal_near (u : Q) (rnd : Q -> Q) (data : list Q) (period : Z)
    (B : Q) :
  rounds_within u rnd -> 0 <= u ->
  16 * (inject_Z period * u) <= 1 ->
  (0 < period)%Z ->
  (period * 2 <= len data)%Z ->
  Forall (fun x => 0 <= x <= B) data ->
  exists r m,
    Rounded.seasonal_decomposition rnd data period = Some r /\
    Rounded.simple_moving_average rnd data period = Some m /\
    s_trend r = m /\
    Qabs (s_seasonal r) <= 20 * inject_Z period * u * B /\
    Qabs (s_forecast r - m) <= 20 * inject_Z period * u * B.
Proof.
  intros Hr Hu Hsmall Hperiod Hlen Hrange.
  set (last := slice_from (- period) data).
  set (p := inject_Z period) in *.
  assert (Hp1 : 1 <= p).
  { unfold p. change 1 with (inject_Z 1). rewrite <- Zle_Qle. lia. }
  assert (Hlast : Forall (fun x => 0 <= x <= B) last)
    by now apply Forall_slice_from.
  assert (Hlenlast : len last = period) by (apply len_slice_last; lia).
  assert (HB : 0 <= B).
  { destruct last as [|x l] eqn:El.
    - unfold len in Hlenlast. simpl in Hlenlast. lia.
    - inversion_clear Hlast as [|? ? [Hx0 Hx1] _]. Lqa.lra. }
  assert (Hmag : Forall (fun x => Qabs x <= B) last).
  { eapply Forall_impl; [exact Hlast|]. simpl. intros x [Hx0 Hx1].
    apply abs_bounds. split; Lqa.lra. }
  assert (Hnn : Forall (fun x => 0 <= x) last).
  { eapply Forall_impl; [exact Hlast|]. simpl. now intros x [Hx0 _]. }
  set (e := u * B). assert (He : 0 <= e) by now apply Qmult_le_0_compat.
  assert (Hedef : e == u * B) by reflexivity.
  assert (Hpu : 0 <= p * u) by (apply Qmult_le_0_compat; Lqa.lra).
  assert (Hu16 : 16 * u <= 1).
  { assert (1 * u <= p * u) by (apply Qmult_le_compat_r; Lqa.lra). Lqa.lra. }
  assert (Hpe : e <= p * e).
  { assert (1 * e <= p * e) by (apply Qmult_le_compat_r; Lqa.lra). Lqa.lra. }
  assert (Hpe16 : 16 * (p * e) <= B).
  { assert (16 * (p * u) * B <= 1 * B)
      by (apply Qmult_le_compat_r; [exact Hsmall|exact HB]).
    unfold e. Lqa.lra. }
  (* the trend *)
  set (S := Rounded.sum rnd last). set (T := Py.sum last).
  set (m := rnd (S / p)).
  assert (Hsma : Rounded.simple_moving_average rnd data period = Some m)
    by (apply rounded_sma_full_window; lia).
  assert (Hnu : inject_Z (len last) * u <= 1)
    by (rewrite Hlenlast; fold p; Lqa.lra).
  destruct (rounded_mean_error u rnd B last Hr Hu Hnu) as [Hpm Hmm];
    [lia|exact Hmag|].
  cbv zeta in Hpm, Hmm. rewrite Hlenlast in Hpm, Hmm.
  fold p S T m e in Hpm, Hmm. apply abs_bounds in Hpm, Hmm.
  destruct (sum_between 0 B last Hlast) as [HT0 HT1].
  rewrite Hlenlast in HT0, HT1. fold p T in HT0, HT1.
  assert (Hmean : 0 <= T / p <= B)
    by (apply div_bounds; [Lqa.lra|split; Lqa.lra]).
  assert (Hm0 : 0 <= m).
  { apply (rounding_nonneg u); [exact Hr|split; Lqa.lra|].
    apply Qle_shift_div_l; [Lqa.lra|]. rewrite Qmult_0_l.
    apply (rounded_sum_nonneg u); [exact Hr|split; Lqa.lra|exact Hnn]. }
  assert (Hm2 : m <= 2 * B) by Lqa.lra.
  (* the residuals *)
  set (f := fun d : Q => rnd (d - m)).
  assert (Hres : Forall (fun x => - (2 * e) <= f x - (x - m) <= 2 * e) last).
  { eapply Forall_impl; [exact Hlast|]. simpl. intros x [Hx0 Hx1].
    assert (Hd : Qabs (x - m) <= 2 * B) by (apply abs_bounds; split; Lqa.lra).
    pose proof (rounding_close u rnd (x - m) _ Hr Hu Hd) as Hc.
    unfold f, e. split; Lqa.lra. }
  assert (Hresmag : Forall (fun x => Qabs x <= 3 * B) (map f last)).
  { apply Forall_forall. intros y Hy.
    apply list_elem_of_In, in_map_iff in Hy as (x & <- & Hx).
    rewrite Forall_forall in Hres, Hlast.
    apply list_elem_of_In in Hx.
    specialize (Hres x Hx). specialize (Hlast x Hx). simpl in Hres, Hlast.
    apply abs_bounds. split; Lqa.lra. }
  pose proof (sum_map_close f (fun x => x - m) (2 * e) last Hres) as Hclose.
  rewrite (sum_map_minus m last), Hlenlast in Hclose. fold p T in Hclose.
  assert (Hnu' : inject_Z (len (map f last)) * u <= 1)
    by (rewrite len_map, Hlenlast; fold p; Lqa.lra).
  destruct (rounded_sum_error u rnd (3 * B) (map f last) Hr Hu Hnu' Hresmag)
    as [_ HR].
  rewrite len_map, Hlenlast in HR. fold p in HR.
  set (R := Rounded.sum rnd (map f last)) in *.
  apply abs_bounds in HR.
  assert (HRsum : - ((4 * (p * e) + 4 * e) * p) <= R
                  <= (4 * (p * e) + 4 * e) * p).
  { unfold e in *. split; Lqa.lra. }
  assert (HRdiv : - (4 * (p * e) + 4 * e) <= R / p <= 4 * (p * e) + 4 * e).
  { apply div_bounds; [Lqa.lra|]. split; Lqa.lra. }
  assert (HRmag : Qabs (R / p) <= 4 * (p * e) + 4 * e)
    by (apply abs_bounds; exact HRdiv).
  pose proof (rounding_close u rnd (R / p) _ Hr Hu HRmag) as Hsc.
  set (seasonal := rnd (R / p)) in *.
  assert (Hushrink : u * (4 * (p * e) + 4 * e) <= 1 * (4 * (p * e) + 4 * e))
    by (apply Qmult_le_compat_r; Lqa.lra).
  assert (Hseas : - (16 * (p * e)) <= seasonal <= 16 * (p * e))
    by (split; Lqa.lra).
  assert (Hfm : Qabs (m + seasonal) <= 3 * B)
    by (apply abs_bounds; split; Lqa.lra).
  pose proof (rounding_close u rnd (m + seasonal) _ Hr Hu Hfm) as Hfc.
  assert (Hfore : - (20 * (p * e)) <= rnd (m + seasonal) - m <= 20 * (p * e))
    by (split; Lqa.lra).
  exists (mkSeasonal m seasonal (py_max 0 (rnd (m + seasonal)))), m.
  split; [|split; [exact Hsma|split; [reflexivity|]]].
  - unfold Rounded.seasonal_decomposition.
    replace (len data <? period * 2)%Z with false
      by (symmetry; apply Z.ltb_ge; lia).
    rewrite Hsma. cbn [mbind option_bind]. rewrite len_map.
    replace (period <=? len data)%Z with true
      by (symmetry; apply Z.leb_le; lia).
    rewrite slice_from_map. fold last f R.
    rewrite rounded_div_inject by lia. fold p seasonal. reflexivity.
  - cbn [s_seasonal s_forecast].
    assert (Hgoal : 20 * p * u * B == 20 * (p * e)) by (unfold e; ring).
    rewrite Hgoal. split; apply abs_bounds.
    + split; Lqa.lra.
    + now apply py_max_0_near.
Qed.

End RoundedSeasonal.

(** ** The claims that depend on rounding *)

Section Binary64Claims.

Local Open Scope Q_scope.

Lemma magnitude_bound (l : list Q) :
  exists B, 0 <= B /\ Forall (fun e => Qabs e <= B) l.
Proof.
  induction l as [|x l (B & HB0 & HB)].
  - exists 0. split; [apply Qle_refl|constructor].
  - pose proof (Qabs_nonneg x) as Hx. exists (Qabs x + B).
    split; [Lqa.lra|]. constructor; [Lqa.lra|].
    eapply Forall_impl; [exact HB|]. simpl. intros y Hy. Lqa.lra.
Qed.

(** C4, as stated, fails on the arithmetic of the program: for the six
    monthly totals 2477.18, 2247.46, 3257.96, 3943.62, 469.3, 141.74 and
    period 3 the seasonal component is -1.5158245029548803e-13, not 0, and
    the forecast is 1518.2199999999998 where the moving average is
    1518.22. *)
Lemma seasonal_forecast_not_exact :
  Forall (fun x => 0 <= x) Rounded.six_months /\
  Forall amount Rounded.six_months /\
  (3 * 2 <= len Rounded.six_months)%Z /\
  exists r m,
    Rounded.seasonal_decomposition round64 Rounded.six_months 3 = Some r /\
    Rounded.simple_moving_average round64 Rounded.six_months 3 = Some m /\
    m == round64 (151822 # 100) /\
    s_seasonal r == round64 (- (15158245029548803 # 10 ^ 29)) /\
    s_forecast r == round64 (15182199999999998 # 10 ^ 13) /\
    ~ s_seasonal r == 0 /\ ~ s_forecast r == m.
Proof.
  split; [repeat constructor; vm_compute; discriminate|].
  split; [repeat (apply List.Forall_cons;
                [right; split; vm_compute; discriminate|]);
        apply List.Forall_nil|].
  split; [vm_compute; discriminate|].
  eexists _, _. split; [vm_compute; reflexivity|].
  split; [vm_compute; reflexivity|].
  split; [vm_compute; reflexivity|]. split; [vm_compute; reflexivity|].
  split; [vm_compute; reflexivity|].
  split; intros H; apply Qeq_bool_iff in H; vm_compute in H; discriminate.
Qed.

(** C4, amended.  For a series of amounts in [[0, B]] holding at least two
    periods ([1 <= period <= 2^40]), [seasonal_decomposition] and
    [simple_moving_average(series, period)] return without raising, the
    trend is that moving average, and the seasonal component and the
    difference between forecast and moving average are rounding residue:
    at most [20 * period * 2^-53 * B] in magnitude. *)
Theorem seasonal_forecast_near_moving_average
    (data : list Q) (period : Z) (B : Q)
    (Hperiod : (0 < period <= 2 ^ 40)%Z)
    (Hlen : (period * 2 <= len data)%Z)
    (Hamounts : Forall amount data)
    (Hrange : Forall (fun x => 0 <= x <= B) data) :
  exists r m,
    Rounded.seasonal_decomposition round64 data period = Some r /\
    Rounded.simple_moving_average round64 data period = Some m /\
    s_trend r = m /\
    Qabs (s_seasonal r) <= 20 * inject_Z period * unit_roundoff * B /\
    Qabs (s_forecast r - m) <= 20 * inject_Z period * unit_roundoff * B.
Proof.
  apply seasonal_near;
    [exact round64_rounds|discriminate| |lia|exact Hlen|exact Hrange].
  assert (Hp : inject_Z period <= inject_Z (2 ^ 40))
    by (rewrite <- Zle_Qle; lia).
  rewrite unit_roundoff_value.
  change (inject_Z (2 ^ 40)) with 1099511627776 in Hp. Lqa.lra.
Qed.

Lemma seasonal_forecast_near_moving_average_witness :
  (0 < 3 <= 2 ^ 40)%Z /\
  (3 * 2 <= len Rounded.six_months)%Z /\
  Forall amount Rounded.six_months /\
  Forall (fun x => 0 <= x <= 4000) Rounded.six_months /\
  exists r m,
    Rounded.seasonal_decomposition round64 Rounded.six_months 3 = Some r /\
    Rounded.simple_moving_average round64 Rounded.six_months 3 = Some m /\
    s_trend r = m /\
    Qabs (s_seasonal r) <= 20 * inject_Z 3 * unit_roundoff * 4000 /\
    Qabs (s_forecast r - m) <= 20 * inject_Z 3 * unit_roundoff * 4000.
Proof.
  assert (Hperiod : (0 < 3 <= 2 ^ 40)%Z) by (split; vm_compute; congruence).
  assert (Hlen : (3 * 2 <= len Rounded.six_months)%Z)
    by (vm_compute; discriminate).
  assert (Hamounts : Forall amount Rounded.six_months)
    by (repeat (apply List.Forall_cons;
                [right; split; vm_compute; discriminate|]);
        apply List.Forall_nil).
  assert (Hrange : Forall (fun x => 0 <= x <= 4000) Rounded.six_months)
    by (repeat constructor; vm_compute; discriminate).
  split; [exact Hperiod|]. split; [exact Hlen|]. split; [exact Hamounts|].
  split; [exact Hrange|].
  exact (seasonal_forecast_near_moving_average
           Rounded.six_months 3 4000 Hperiod Hlen Hamounts Hrange).
Defined.

(** Without rounding the residue is 0: in exact arithmetic the seasonal
    component vanishes and the forecast is the moving average. *)
Remark seasonal_path_in_exact_arithmetic
    (data : list Q) (period : Z) :
  (0 < period)%Z -> (period * 2 <= len data)%Z ->
  Forall (fun x => 0 <= x) data ->
  exists r m,
    Rounded.seasonal_decomposition (fun x => x) data period = Some r /\
    Rounded.simple_moving_average (fun x => x) data period = Some m /\
    s_trend r = m /\ s_seasonal r == 0 /\ s_forecast r == m.
Proof.
  intros Hperiod Hlen Hnonneg.
  destruct (magnitude_bound data) as (B & HB0 & HB).
  assert (Hrange : Forall (fun x => 0 <= x <= B) data).
  { rewrite Forall_forall in *. intros x Hx. split; [now apply Hnonneg|].
    eapply Qle_trans; [apply Qle_Qabs|now apply HB]. }
  destruct (seasonal_near 0 (fun x => x) data period B)
    as (r & m & Hr & Hm & Ht & Hs & Hf);
    [exact exact_rounds|apply Qle_refl| |lia|exact Hlen|exact Hrange|].
  { rewrite Qmult_0_r, Qmult_0_r. discriminate. }
  exists r, m. split; [exact Hr|]. split; [exact Hm|]. split; [exact Ht|].
  assert (E : 20 * inject_Z period * 0 * B == 0) by ring.
  rewrite E in Hs, Hf. apply abs_bounds in Hs, Hf.
  split; Lqa.lra.
Qed.




(** Without rounding the ensemble lies between the least and the greatest
    estimate. *)
Remark ensemble_in_exact_arithmetic (data : list Q) :
  (3 <= len data)%Z ->
  exists forecasts v vs value,
    Rounded.compute_forecasts (fun x => x) data "auto" = Some forecasts /\
    dict_values forecasts = v :: vs /\
    Rounded.forecast_next_month (fun x => x) data "auto"
      = Some (value, "ensemble"%string) /\
    list_min v vs <= value <= list_max v vs.
Proof.
  intros Hlen.
  destruct (ensemble_near 0 (fun x => x) data)
    as (fs & v & vs & value & Hfs & Hv & Hn & Hval & Hnear);
    [exact exact_rounds|apply Qle_refl|discriminate|exact Hlen|].
  exists fs, v, vs, value.
  split; [exact Hfs|]. split; [exact Hv|]. split; [exact Hval|].
  destruct (magnitude_bound (v :: vs)) as (B & _ & HB).
  destruct (Hnear B HB) as [Hlo Hhi]. split; Lqa.lra.
Qed.

(** *** The risk score *)

Lemma rounded_utilization_zero_spend
    (current_day days_remaining : Z) (spent budget_amount : Q) :
  spent == 0 ->
  Rounded.projected_utilization round64 current_day days_remaining spent
                                budget_amount = 0.
Proof.
  intros Hs. unfold Rounded.projected_utilization, Rounded.projected_total.
  assert (Hd : (if (0 <? current_day)%Z
                then round64 (spent / inject_Z current_day) else 0) = 0).
  { destruct (0 <? current_day)%Z; [|reflexivity].
    apply round64_0. rewrite Hs. unfold Qdiv. ring. }
  rewrite Hd.
  rewrite (round64_0 (0 * inject_Z days_remaining)) by ring.
  rewrite (round64_0 (spent + 0)) by (rewrite Hs; ring).
  rewrite (round64_0 (0 / budget_amount)) by (unfold Qdiv; ring).
  apply round64_0. ring.
Qed.

Lemma rounded_score_budget_scored
    (current_day days_remaining : Z)
    (acc : list Z * list HighRisk) (budget : BudgetLine) :
  0 < b_amount budget ->
  (Rounded.score_budget round64 current_day days_remaining acc budget).1
  = acc.1 ++ [risk_score (Rounded.projected_utilization round64 current_day
                            days_remaining
                            (round64 (spent_to_date budget))
                            (round64 (b_amount budget)))].
Proof.
  intros Hb. unfold Rounded.score_budget.
  destruct (Qeq_bool (round64 (b_amount budget)) 0) eqn:E; [|reflexivity].
  apply Qeq_bool_iff in E. apply round64_pos in Hb. rewrite E in Hb.
  now apply Qlt_irrefl in Hb.
Qed.

Lemma rounded_score_budget_skipped
    (current_day days_remaining : Z)
    (acc : list Z * list HighRisk) (budget : BudgetLine) :
  b_amount budget == 0 ->
  Rounded.score_budget round64 current_day days_remaining acc budget = acc.
Proof.
  intros Hb. unfold Rounded.score_budget. now rewrite (round64_0 _ Hb).
Qed.

(** C5. On any day of a month, for a budget line with a positive amount
    the loop of [predict_budget_risk] appends exactly one score, the step
    function [risk_score] of the projected utilization percentage the
    program computes (in binary64, from the float values of spending and
    budget): 100 above 120, 80 above 100, 60 above 90, 40 above 80, else
    20.  The function is monotonically non-decreasing, a line without
    spending scores 20, and a line whose amount is 0 leaves both
    accumulators as they were. *)
Theorem risk_score_step_function
    (current_day days_remaining : Z) (acc : list Z * list HighRisk)
    (budget : BudgetLine)
    (Hday : (1 <= current_day <= 31)%Z)
    (Hremaining : (0 <= days_remaining <= 30)%Z)
    (Hamounts : amount (b_amount budget) /\ amount (spent_to_date budget))
    (Hbudget : 0 < b_amount budget) :
  (Rounded.score_budget round64 current_day days_remaining acc budget).1
    = acc.1 ++ [risk_score
                  (Rounded.projected_utilization round64 current_day
                     days_remaining
                     (round64 (spent_to_date budget))
                     (round64 (b_amount budget)))] /\
  (forall u : Q,
     (120 < u -> risk_score u = 100%Z) /\
     (100 < u <= 120 -> risk_score u = 80%Z) /\
     (90 < u <= 100 -> risk_score u = 60%Z) /\
     (80 < u <= 90 -> risk_score u = 40%Z) /\
     (u <= 80 -> risk_score u = 20%Z)) /\
  (forall u1 u2 : Q, u1 <= u2 -> (risk_score u1 <= risk_score u2)%Z) /\
  (spent_to_date budget == 0 ->
   (Rounded.score_budget round64 current_day days_remaining acc budget).1
   = acc.1 ++ [20%Z]) /\
  (forall skipped : BudgetLine,
     b_amount skipped == 0 ->
     Rounded.score_budget round64 current_day days_remaining acc skipped
     = acc).
Proof.
  split; [now apply rounded_score_budget_scored|].
  split; [exact risk_score_values|].
  split; [exact risk_score_monotone|].
  split; [|intros skipped; apply rounded_score_budget_skipped].
  intros Hs. rewrite rounded_score_budget_scored by exact Hbudget.
  rewrite rounded_utilization_zero_spend; [reflexivity|].
  now rewrite (round64_0 _ Hs).
Qed.

Lemma risk_score_step_function_witness :
  let budget := mkBudgetLine "Food" 1000 (Some 100) in
  let acc : list Z * list HighRisk := ([], []) in
  (1 <= 3 <= 31)%Z /\ (0 <= 27 <= 30)%Z /\
  (amount (b_amount budget) /\ amount (spent_to_date budget)) /\
  0 < b_amount budget /\
  (Rounded.score_budget round64 3 27 acc budget).1 = [80%Z] /\
  (forall u1 u2 : Q, u1 <= u2 -> (risk_score u1 <= risk_score u2)%Z) /\
  (forall skipped : BudgetLine,
     b_amount skipped == 0 ->
     Rounded.score_budget round64 3 27 acc skipped = acc).
Proof.
  intros budget acc.
  assert (Hday : (1 <= 3 <= 31)%Z) by (split; vm_compute; discriminate).
  assert (Hremaining : (0 <= 27 <= 30)%Z)
    by (split; vm_compute; discriminate).
  assert (Hamounts : amount (b_amount budget)
                     /\ amount (spent_to_date budget))
    by (split; right; split; vm_compute; discriminate).
  assert (Hbudget : 0 < b_amount budget) by reflexivity.
  destruct (risk_score_step_function 3 27 acc budget Hday Hremaining
              Hamounts Hbudget)
    as (H1 & _ & H3 & _ & H5).
  split; [exact Hday|]. split; [exact Hremaining|]. split; [exact Hamounts|].
  split; [exact Hbudget|]. split; [|split; [exact H3|exact H5]].
  rewrite H1. vm_compute. reflexivity.
Defined.

(** Rounding can move a line across a bucket edge: with budget 1000 and
    100 spent by day 3 of 30 the exact projection is 1000, that is 100
    percent (score 60); the computed one is 1000.0000000000001, that is
    100.00000000000003 percent (score 80). *)
Example projection_rounds_across_an_edge :
  let budget := mkBudgetLine "Food" 1000 (Some 100) in
  Forecasting.projected_utilization 3 27 100 1000 == 100 /\
  (Forecasting.score_budget 3 27 ([], []) budget).1 = [60%Z] /\
  Rounded.projected_total round64 3 27 100
    == round64 (10000000000000001 # 10 ^ 13) /\
  Rounded.projected_utilization round64 3 27 100 1000
    == round64 (10000000000000003 # 10 ^ 14) /\
  (Rounded.score_budget round64 3 27 ([], []) budget).1 = [80%Z].
Proof. repeat split; vm_compute; reflexivity. Qed.

End Binary64Claims.

(** ** The conversation context *)

Import ContextManager.

Section ContextFacts.

Lemma messages_add_message (self : ConversationContext) (now : Z)
    (role content : string) (intent : option string)
    (entities : option (gmap string pyval)) :
  messages (add_message self now role content intent entities)
  = deque_append (max_history self) (messages self)
      (mkMessage role content now intent (default ∅ entities)).
Proof. unfold add_message. now destruct (_ && _). Qed.

Lemma max_history_add_message (self : ConversationContext) (now : Z)
    (role content : string) (intent : option string)
    (entities : option (gmap string pyval)) :
  max_history (add_message self now role content intent entities)
  = max_history self.
Proof. unfold add_message. now destruct (_ && _). Qed.

Lemma length_tail_pred {A} (l : list A) : length (tail l) = pred (length l).
Proof. now destruct l. Qed.

(** A bounded deque within its bound stays within it. *)
Lemma deque_append_bounded {A} (maxlen : nat) (d : list A) (x : A) :
  (length d <= maxlen)%nat -> (length (deque_append maxlen d x) <= maxlen)%nat.
Proof.
  intros Hd. unfold deque_append.
  destruct (maxlen <? length (d ++ [x]))%nat eqn:E.
  - rewrite length_tail_pred, length_app. simpl. lia.
  - apply Nat.ltb_ge in E. exact E.
Qed.

Lemma deque_append_full {A} (maxlen : nat) (d : list A) (x : A) :
  length d = maxlen -> deque_append maxlen d x = tail (d ++ [x]).
Proof.
  intros Hd. unfold deque_append.
  replace (maxlen <? length (d ++ [x]))%nat with true; [reflexivity|].
  symmetry. apply Nat.ltb_lt. rewrite length_app. simpl. lia.
Qed.

Lemma deque_append_room {A} (maxlen : nat) (d : list A) (x : A) :
  (length d < maxlen)%nat -> deque_append maxlen d x = d ++ [x].
Proof.
  intros Hd. unfold deque_append.
  replace (maxlen <? length (d ++ [x]))%nat with false; [reflexivity|].
  symmetry. apply Nat.ltb_ge. rewrite length_app. simpl. lia.
Qed.

Lemma add_turn_preserves_bound (self : ConversationContext) (t : Turn) :
  log_within_bound self -> log_within_bound (add_turn self t).
Proof.
  unfold log_within_bound, add_turn. intros H.
  rewrite messages_add_message, max_history_add_message.
  now apply deque_append_bounded.
Qed.

Lemma add_turns_preserve_bound (turns : list Turn) :
  forall self : ConversationContext,
    log_within_bound self ->
    log_within_bound (add_turns self turns) /\
    max_history (add_turns self turns) = max_history self.
Proof.
  induction turns as [|t turns IH]; intros self H; simpl.
  - now split.
  - destruct (IH (add_turn self t)) as [Hb Hm].
    + now apply add_turn_preserves_bound.
    + split; [exact Hb|]. rewrite Hm. apply max_history_add_message.
Qed.

Lemma is_follow_up_no_prior_intent (self : ConversationContext)
    (candidate : string) :
  last_intent self = None -> is_follow_up self candidate = false.
Proof. intros H. unfold is_follow_up. now rewrite H. Qed.

(** C6. After any run of [add_message] calls on a context created with the
    default capacity the turn log holds at most 10 messages; a call made on
    a full log drops the oldest message and appends the new one, a call
    made below capacity only appends; and [is_follow_up] is false for every
    candidate intent when [last_intent] is [None]. *)
Theorem turn_log_never_exceeds_capacity
    (uid start : Z) (turns : list Turn) (t : Turn) (candidate : string) :
  let self := add_turns (init uid 10 start) turns in
  (length (messages self) <= 10)%nat /\
  (length (messages self) = 10%nat ->
   messages (add_turn self t) = tail (messages self) ++ [turn_message t]) /\
  ((length (messages self) < 10)%nat ->
   messages (add_turn self t) = messages self ++ [turn_message t]) /\
  (forall any : ConversationContext,
     last_intent any = None -> is_follow_up any candidate = false).
Proof.
  intros self.
  destruct (add_turns_preserve_bound turns (init uid 10 start)) as [Hb Hm].
  { unfold log_within_bound. simpl. lia. }
  fold self in Hb, Hm. unfold log_within_bound in Hb.
  change (max_history (init uid 10 start)) with 10%nat in Hm.
  rewrite Hm in Hb.
  split; [exact Hb|]. split; [|split].
  - intros Hfull. unfold add_turn. rewrite messages_add_message, Hm.
    rewrite deque_append_full by exact Hfull.
    destruct (messages self); [discriminate|reflexivity].
  - intros Hroom. unfold add_turn. rewrite messages_add_message, Hm.
    now rewrite deque_append_room.
  - intros any. apply is_follow_up_no_prior_intent.
Qed.

(** C9. [clear_context] empties [context_data], sets [last_intent] to
    [None] and empties [last_entities]; the turn log (and the capacity, the
    user and the session start) stay as they were. *)
Theorem clear_context_keeps_turn_log (self : ConversationContext) :
  context_data (clear_context self) = ∅ /\
  last_intent (clear_context self) = None /\
  last_entities (clear_context self) = ∅ /\
  messages (clear_context self) = messages self /\
  max_history (clear_context self) = max_history self /\
  user_id (clear_context self) = user_id self /\
  session_start (clear_context self) = session_start self.
Proof. repeat split. Qed.

(** The bound also holds when the calls are interleaved with
    [set_context] and [clear_context]. *)
Lemma reachable_within_capacity (uid start : Z) (self : ConversationContext) :
  reachable uid start self ->
  max_history self = 10%nat /\ (length (messages self) <= 10)%nat.
Proof.
  induction 1 as [|self t _ [Hm Hb]|self key value _ IH|self _ IH].
  - split; [reflexivity|simpl; lia].
  - unfold add_turn. rewrite max_history_add_message, messages_add_message.
    split; [exact Hm|]. rewrite Hm. apply deque_append_bounded. lia.
  - exact IH.
  - exact IH.
Qed.

(** *** Follow-up detection *)

Lemma str_in_In (s : string) (xs : list string) :
  str_in s xs = true <-> In s xs.
Proof.
  unfold str_in. rewrite existsb_exists. split.
  - intros (x & Hx & E). apply String.eqb_eq in E. now subst.
  - intros H. exists s. split; [exact H|apply String.eqb_refl].
Qed.

(** The only intents listed under their own key are [add_transaction] and
    [nlp_query]. *)
Lemma own_entry_intents (li : string) :
  In li (default [] (follow_up_patterns !! li)) <->
  li = "add_transaction"%string \/ li = "nlp_query"%string.
Proof.
  unfold follow_up_patterns. cbn [list_to_map foldr uncurry fst snd].
  rewrite !lookup_insert, lookup_empty.
  repeat case_decide; subst; cbn; split; intros Hin; try tauto;
    repeat (destruct Hin as [Hin|Hin]; try congruence; try tauto).
Qed.

(** C10. The [is_follow_up] flag returned by [detect_intent_with_context]
    is the same for every user input: it is true exactly when [last_intent]
    is set and occurs in its own entry of [follow_up_patterns] (the intent
    tested is the previous intent itself), that is exactly when the
    previous intent is [add_transaction] or [nlp_query]. *)
Theorem follow_up_flag_ignores_input
    (user_input : string) (context : ConversationContext) :
  (forall other_input : string,
     ci_is_follow_up (detect_intent_with_context other_input context)
     = ci_is_follow_up (detect_intent_with_context user_input context)) /\
  (ci_is_follow_up (detect_intent_with_context user_input context) = true <->
   exists li, last_intent context = Some li /\
              In li (default [] (follow_up_patterns !! li))) /\
  (ci_is_follow_up (detect_intent_with_context user_input context) = true <->
   last_intent context = Some "add_transaction"%string \/
   last_intent context = Some "nlp_query"%string).
Proof.
  assert (Hflag :
    ci_is_follow_up (detect_intent_with_context user_input context) = true <->
    exists li, last_intent context = Some li /\
               In li (default [] (follow_up_patterns !! li))).
  { unfold detect_intent_with_context, is_follow_up. cbn [ci_is_follow_up].
    destruct (last_intent context) as [li|] eqn:Hli.
    - destruct (truthy (Some li)) eqn:Ht; cbn.
      + rewrite str_in_In. split.
        * intros H. exists li. now split.
        * intros (li' & E & H). now injection E as <-.
      + split; [discriminate|]. intros (li' & E & H). injection E as <-.
        destruct li; [|discriminate]. exact (False_ind _ H).
    - cbn. split; [discriminate|]. intros (li' & E & _). discriminate. }
  split; [reflexivity|]. split; [exact Hflag|].
  rewrite Hflag. split.
  - intros (li & E & H). apply own_entry_intents in H.
    destruct H as [-> | ->]; [now left|now right].
  - intros [E|E]; eexists; (split; [exact E|]); apply own_entry_intents; tauto.
Qed.

End ContextFacts.

(** ** The safety gate of the NL-to-SQL path *)

Import NlpToSql.

Section GateFacts.

Local Open Scope string_scope.

Lemma upper_app (a b : string) : upper (a ++ b) = upper a ++ upper b.
Proof. induction a as [|c a IH]; simpl; [reflexivity|now rewrite IH]. Qed.

Lemma starts_with_app (w rest : string) : starts_with w (w ++ rest) = true.
Proof.
  induction w as [|c w IH]; simpl; [reflexivity|].
  now rewrite Ascii.eqb_refl, IH.
Qed.

Lemma starts_with_split (w hay : string) :
  starts_with w hay = true -> exists rest, hay = w ++ rest.
Proof.
  revert hay. induction w as [|c w IH]; intros hay H; simpl in *.
  - now exists hay.
  - destruct hay as [|c' hay]; [discriminate|].
    apply andb_true_iff in H as [Hc Hw]. apply Ascii.eqb_eq in Hc. subst c'.
    destruct (IH hay Hw) as [rest ->]. now exists rest.
Qed.

(** [needle in hay] holds exactly when [hay] splits around [needle]. *)
Lemma contains_spec (w hay : string) :
  contains w hay = true <-> exists a b, hay = a ++ w ++ b.
Proof.
  split.
  - induction hay as [|c hay IH]; simpl; intros H.
    + rewrite orb_false_r in H. apply starts_with_split in H as [rest E].
      exists EmptyString, rest. exact E.
    + apply orb_true_iff in H as [H|H].
      * apply starts_with_split in H as [rest E]. exists EmptyString, rest. exact E.
      * destruct (IH H) as (a & b & ->). now exists (String c a), b.
  - intros (a & b & ->). induction a as [|c a IH].
    + change (EmptyString ++ w ++ b) with (w ++ b).
      pose proof (starts_with_app w b) as Hs.
      destruct (w ++ b); simpl; now rewrite Hs.
    + simpl. rewrite IH. apply orb_true_r.
Qed.

(** A keyword occurring in any mixture of cases is found by the test on
    [sql.upper()]. *)
Lemma occurs_found (keyword text : string) :
  occurs_ignoring_case keyword text ->
  contains (upper keyword) (upper text) = true.
Proof.
  intros (a & w & b & -> & Hw). apply contains_spec.
  exists (upper a), (upper b). now rewrite !upper_app, Hw.
Qed.

Lemma dict_get_set_same {V} (d : dict V) (k : string) (v : V) :
  dict_get (dict_set d k v) k = Some v.
Proof.
  induction d as [|[k' v'] d IH]; simpl.
  - now rewrite String.eqb_refl.
  - destruct (String.eqb k k') eqn:E; simpl; rewrite E; [reflexivity|exact IH].
Qed.

Lemma dict_get_set_other {V} (d : dict V) (k k' : string) (v : V) :
  k <> k' -> dict_get (dict_set d k v) k' = dict_get d k'.
Proof.
  intros Hne. induction d as [|[k0 v0] d IH]; simpl.
  - destruct (String.eqb k' k) eqn:E; [|reflexivity].
    apply String.eqb_eq in E. congruence.
  - destruct (String.eqb k k0) eqn:E; simpl.
    + apply String.eqb_eq in E. subst k0.
      destruct (String.eqb k' k) eqn:E'; [|reflexivity].
      apply String.eqb_eq in E'. congruence.
    + now rewrite IH.
Qed.

(** The plan of a decoded object whose [sql] entry is a string. *)
Lemma generate_sql_query_decoded (result : dict json) (sql : string) :
  dict_get result "sql" = Some (JStr sql) ->
  generate_sql_query (Decoded (JObj result))
  = if existsb (fun keyword => contains keyword (upper sql)) dangerous_keywords
    then dict_set (dict_set result "safe" (JBool false))
                  "explanation" (JStr unsafe_explanation)
    else result.
Proof. intros Hsql. unfold generate_sql_query. now rewrite Hsql. Qed.

Lemma generate_sql_query_no_sql (result : dict json) :
  dict_get result "sql" = None ->
  generate_sql_query (Decoded (JObj result)) = result.
Proof. intros Hsql. unfold generate_sql_query. now rewrite Hsql. Qed.

(** The plan of a query with a mutating keyword is marked unsafe. *)
Lemma generate_sql_query_flags_keyword
    (result : dict json) (sql keyword : string) :
  dict_get result "sql" = Some (JStr sql) ->
  In (upper keyword) dangerous_keywords ->
  occurs_ignoring_case keyword sql ->
  generate_sql_query (Decoded (JObj result))
  = dict_set (dict_set result "safe" (JBool false))
             "explanation" (JStr unsafe_explanation).
Proof.
  intros Hsql Hkw Hocc. rewrite (generate_sql_query_decoded _ _ Hsql).
  assert (existsb (fun k => contains k (upper sql)) dangerous_keywords = true)
    as ->; [|reflexivity].
  apply existsb_exists. exists (upper keyword).
  split; [exact Hkw|now apply occurs_found].
Qed.

(** A plan without a truthy [safe] entry is refused with the plan's own
    explanation, and nothing reaches the database. *)
Lemma execute_refuses_unsafe (db : Database) (reply : llm_reply) :
  py_truthy (default (JBool false)
               (dict_get (generate_sql_query reply) "safe")) = false ->
  execute_nlp_query db reply
  = (mkResponse false
       (Some (default (JStr "Query could not be generated safely")
                (dict_get (generate_sql_query reply) "explanation")))
       JNull None None None,
     []).
Proof. intros H. unfold execute_nlp_query. now rewrite H. Qed.

(** The replies that never yield a plan are refused. *)
Lemma failed_generation_is_unsafe (msg : string) :
  dict_get (generation_error msg) "safe" = Some (JBool false).
Proof. reflexivity. Qed.

(** Whatever reaches the database is the [sql] entry of a decoded plan whose
    [safe] entry is truthy and in which no dangerous keyword occurs. *)
Lemma executed_statement_is_vetted
    (db : Database) (reply : llm_reply) (statement : string) :
  In statement (execute_nlp_query db reply).2 ->
  exists result,
    reply = Decoded (JObj result) /\
    dict_get result "sql" = Some (JStr statement) /\
    py_truthy (default (JBool false) (dict_get result "safe")) = true /\
    forall keyword,
      In (upper keyword) dangerous_keywords ->
      ~ occurs_ignoring_case keyword statement.
Proof.
  unfold execute_nlp_query.
  destruct (py_truthy _) eqn:Hsafe; cbn [negb]; [|intros []].
  destruct reply as [status|msg|result]; try discriminate Hsafe.
  destruct result as [| | | | |items|result]; try discriminate Hsafe.
  destruct (dict_get result "sql") as [v|] eqn:Hsql.
  - destruct v as [| | | |sql| |];
      try (unfold generate_sql_query in Hsafe; rewrite Hsql in Hsafe;
           discriminate Hsafe).
    rewrite (generate_sql_query_decoded _ _ Hsql) in *.
    destruct (existsb (fun k => contains k (upper sql)) dangerous_keywords)
      eqn:Hdanger.
    + rewrite dict_get_set_other, dict_get_set_same in Hsafe by discriminate.
      discriminate Hsafe.
    + rewrite Hsql. change (default JNull (Some (JStr sql))) with (JStr sql).
      cbv beta iota. intros Hin. assert (statement = sql) as ->.
      { destruct (run_query db sql _); cbn in Hin; intuition congruence. }
      exists result. repeat split; try assumption.
      intros keyword Hkw Hocc. apply occurs_found in Hocc.
      assert (existsb (fun k => contains k (upper sql)) dangerous_keywords
              = true) as E by (apply existsb_exists; eauto).
      congruence.
  - rewrite (generate_sql_query_no_sql _ Hsql) in *. rewrite Hsql. intros [].
Qed.

(** What the safety test keeps out.  If the [sql] entry of the decoded plan
    contains one of insert, update, delete, drop, alter, create, truncate,
    exec in any mixture of cases, [execute_nlp_query] sends nothing to the
    database and returns [success = False] with the explanation "Query
    contains potentially dangerous operations" and no query.  Every reply
    whose plan has a falsy [safe] entry, or none, is returned as a failure
    carrying the plan's own explanation, with nothing executed; and a
    statement that is executed comes from a plan with a truthy [safe]
    entry and contains none of the keywords. *)
Theorem mutating_query_never_executed
    (db : Database) (result : dict json) (sql keyword : string)
    (Hsql : dict_get result "sql" = Some (JStr sql))
    (Hkeyword : In keyword ["insert"; "update"; "delete"; "drop"; "alter";
                            "create"; "truncate"; "exec"])
    (Hoccurs : occurs_ignoring_case keyword sql) :
  execute_nlp_query db (Decoded (JObj result))
    = (mkResponse false (Some (JStr unsafe_explanation)) JNull None None None,
       []) /\
  (forall reply : llm_reply,
     py_truthy (default (JBool false)
                  (dict_get (generate_sql_query reply) "safe")) = false ->
     execute_nlp_query db reply
     = (mkResponse false
          (Some (default (JStr "Query could not be generated safely")
                   (dict_get (generate_sql_query reply) "explanation")))
          JNull None None None,
        [])) /\
  (forall (reply : llm_reply) (statement : string),
     In statement (execute_nlp_query db reply).2 ->
     exists plan,
       reply = Decoded (JObj plan) /\
       dict_get plan "sql" = Some (JStr statement) /\
       py_truthy (default (JBool false) (dict_get plan "safe")) = true /\
       forall kw,
         In kw ["insert"; "update"; "delete"; "drop"; "alter";
                "create"; "truncate"; "exec"] ->
         ~ occurs_ignoring_case kw statement).
Proof.
  assert (Hupper : forall kw,
            In kw ["insert"; "update"; "delete"; "drop"; "alter";
                   "create"; "truncate"; "exec"] ->
            In (upper kw) dangerous_keywords).
  { intros kw Hin. apply (in_map upper) in Hin. exact Hin. }
  split; [|split].
  - rewrite execute_refuses_unsafe;
      rewrite (generate_sql_query_flags_keyword result sql keyword)
        by auto.
    + now rewrite dict_get_set_same.
    + now rewrite dict_get_set_other, dict_get_set_same by discriminate.
  - intros reply. apply execute_refuses_unsafe.
  - intros reply statement Hin.
    destruct (executed_statement_is_vetted db reply statement Hin)
      as (plan & E & Hs & Ht & Hk).
    exists plan. repeat split; try assumption.
    intros kw Hkw. apply Hk. now apply Hupper.
Qed.

Lemma mutating_query_never_executed_witness :
  let db := mkDatabase (fun _ _ => inr []) (fun _ => "TypeError") in
  let plan := [("sql", JStr "Drop Table transactions"); ("safe", JBool true)] in
  dict_get plan "sql" = Some (JStr "Drop Table transactions") /\
  In "drop" ["insert"; "update"; "delete"; "drop"; "alter";
             "create"; "truncate"; "exec"] /\
  occurs_ignoring_case "drop" "Drop Table transactions" /\
  execute_nlp_query db (Decoded (JObj plan))
    = (mkResponse false (Some (JStr unsafe_explanation)) JNull None None None,
       []).
Proof.
  intros db plan.
  assert (Hocc : occurs_ignoring_case "drop" "Drop Table transactions")
    by (exists EmptyString, "Drop", " Table transactions"; split; reflexivity).
  assert (Hin : In "drop" ["insert"; "update"; "delete"; "drop"; "alter";
                           "create"; "truncate"; "exec"])
    by (simpl; tauto).
  split; [reflexivity|]. split; [exact Hin|]. split; [exact Hocc|].
  exact (proj1 (mutating_query_never_executed db plan
                  "Drop Table transactions" "drop" eq_refl Hin Hocc)).
Defined.

(** C2 fails on the code for a plan whose [safe] entry is not the boolean
    true but is truthy: the test is [not query_result.get("safe", False)],
    so a reply carrying ["safe": "false"], the verdict written as a string,
    passes it, and its statement is sent to the database and reported as a
    success, whatever the database. *)
Theorem string_verdict_is_executed (db : Database) :
  let plan := [("sql", JStr "SELECT * FROM transactions");
               ("explanation", JStr "not safe to run");
               ("safe", JStr "false")] in
  dict_get plan "safe" = Some (JStr "false") /\
  generate_sql_query (Decoded (JObj plan)) = plan /\
  (execute_nlp_query db (Decoded (JObj plan))).2
    = ["SELECT * FROM transactions"] /\
  query (execute_nlp_query db (Decoded (JObj plan))).1
    = JStr "SELECT * FROM transactions".
Proof.
  intros plan. split; [reflexivity|]. split; [reflexivity|].
  unfold execute_nlp_query.
  change (generate_sql_query (Decoded (JObj plan))) with plan.
  cbn -[plan]. unfold plan at 1. cbn.
  destruct (run_query db _ _) as [msg|found]; split; reflexivity.
Qed.

End GateFacts.

(** ** Worked examples *)

Section Examples.

Local Open Scope Q_scope.

Example slice_last_two : slice_from (-2) [1; 2; 3]%Z = [2; 3]%Z.
Proof. reflexivity. Qed.

Example slice_past_the_start : slice_from (-5) [1; 2; 3]%Z = [1; 2; 3]%Z.
Proof. reflexivity. Qed.

(** A window of 0 divides by zero on every series. *)
Example sma_window_zero_raises (data : list Q) :
  simple_moving_average data 0 = None.
Proof.
  unfold simple_moving_average.
  replace (len data <? 0)%Z with false
    by (symmetry; apply Z.ltb_ge; apply len_nonneg).
  now apply py_div_zero.
Qed.

Example seasonal_period_zero_raises (data : list Q) :
  seasonal_decomposition data 0 = None.
Proof.
  unfold seasonal_decomposition.
  replace (len data <? 0 * 2)%Z with false
    by (symmetry; apply Z.ltb_ge; apply len_nonneg).
  now rewrite sma_window_zero_raises.
Qed.

Example smoothing_single_point (x alpha : Q) :
  exponential_smoothing [x] alpha = x.
Proof. reflexivity. Qed.

Example short_series_average :
  exists r, forecast_next_month [100; 200] "auto" = Some r /\
            forecast r == 150 /\ method r = "average"%string /\
            confidence r = "low"%string.
Proof. eexists. repeat split. Qed.

(** Section 8 of the specification: budget 1000, 900 spent by day 20 of a
    30-day month. *)
Example risk_scenario :
  projected_total 20 10 900 == 1350 /\
  projected_utilization 20 10 900 1000 == 135 /\
  risk_score (projected_utilization 20 10 900 1000) = 100%Z /\
  r_risk_level
    (predict_budget_risk 20 30 [mkBudgetLine "Food" 1000 (Some 900)])
  = "critical"%string.
Proof. repeat split. Qed.

Example zero_budget_line_is_skipped :
  predict_budget_risk 20 30 [mkBudgetLine "Food" 0 (Some 900)]
  = mkRiskReport 0 "low" (Some ([], 1%Z, 10%Z)).
Proof. reflexivity. Qed.

Example deque_drops_oldest :
  deque_append 2 ["a"; "b"]%string "c"%string = ["b"; "c"]%string.
Proof. reflexivity. Qed.

Example follow_up_after_add_transaction :
  let context :=
    add_message (init 1 10 0) 5 "user" "add 500 for food"
                (Some "add_transaction"%string) None in
  ci_is_follow_up (detect_intent_with_context "what is my budget?" context)
  = true /\
  is_follow_up context "get_summary" = true /\
  is_follow_up context "check_budget" = false.
Proof. repeat split. Qed.

Example no_follow_up_after_check_budget :
  let context :=
    add_message (init 1 10 0) 5 "user" "budget status"
                (Some "check_budget"%string) None in
  ci_is_follow_up (detect_intent_with_context "predict my budget" context)
  = false /\
  is_follow_up context "predict_budget" = true.
Proof. repeat split. Qed.

Example http_failure_is_refused (db : Database) :
  execute_nlp_query db (HttpStatus 500)
  = (mkResponse false (Some (JStr "API error: 500")) JNull None None None, []).
Proof. reflexivity. Qed.

Example safe_select_is_executed :
  let db := mkDatabase (fun _ _ => inr []) (fun _ => "TypeError"%string) in
  let plan := [("sql", JStr "SELECT amount FROM transactions");
               ("safe", JBool true)]%string in
  (execute_nlp_query db (Decoded (JObj plan))).2
  = ["SELECT amount FROM transactions"%string].
Proof. reflexivity. Qed.

End Examples.

(** * Further properties of the code *)

(** ** The estimators *)

Import Insights.

Section EstimatorFacts.

Local Open Scope Q_scope.

(** X3. On a series of one point every estimator returns that point
    (windows and periods of at least 1), and the aggregator returns it under
    method [average] with confidence [low], whatever the mode. *)
Theorem single_point_series (x alpha : Q) (window period periods_ahead : Z)
    (mode : string)
    (Hwindow : (0 < window)%Z) (Hperiod : (0 < period)%Z) :
  (exists m, simple_moving_average [x] window = Some m /\ m == x) /\
  exponential_smoothing [x] alpha = x /\
  linear_trend_forecast [x] periods_ahead = x /\
  (exists r, seasonal_decomposition [x] period = Some r /\
             s_forecast r == x /\ s_trend r == x /\ s_seasonal r = 0) /\
  (exists r, forecast_next_month [x] mode = Some r /\
             forecast r == x /\ method r = "average"%string /\
             confidence r = "low"%string).
Proof.
  assert (Hone : sum [x] / inject_Z 1 == x)
    by (rewrite sum_cons, sum_nil; field).
  assert (Hsma : forall w, (0 < w)%Z ->
            exists m, simple_moving_average [x] w = Some m /\ m == x).
  { intros w Hw. unfold simple_moving_average.
    change (len [x]) with 1%Z.
    destruct (1 <? w)%Z eqn:E.
    - eexists. split; [reflexivity|exact Hone].
    - apply Z.ltb_ge in E. assert (w = 1%Z) as -> by lia.
      eexists. split; [reflexivity|exact Hone]. }
  split; [now apply Hsma|]. split; [reflexivity|]. split; [reflexivity|].
  split.
  - unfold seasonal_decomposition. change (len [x]) with 1%Z.
    replace (1 <? period * 2)%Z with true by (symmetry; apply Z.ltb_lt; lia).
    eexists. split; [reflexivity|]. cbn. repeat split; exact Hone.
  - eexists. split; [reflexivity|]. cbn. repeat split. exact Hone.
Qed.

Lemma single_point_series_witness :
  (0 < 3)%Z /\ (0 < 12)%Z /\
  exists r, forecast_next_month [750] "auto" = Some r /\
            forecast r == 750 /\ method r = "average"%string /\
            confidence r = "low"%string.
Proof.
  split; [reflexivity|]. split; [reflexivity|].
  apply (single_point_series 750 (3 # 10) 3 12 1 "auto"); reflexivity.
Defined.

Lemma np_mean_nonneg (l : list Q) :
  Forall (fun x => 0 <= x) l -> 0 <= np_mean l.
Proof.
  intros H. unfold np_mean. change np_sum with sum.
  apply Qmult_le_0_compat; [now apply sum_nonneg|].
  apply Qinv_le_0_compat. change 0 with (inject_Z 0).
  rewrite <- Zle_Qle. apply len_nonneg.
Qed.

Lemma linear_trend_nonneg (data : list Q) (periods_ahead : Z) :
  Forall (fun x => 0 <= x) data ->
  0 <= linear_trend_forecast data periods_ahead.
Proof.
  intros H. unfold linear_trend_forecast.
  destruct (len data <? 2)%Z.
  - destruct H; [apply Qle_refl|assumption].
  - cbv zeta. destruct (Qeq_bool _ 0).
    + now apply np_mean_nonneg.
    + apply py_max_0_floor.
Qed.

Lemma py_div_nonneg (x y m : Q) :
  0 <= x -> 0 <= y -> py_div x y = Some m -> 0 <= m.
Proof.
  intros Hx Hy H. unfold py_div in H.
  destruct (Qeq_bool y 0); [discriminate|]. injection H as <-.
  apply Qmult_le_0_compat; [exact Hx|now apply Qinv_le_0_compat].
Qed.

Lemma inject_Z_nonneg (n : Z) : (0 <= n)%Z -> 0 <= inject_Z n.
Proof. intros H. change 0 with (inject_Z 0). now rewrite <- Zle_Qle. Qed.

Lemma sma_nonneg (data : list Q) (window : Z) (m : Q) :
  Forall (fun x => 0 <= x) data ->
  (0 < window)%Z ->
  simple_moving_average data window = Some m -> 0 <= m.
Proof.
  intros H Hw Hm. unfold simple_moving_average in Hm.
  destruct (len data <? window)%Z.
  - destruct data as [|d0 rest]; [injection Hm as <-; apply Qle_refl|].
    eapply py_div_nonneg; [| |exact Hm].
    + now apply sum_nonneg.
    + apply inject_Z_nonneg, len_nonneg.
  - eapply py_div_nonneg; [| |exact Hm].
    + apply sum_nonneg. now apply Forall_slice_from.
    + apply inject_Z_nonneg. lia.
Qed.

(** X4. On a series of non-negative numbers the linear trend forecast is
    never negative, whatever the horizon, and for a period of at least 1 the
    seasonal decomposition returns without raising a forecast and a trend
    that are never negative. *)
Theorem trend_and_seasonal_never_negative
    (data : list Q) (periods_ahead period : Z)
    (Hnonneg : Forall (fun x => 0 <= x) data)
    (Hperiod : (0 < period)%Z) :
  0 <= linear_trend_forecast data periods_ahead /\
  exists r, seasonal_decomposition data period = Some r /\
            0 <= s_forecast r /\ 0 <= s_trend r.
Proof.
  split; [now apply linear_trend_nonneg|].
  destruct (seasonal_decomposition_total data period Hperiod) as [r Hr].
  exists r. split; [exact Hr|].
  unfold seasonal_decomposition in Hr.
  destruct (len data <? period * 2)%Z.
  - destruct (simple_moving_average data 3) as [t|] eqn:Ht; [|discriminate].
    cbn in Hr. injection Hr as <-. cbn.
    assert (0 <= t) by (eapply sma_nonneg; [exact Hnonneg| |exact Ht]; lia).
    now split.
  - destruct (simple_moving_average data period) as [t|] eqn:Ht;
      [|discriminate].
    cbn [mbind option_bind] in Hr.
    match type of Hr with
    | (?s ≫= _) = _ => destruct s as [seasonal|]; [|discriminate]
    end.
    cbn in Hr. injection Hr as <-. cbn. split; [apply py_max_0_floor|].
    eapply sma_nonneg; [exact Hnonneg|exact Hperiod|exact Ht].
Qed.

Lemma trend_and_seasonal_never_negative_witness :
  Forall (fun x => 0 <= x) [900; 500; 100] /\ (0 < 1)%Z /\
  0 <= linear_trend_forecast [900; 500; 100] 1 /\
  linear_trend_forecast [900; 500; 100] 1 == 0.
Proof.
  assert (Hnonneg : Forall (fun x => 0 <= x) [900; 500; 100])
    by (repeat constructor; vm_compute; discriminate).
  split; [exact Hnonneg|]. split; [reflexivity|].
  split; [|reflexivity].
  exact (proj1 (trend_and_seasonal_never_negative [900; 500; 100] 1 1
                  Hnonneg eq_refl)).
Defined.

End EstimatorFacts.


(** ** Moving average and exponential smoothing on rounded arithmetic *)

Section RoundedEstimators.

Local Open Scope Q_scope.

(** The moving average under a rounding of relative error [u]. *)
Lemma sma_near (u : Q) (rnd : Q -> Q) (d0 : Q) (rest : list Q) (window : Z)
    (B : Q) :
  rounds_within u rnd -> 0 <= u ->
  inject_Z window * u <= 1 ->
  (0 < window)%Z ->
  Forall (fun x => Qabs x <= B) (d0 :: rest) ->
  exists m,
    Rounded.simple_moving_average rnd (d0 :: rest) window = Some m /\
    list_min d0 rest - (inject_Z window + 2) * u * B <= m
    <= list_max d0 rest + (inject_Z window + 2) * u * B.
Proof.
  intros Hr Hu Hsmall Hwindow Hmag.
  pose proof (list_min_max_bounds d0 rest) as Hall.
  assert (HB : 0 <= B).
  { inversion_clear Hmag as [|? ? Hx _].
    eapply Qle_trans; [apply Qabs_nonneg|exact Hx]. }
  assert (HuB : 0 <= u * B) by now apply Qmult_le_0_compat.
  assert (Hany : forall l : list Q,
            (0 < len l <= window)%Z ->
            Forall (fun v => list_min d0 rest <= v <= list_max d0 rest) l ->
            Forall (fun x => Qabs x <= B) l ->
            list_min d0 rest - (inject_Z window + 2) * u * B
            <= rnd (Rounded.sum rnd l / inject_Z (len l))
            <= list_max d0 rest + (inject_Z window + 2) * u * B).
  { intros l Hl Hrange Hm.
    assert (Hn : inject_Z (len l) <= inject_Z window)
      by (rewrite <- Zle_Qle; lia).
    assert (Hnu : inject_Z (len l) * u <= inject_Z window * u)
      by now apply Qmult_le_compat_r.
    assert (HnuB : inject_Z (len l) * (u * B) <= inject_Z window * (u * B))
      by now apply Qmult_le_compat_r.
    destruct (rounded_mean_near u rnd (list_min d0 rest) (list_max d0 rest)
                B l Hr Hu) as [Hlo Hhi];
      [Lqa.lra|lia|exact Hrange|exact Hm|].
    split; Lqa.lra. }
  unfold Rounded.simple_moving_average.
  destruct (len (d0 :: rest) <? window)%Z eqn:E.
  - apply Z.ltb_lt in E.
    assert (Hpos : (0 < len (d0 :: rest))%Z)
      by (rewrite len_cons; pose proof (len_nonneg rest); lia).
    rewrite rounded_div_inject by lia.
    eexists. split; [reflexivity|]. apply Hany; [lia|exact Hall|exact Hmag].
  - apply Z.ltb_ge in E. rewrite rounded_div_inject by lia.
    eexists. split; [reflexivity|].
    set (last := slice_from (- window) (d0 :: rest)).
    assert (Hlast : len last = window) by (apply len_slice_last; lia).
    fold last.
    replace (rnd (Rounded.sum rnd last / inject_Z window))
      with (rnd (Rounded.sum rnd last / inject_Z (len last)))
      by now rewrite Hlast.
    apply Hany; [lia|now apply Forall_slice_from|now apply Forall_slice_from].
Qed.

(** One smoothing step under a rounding of relative error [u <= 1/4]:
    a forecast within [e] of [[lo, hi]] stays within [e + 11 u B]. *)
Lemma rounded_smoothing_step (u : Q) (rnd : Q -> Q)
    (lo hi B e alpha value forecast : Q) :
  rounds_within u rnd -> 0 <= u <= 1 # 4 ->
  0 <= alpha <= 1 ->
  0 <= e <= B ->
  lo <= value <= hi -> Qabs value <= B ->
  - B <= lo -> hi <= B ->
  lo - e <= forecast <= hi + e ->
  lo - (e + 11 * (u * B))
  <= rnd (rnd (alpha * value) + rnd (rnd (1 - alpha) * forecast))
  <= hi + (e + 11 * (u * B)).
Proof.
  intros Hr [Hu0 Hu1] [Ha0 Ha1] [He0 He1] [Hv0 Hv1] Hvm Hlo Hhi [Hf0 Hf1].
  apply abs_bounds in Hvm.
  assert (HB : 0 <= B) by Lqa.lra.
  assert (HuB : 0 <= u * B) by now apply Qmult_le_0_compat.
  assert (HuB1 : u * B <= (1 # 4) * B) by now apply Qmult_le_compat_r.
  (* alpha * value *)
  assert (Hav : Qabs (alpha * value) <= B).
  { apply abs_bounds.
    assert (0 <= alpha * (value + B)) by (apply Qmult_le_0_compat; Lqa.lra).
    assert (0 <= alpha * (B - value)) by (apply Qmult_le_0_compat; Lqa.lra).
    assert (0 <= (1 - alpha) * B) by (apply Qmult_le_0_compat; Lqa.lra).
    split; Lqa.lra. }
  pose proof (rounding_close u rnd _ _ Hr Hu0 Hav) as HA.
  set (A := rnd (alpha * value)) in *.
  (* beta = rnd (1 - alpha) *)
  assert (Hb1 : Qabs (1 - alpha) <= 1) by (apply abs_bounds; split; Lqa.lra).
  pose proof (rounding_close u rnd _ _ Hr Hu0 Hb1) as Hbeta.
  set (beta := rnd (1 - alpha)) in *.
  (* beta * forecast *)
  assert (Hfm : - (2 * B) <= forecast <= 2 * B) by (split; Lqa.lra).
  assert (Hbf : - (2 * (u * B)) <= beta * forecast - (1 - alpha) * forecast
                <= 2 * (u * B)).
  { assert (E : beta * forecast - (1 - alpha) * forecast
                == (beta - (1 - alpha)) * forecast) by ring.
    rewrite E.
    set (d := beta - (1 - alpha)) in *.
    assert (0 <= (u * 1 - d) * (2 * B - forecast))
      by (apply Qmult_le_0_compat; Lqa.lra).
    assert (0 <= (u * 1 - d) * (forecast + 2 * B))
      by (apply Qmult_le_0_compat; Lqa.lra).
    assert (0 <= (d + u * 1) * (2 * B - forecast))
      by (apply Qmult_le_0_compat; Lqa.lra).
    assert (0 <= (d + u * 1) * (forecast + 2 * B))
      by (apply Qmult_le_0_compat; Lqa.lra).
    split; Lqa.lra. }
  assert (Hcf : - (2 * B) <= (1 - alpha) * forecast <= 2 * B).
  { assert (0 <= (1 - alpha) * (forecast + 2 * B))
      by (apply Qmult_le_0_compat; Lqa.lra).
    assert (0 <= (1 - alpha) * (2 * B - forecast))
      by (apply Qmult_le_0_compat; Lqa.lra).
    assert (0 <= alpha * (2 * B)) by (apply Qmult_le_0_compat; Lqa.lra).
    split; Lqa.lra. }
  assert (HuuB : u * (u * B) <= (1 # 4) * (u * B))
    by now apply Qmult_le_compat_r.
  assert (Hbfm : Qabs (beta * forecast) <= 4 * B)
    by (apply abs_bounds; split; Lqa.lra).
  pose proof (rounding_close u rnd _ _ Hr Hu0 Hbfm) as HC.
  set (C := rnd (beta * forecast)) in *.
  assert (Hsum : Qabs (A + C) <= 4 * B).
  { assert (Hconv : - (2 * B) <= alpha * value + (1 - alpha) * forecast
                    <= 2 * B).
    { assert (0 <= alpha * (value + B)) by (apply Qmult_le_0_compat; Lqa.lra).
      assert (0 <= alpha * (B - value)) by (apply Qmult_le_0_compat; Lqa.lra).
      assert (0 <= (1 - alpha) * (forecast + 2 * B))
        by (apply Qmult_le_0_compat; Lqa.lra).
      assert (0 <= (1 - alpha) * (2 * B - forecast))
        by (apply Qmult_le_0_compat; Lqa.lra).
      assert (0 <= alpha * B) by (apply Qmult_le_0_compat; Lqa.lra).
      split; Lqa.lra. }
    apply abs_bounds. split; Lqa.lra. }
  pose proof (rounding_close u rnd _ _ Hr Hu0 Hsum) as HS.
  assert (Hstep : lo - e <= alpha * value + (1 - alpha) * forecast <= hi + e).
  { assert (0 <= alpha * (value - lo)) by (apply Qmult_le_0_compat; Lqa.lra).
    assert (0 <= alpha * (hi - value)) by (apply Qmult_le_0_compat; Lqa.lra).
    assert (0 <= (1 - alpha) * (forecast - (lo - e)))
      by (apply Qmult_le_0_compat; Lqa.lra).
    assert (0 <= (1 - alpha) * (hi + e - forecast))
      by (apply Qmult_le_0_compat; Lqa.lra).
    assert (0 <= alpha * e) by (apply Qmult_le_0_compat; Lqa.lra).
    split; Lqa.lra. }
  split; Lqa.lra.
Qed.

Lemma rounded_smoothing_fold (u : Q) (rnd : Q -> Q) (lo hi B alpha : Q)
    (rest : list Q) :
  rounds_within u rnd -> 0 <= u <= 1 # 4 ->
  0 <= alpha <= 1 ->
  - B <= lo -> hi <= B ->
  Forall (fun v => lo <= v <= hi) rest ->
  Forall (fun v => Qabs v <= B) rest ->
  forall forecast e : Q,
    0 <= e ->
    e + 11 * inject_Z (len rest) * (u * B) <= B ->
    lo - e <= forecast <= hi + e ->
    lo - (e + 11 * inject_Z (len rest) * (u * B))
    <= fold_left
         (fun forecast value =>
            rnd (rnd (alpha * value) + rnd (rnd (1 - alpha) * forecast)))
         rest forecast
    <= hi + (e + 11 * inject_Z (len rest) * (u * B)).
Proof.
  intros Hr Hu Ha Hlo Hhi Hrange Hmag.
  induction rest as [|v rest IH]; intros forecast e He0 HeB Hf.
  - simpl. change (inject_Z (len [])) with 0. split; Lqa.lra.
  - apply Forall_cons in Hrange as [Hv Hrange].
    apply Forall_cons in Hmag as [Hvm Hmag].
    rewrite len_cons, inject_Z_plus in *. change (inject_Z 1) with 1 in *.
    pose proof (inject_len_nonneg rest) as Hn.
    assert (HB : 0 <= B) by (eapply Qle_trans; [apply Qabs_nonneg|exact Hvm]).
    assert (HuB : 0 <= u * B) by (apply Qmult_le_0_compat; Lqa.lra).
    assert (HnuB : 0 <= inject_Z (len rest) * (u * B))
      by now apply Qmult_le_0_compat.
    simpl fold_left.
    destruct (IH Hrange Hmag
                (rnd (rnd (alpha * v) + rnd (rnd (1 - alpha) * forecast)))
                (e + 11 * (u * B))) as [IHlo IHhi].
    + Lqa.lra.
    + Lqa.lra.
    + apply rounded_smoothing_step; try assumption. split; Lqa.lra.
    + split; Lqa.lra.
Qed.

Lemma list_min_ge (c x : Q) (l : list Q) :
  Forall (fun v => c <= v) (x :: l) -> c <= list_min x l.
Proof.
  revert x. induction l as [|y l IH]; intros x Hall; simpl.
  - now inversion_clear Hall.
  - inversion_clear Hall as [|? ? Hx Hrest].
    apply Q.min_glb; [exact Hx|now apply IH].
Qed.

Lemma list_max_le (c x : Q) (l : list Q) :
  Forall (fun v => v <= c) (x :: l) -> list_max x l <= c.
Proof.
  revert x. induction l as [|y l IH]; intros x Hall; simpl.
  - now inversion_clear Hall.
  - inversion_clear Hall as [|? ? Hx Hrest].
    apply Q.max_lub; [exact Hx|now apply IH].
Qed.

(** Exponential smoothing under a rounding of relative error [u]. *)
Lemma smoothing_near (u : Q) (rnd : Q -> Q) (d0 : Q) (rest : list Q)
    (alpha B : Q) :
  rounds_within u rnd -> 0 <= u <= 1 # 4 ->
  11 * inject_Z (len rest) * u <= 1 ->
  0 <= alpha <= 1 ->
  Forall (fun x => Qabs x <= B) (d0 :: rest) ->
  list_min d0 rest - 11 * inject_Z (len rest) * u * B
  <= Rounded.exponential_smoothing rnd (d0 :: rest) alpha
  <= list_max d0 rest + 11 * inject_Z (len rest) * u * B.
Proof.
  intros Hr Hu Hsmall Ha Hmag.
  pose proof (list_min_max_bounds d0 rest) as Hall.
  assert (HB : 0 <= B).
  { inversion_clear Hmag as [|? ? Hx _].
    eapply Qle_trans; [apply Qabs_nonneg|exact Hx]. }
  assert (Hlo : - B <= list_min d0 rest).
  { apply list_min_ge. eapply Forall_impl; [exact Hmag|]. simpl.
    intros x Hx. apply abs_bounds in Hx. apply Hx. }
  assert (Hhi : list_max d0 rest <= B).
  { apply list_max_le. eapply Forall_impl; [exact Hmag|]. simpl.
    intros x Hx. apply abs_bounds in Hx. apply Hx. }
  assert (HnB : 11 * inject_Z (len rest) * u * B <= 1 * B)
    by now apply Qmult_le_compat_r.
  apply Forall_cons in Hall as [Hd0 Hrest].
  apply Forall_cons in Hmag as [_ Hmag].
  assert (Hfold :
    list_min d0 rest - (0 + 11 * inject_Z (len rest) * (u * B))
    <= fold_left
         (fun forecast value =>
            rnd (rnd (alpha * value) + rnd (rnd (1 - alpha) * forecast)))
         rest d0
    <= list_max d0 rest + (0 + 11 * inject_Z (len rest) * (u * B))).
  { apply rounded_smoothing_fold; try assumption;
      [apply Qle_refl|Lqa.lra|split; Lqa.lra]. }
  unfold Rounded.exponential_smoothing.
  destruct rest as [|d1 rest'].
  - change (inject_Z (len [])) with 0. split; Lqa.lra.
  - split; Lqa.lra.
Qed.

End RoundedEstimators.

Section Binary64Estimators.

Local Open Scope Q_scope.

(** X1. With a smoothing factor between 0 and 1, exponential smoothing of
    a series [d0, *rest] (at most 2^40 points) of amounts of magnitude at
    most [B] stays at the range of the series, within
    [11 * len(rest) * 2^-53 * B] of the interval from its least to its
    greatest point; and so does [forecast_category_spending], which
    smooths with the float 0.3. *)
Theorem exponential_smoothing_near_range
    (d0 : Q) (rest : list Q) (alpha B : Q)
    (Halpha : 0 <= alpha <= 1)
    (Hlen : (len rest <= 2 ^ 40)%Z)
    (Hamounts : amount alpha /\ Forall amount (d0 :: rest))
    (Hmag : Forall (fun x => Qabs x <= B) (d0 :: rest)) :
  list_min d0 rest - 11 * inject_Z (len rest) * unit_roundoff * B
    <= Rounded.exponential_smoothing round64 (d0 :: rest) alpha
    <= list_max d0 rest + 11 * inject_Z (len rest) * unit_roundoff * B /\
  list_min d0 rest - 11 * inject_Z (len rest) * unit_roundoff * B
    <= Rounded.forecast_category_spending round64 (d0 :: rest)
    <= list_max d0 rest + 11 * inject_Z (len rest) * unit_roundoff * B.
Proof.
  assert (Hn : 0 <= inject_Z (len rest) <= 1099511627776).
  { split; [apply inject_len_nonneg|].
    change 1099511627776 with (inject_Z (2 ^ 40)). now rewrite <- Zle_Qle. }
  assert (Hsmall : 11 * inject_Z (len rest) * unit_roundoff <= 1)
    by (rewrite unit_roundoff_value; Lqa.lra).
  assert (Hu : 0 <= unit_roundoff <= 1 # 4)
    by (split; vm_compute; discriminate).
  split.
  - apply smoothing_near;
      [exact round64_rounds|exact Hu|exact Hsmall|exact Halpha|exact Hmag].
  - unfold Rounded.forecast_category_spending.
    apply smoothing_near;
      [exact round64_rounds|exact Hu|exact Hsmall| |exact Hmag].
    split; vm_compute; discriminate.
Qed.

Lemma exponential_smoothing_near_range_witness :
  0 <= round64 (3 # 10) <= 1 /\
  (len (map round64 [999 # 100; 999 # 100]) <= 2 ^ 40)%Z /\
  (amount (round64 (3 # 10)) /\
   Forall amount (map round64 [999 # 100; 999 # 100; 999 # 100])) /\
  Forall (fun x => Qabs x <= 10)
         (map round64 [999 # 100; 999 # 100; 999 # 100]) /\
  Rounded.exponential_smoothing round64
    (map round64 [999 # 100; 999 # 100; 999 # 100]) (round64 (3 # 10))
  < round64 (999 # 100) /\
  round64 (999 # 100) - 11 * inject_Z 2 * unit_roundoff * 10
  <= Rounded.exponential_smoothing round64
       (map round64 [999 # 100; 999 # 100; 999 # 100]) (round64 (3 # 10)).
Proof.
  assert (Halpha : 0 <= round64 (3 # 10) <= 1)
    by (split; vm_compute; discriminate).
  assert (Hlen : (len (map round64 [999 # 100; 999 # 100]) <= 2 ^ 40)%Z)
    by (vm_compute; discriminate).
  assert (Hmag : Forall (fun x => Qabs x <= 10)
                   (map round64 [999 # 100; 999 # 100; 999 # 100]))
    by (repeat constructor; vm_compute; discriminate).
  assert (Hamounts : amount (round64 (3 # 10)) /\
                     Forall amount
                       (map round64 [999 # 100; 999 # 100; 999 # 100]))
    by (split; [right; split; vm_compute; discriminate|];
        repeat (apply List.Forall_cons;
                [right; split; vm_compute; discriminate|]);
        apply List.Forall_nil).
  split; [exact Halpha|]. split; [exact Hlen|]. split; [exact Hamounts|].
  split; [exact Hmag|]. split; [vm_compute; reflexivity|].
  destruct (exponential_smoothing_near_range
              (round64 (999 # 100)) (map round64 [999 # 100; 999 # 100])
              (round64 (3 # 10)) 10 Halpha Hlen Hamounts Hmag)
    as [[Hlo _] _].
  assert (Emin : list_min (round64 (999 # 100))
                   (map round64 [999 # 100; 999 # 100])
                 == round64 (999 # 100)) by (vm_compute; reflexivity).
  rewrite Emin in Hlo. exact Hlo.
Defined.

(** X2. With a window between 1 and 2^40 the moving average of a series
    [d0, *rest] of amounts of magnitude at most [B] is computed without
    raising and lies within [(window + 2) * 2^-53 * B] of the interval
    from the least to the greatest point of the series. *)
Theorem moving_average_near_range
    (d0 : Q) (rest : list Q) (window : Z) (B : Q)
    (Hwindow : (0 < window <= 2 ^ 40)%Z)
    (Hamounts : Forall amount (d0 :: rest))
    (Hmag : Forall (fun x => Qabs x <= B) (d0 :: rest)) :
  exists m,
    Rounded.simple_moving_average round64 (d0 :: rest) window = Some m /\
    list_min d0 rest - (inject_Z window + 2) * unit_roundoff * B <= m
    <= list_max d0 rest + (inject_Z window + 2) * unit_roundoff * B.
Proof.
  assert (Hw : inject_Z window <= 1099511627776).
  { change 1099511627776 with (inject_Z (2 ^ 40)). rewrite <- Zle_Qle. lia. }
  apply sma_near; [exact round64_rounds|discriminate| |lia|exact Hmag].
  rewrite unit_roundoff_value. Lqa.lra.
Qed.

Lemma moving_average_near_range_witness :
  (0 < 3 <= 2 ^ 40)%Z /\
  Forall amount (map round64 [1 # 10; 1 # 10; 1 # 10]) /\
  Forall (fun x => Qabs x <= 1) (map round64 [1 # 10; 1 # 10; 1 # 10]) /\
  exists m,
    Rounded.simple_moving_average round64
      (map round64 [1 # 10; 1 # 10; 1 # 10]) 3 = Some m /\
    round64 (1 # 10) < m /\
    m <= round64 (1 # 10) + (inject_Z 3 + 2) * unit_roundoff * 1.
Proof.
  assert (Hwindow : (0 < 3 <= 2 ^ 40)%Z) by (split; vm_compute; congruence).
  assert (Hmag : Forall (fun x => Qabs x <= 1)
                   (map round64 [1 # 10; 1 # 10; 1 # 10]))
    by (repeat constructor; vm_compute; discriminate).
  assert (Hamounts : Forall amount (map round64 [1 # 10; 1 # 10; 1 # 10]))
    by (repeat (apply List.Forall_cons;
                [right; split; vm_compute; discriminate|]);
        apply List.Forall_nil).
  split; [exact Hwindow|]. split; [exact Hamounts|]. split; [exact Hmag|].
  destruct (moving_average_near_range
              (round64 (1 # 10)) (map round64 [1 # 10; 1 # 10]) 3 1
              Hwindow Hamounts Hmag) as (m & Hm & _ & Hhi).
  exists m. split; [exact Hm|].
  assert (Emax : list_max (round64 (1 # 10)) (map round64 [1 # 10; 1 # 10])
                 == round64 (1 # 10)) by (vm_compute; reflexivity).
  rewrite Emax in Hhi. split; [|exact Hhi].
  vm_compute in Hm. injection Hm as <-. vm_compute. reflexivity.
Defined.

(** The rounding shows on equal points: three months of 0.1 average to
    0.10000000000000002, three of 7.99 to 7.989999999999999, and smoothing
    three months of 9.99 gives 9.989999999999998. *)
Example equal_points_leave_the_range :
  Rounded.simple_moving_average round64
    (map round64 [1 # 10; 1 # 10; 1 # 10]) 3
    = Some (round64 (10000000000000002 # 10 ^ 17)) /\
  round64 (1 # 10) < round64 (10000000000000002 # 10 ^ 17) /\
  (exists m,
     Rounded.simple_moving_average round64
       (map round64 [799 # 100; 799 # 100; 799 # 100]) 3 = Some m /\
     m == round64 (7989999999999999 # 10 ^ 15) /\ m < round64 (799 # 100)) /\
  Rounded.exponential_smoothing round64
    (map round64 [999 # 100; 999 # 100; 999 # 100]) (round64 (3 # 10))
  == round64 (9989999999999998 # 10 ^ 15).
Proof.
  split; [vm_compute; reflexivity|]. split; [vm_compute; reflexivity|].
  split; [|vm_compute; reflexivity].
  eexists. split; [vm_compute; reflexivity|].
  split; vm_compute; reflexivity.
Qed.

End Binary64Estimators.

(** ** The aggregator, all modes *)

Section AggregatorModes.

Local Open Scope Q_scope.

(** Whatever the mode, the estimators it selects are computed without
    raising. *)
Lemma compute_forecasts_total (data : list Q) (mode : string) :
  exists forecasts, compute_forecasts data mode = Some forecasts.
Proof.
  unfold compute_forecasts.
  destruct (sma_total data 3) as [s Hs]; [lia|]. rewrite Hs.
  destruct (str_in mode ["auto"; "sma"]); cbn [mbind option_bind];
  destruct (str_in mode ["auto"; "ema"]); cbn [mbind option_bind];
  destruct (str_in mode ["auto"; "linear"]); cbn [mbind option_bind];
  destruct (str_in mode ["auto"; "seasonal"] && (6 <=? len data)%Z) eqn:E;
  cbn [mbind option_bind]; eauto;
  apply andb_true_iff in E as [_ E]; apply Z.leb_le in E;
  (destruct (seasonal_decomposition_total data (Z.min 12 (len data)))
     as [r ->]; [lia|]); cbn [mbind option_bind]; eauto.
Qed.

(** X6. [forecast_next_month] never raises: for every series and every mode
    string it returns a result, whose method is [no_data], [average],
    [ensemble] or the requested mode and whose confidence is [low],
    [medium] or [high]. *)
Theorem forecast_next_month_total (data : list Q) (mode : string) :
  exists r,
    forecast_next_month data mode = Some r /\
    (method r = "no_data" \/ method r = "average" \/
     method r = "ensemble" \/ method r = mode)%string /\
    (confidence r = "low" \/ confidence r = "medium" \/
     confidence r = "high")%string.
Proof.
  destruct data as [|d0 rest].
  - eexists. split; [reflexivity|]. cbn. tauto.
  - destruct (Z.ltb_spec (len (d0 :: rest)) 3) as [Hshort|Hlong].
    + unfold forecast_next_month.
      replace (len (d0 :: rest) <? 3)%Z with true
        by (symmetry; now apply Z.ltb_lt).
      rewrite py_div_inject
        by (rewrite len_cons; pose proof (len_nonneg rest); lia).
      eexists. split; [reflexivity|]. cbn. tauto.
    + rewrite forecast_next_month_long by exact Hlong.
      destruct (String.eqb mode "auto") eqn:Emode.
      * apply String.eqb_eq in Emode. subst mode.
        destruct (compute_forecasts_auto _ Hlong) as (s & more & _ & -> & _).
        cbn [mbind option_bind].
        rewrite py_div_inject
          by (rewrite !len_cons; pose proof (len_nonneg more); lia).
        cbn [mbind option_bind]. eexists. split; [reflexivity|].
        cbn [method confidence snd]. split; [tauto|].
        destruct (cv_lt _ _ (2 # 10)); [tauto|].
        destruct (cv_lt _ _ (5 # 10)); tauto.
      * destruct (compute_forecasts_total (d0 :: rest) mode) as [fs ->].
        cbn [mbind option_bind]. eexists. split; [reflexivity|].
        cbn [method confidence snd]. split; [tauto|].
        destruct (cv_lt _ _ (2 # 10)); [tauto|].
        destruct (cv_lt _ _ (5 # 10)); tauto.
Qed.

Lemma seasonal_decomposition_short (data : list Q) (period : Z) (s : Q) :
  (len data < period * 2)%Z ->
  simple_moving_average data 3 = Some s ->
  seasonal_decomposition data period = Some (mkSeasonal s 0 s).
Proof.
  intros Hlen Hs. unfold seasonal_decomposition.
  replace (len data <? period * 2)%Z with true
    by (symmetry; now apply Z.ltb_lt).
  now rewrite Hs.
Qed.



(** X8. A mode string other than [auto], [sma], [ema], [linear] and
    [seasonal] selects no estimator: on three or more months the result is
    the value 0 under the requested string as method. *)
Theorem unknown_mode_returns_zero
    (data : list Q) (mode : string)
    (Hlen : (3 <= len data)%Z)
    (Hmode : ~ In mode ["auto"; "sma"; "ema"; "linear"; "seasonal"]%string) :
  exists r, forecast_next_month data mode = Some r /\
            forecast r = 0 /\ method r = mode.
Proof.
  assert (Hne : forall name,
            In name ["auto"; "sma"; "ema"; "linear"; "seasonal"]%string ->
            String.eqb mode name = false).
  { intros name Hin. apply String.eqb_neq. intros ->. contradiction. }
  rewrite forecast_next_month_long by exact Hlen.
  unfold compute_forecasts, str_in. cbn [existsb].
  rewrite !Hne by (simpl; tauto). cbn.
  eexists. split; [reflexivity|]. now split.
Qed.

Lemma unknown_mode_returns_zero_witness :
  (3 <= len scenario)%Z /\
  ~ In "arima"%string ["auto"; "sma"; "ema"; "linear"; "seasonal"]%string /\
  exists r, forecast_next_month scenario "arima" = Some r /\
            forecast r = 0 /\ method r = "arima"%string.
Proof.
  assert (Hlen : (3 <= len scenario)%Z) by (vm_compute; discriminate).
  assert (Hmode : ~ In "arima"%string
                      ["auto"; "sma"; "ema"; "linear"; "seasonal"]%string)
    by (simpl; intuition discriminate).
  split; [exact Hlen|]. split; [exact Hmode|].
  exact (unknown_mode_returns_zero scenario "arima" Hlen Hmode).
Defined.

(** X9. A series of three or more months whose mean is not positive gets
    confidence [high] in every mode: the coefficient of variation is then
    taken to be 0. *)
Theorem nonpositive_mean_is_high_confidence
    (data : list Q) (mode : string)
    (Hlen : (3 <= len data)%Z)
    (Hmean : np_mean data <= 0) :
  exists r, forecast_next_month data mode = Some r /\
            confidence r = "high"%string.
Proof.
  assert (Hcv : cv_lt (np_var data) (np_mean data) (2 # 10) = true).
  { unfold cv_lt. replace (Qltb 0 (np_mean data)) with false
      by (symmetry; now apply Qltb_ge).
    reflexivity. }
  rewrite forecast_next_month_long by exact Hlen. rewrite Hcv.
  destruct (String.eqb mode "auto") eqn:Emode.
  - apply String.eqb_eq in Emode. subst mode.
    destruct (compute_forecasts_auto _ Hlen) as (s & more & _ & -> & _).
    cbn [mbind option_bind].
    rewrite py_div_inject
      by (rewrite !len_cons; pose proof (len_nonneg more); lia).
    eexists. split; reflexivity.
  - destruct (compute_forecasts_total data mode) as [fs ->].
    eexists. split; reflexivity.
Qed.

Lemma nonpositive_mean_is_high_confidence_witness :
  let data : list Q := [0; 0; 0] in
  (3 <= len data)%Z /\ np_mean data <= 0 /\
  exists r, forecast_next_month data "auto" = Some r /\
            confidence r = "high"%string.
Proof.
  intros data.
  assert (Hlen : (3 <= len data)%Z) by (vm_compute; discriminate).
  assert (Hmean : np_mean data <= 0) by (vm_compute; discriminate).
  split; [exact Hlen|]. split; [exact Hmean|].
  exact (nonpositive_mean_is_high_confidence data "auto" Hlen Hmean).
Defined.

End AggregatorModes.

(** ** The risk report as a whole *)

Import RiskLines ChatLogic AsciiText.

Section RiskReportFacts.

Local Open Scope Q_scope.

Lemma risk_score_range (u : Q) : (20 <= risk_score u <= 100)%Z.
Proof. unfold risk_score. case_Qltb; lia. Qed.

(** The month-end projection scales the spending by a non-negative
    factor. *)
Lemma projected_total_scales (current_day days_remaining : Z) :
  (0 <= days_remaining)%Z ->
  exists k, 1 <= k /\
            forall spent,
              projected_total current_day days_remaining spent == spent * k.
Proof.
  intros Hd. unfold projected_total.
  destruct (0 <? current_day)%Z eqn:E.
  - apply Z.ltb_lt in E.
    exists (1 + inject_Z days_remaining / inject_Z current_day). split.
    + assert (0 <= inject_Z days_remaining / inject_Z current_day).
      { apply Qmult_le_0_compat; [now apply inject_Z_nonneg|].
        apply Qinv_le_0_compat. apply inject_Z_nonneg. lia. }
      Lqa.lra.
    + intros spent. field. apply inject_Z_nonzero. lia.
  - exists 1. split; [apply Qle_refl|]. intros spent. ring.
Qed.

(** X10. For a budget line with a positive amount, on any day of the month,
    a larger spending to date never gives a lower risk score, and with the
    same non-negative spending a larger budget never gives a higher one. *)
Theorem risk_follows_spending_and_budget
    (current_day days_remaining : Z) (spent1 spent2 budget1 budget2 : Q)
    (Hdays : (0 <= days_remaining)%Z)
    (Hbudget : 0 < budget1 <= budget2)
    (Hspent : 0 <= spent1 <= spent2) :
  (risk_score (projected_utilization current_day days_remaining
                 spent1 budget1)
   <= risk_score (projected_utilization current_day days_remaining
                    spent2 budget1))%Z /\
  (risk_score (projected_utilization current_day days_remaining
                 spent1 budget2)
   <= risk_score (projected_utilization current_day days_remaining
                    spent1 budget1))%Z.
Proof.
  destruct Hbudget as [Hb1 Hb12]. destruct Hspent as [Hs1 Hs12].
  destruct (projected_total_scales current_day days_remaining Hdays)
    as (k & Hk & Hproj).
  assert (Hb2 : 0 < budget2) by Lqa.lra.
  split; apply risk_score_monotone; unfold projected_utilization;
    rewrite !Hproj.
  - apply Qmult_le_compat_r; [|Lqa.lra].
    apply Qmult_le_compat_r; [|apply Qlt_le_weak, Qinv_lt_0_compat; exact Hb1].
    apply Qmult_le_compat_r; Lqa.lra.
  - apply Qmult_le_compat_r; [|Lqa.lra].
    assert (Hsk : 0 <= spent1 * k) by (apply Qmult_le_0_compat; Lqa.lra).
    unfold Qdiv. rewrite !(Qmult_comm (spent1 * k)).
    apply Qmult_le_compat_r; [|exact Hsk].
    apply Qle_shift_inv_l; [exact Hb1|].
    rewrite Qmult_comm. change (budget1 * / budget2) with (budget1 / budget2).
    apply Qle_shift_div_r; [exact Hb2|]. Lqa.lra.
Qed.

Lemma risk_follows_spending_and_budget_witness :
  (0 <= 10)%Z /\ 0 < 1000 <= 2000 /\ 0 <= 500 <= 900 /\
  (risk_score (projected_utilization 20 10 500 1000)
   <= risk_score (projected_utilization 20 10 900 1000))%Z /\
  (risk_score (projected_utilization 20 10 500 2000)
   <= risk_score (projected_utilization 20 10 500 1000))%Z.
Proof.
  assert (Hdays : (0 <= 10)%Z) by lia.
  assert (Hbudget : 0 < 1000 <= 2000) by (split; vm_compute; congruence).
  assert (Hspent : 0 <= 500 <= 900) by (split; vm_compute; congruence).
  split; [exact Hdays|]. split; [exact Hbudget|]. split; [exact Hspent|].
  exact (risk_follows_spending_and_budget 20 10 500 900 1000 2000
           Hdays Hbudget Hspent).
Defined.

(** The loop of [predict_budget_risk], in closed form. *)
Lemma score_budget_fold (current_day days_remaining : Z)
    (budgets : list BudgetLine) :
  forall acc : list Z * list HighRisk,
    fold_left (score_budget current_day days_remaining) budgets acc
    = (acc.1 ++ map (line_risk current_day days_remaining)
                    (List.filter scorable budgets),
       acc.2 ++ map (high_risk_entry current_day days_remaining)
                    (List.filter
                       (fun b => scorable b
                                 && (60 <=? line_risk current_day
                                              days_remaining b)%Z)
                       budgets)).
Proof.
  induction budgets as [|b budgets IH]; intros [scores high].
  - cbn. now rewrite !app_nil_r.
  - cbn [fold_left List.filter]. rewrite IH.
    assert (Hs : scorable b = negb (Qeq_bool (b_amount b) 0)) by reflexivity.
    assert (Hr : line_risk current_day days_remaining b
                 = risk_score (projected_utilization current_day
                                 days_remaining (spent_to_date b)
                                 (b_amount b))) by reflexivity.
    assert (Hh : high_risk_entry current_day days_remaining b
                 = mkHighRisk (b_category b)
                     (line_risk current_day days_remaining b)
                     (spent_to_date b) (b_amount b)
                     (projected_total current_day days_remaining
                        (spent_to_date b))) by reflexivity.
    rewrite Hs. unfold score_budget.
    destruct (Qeq_bool (b_amount b) 0); cbn [negb andb fst snd];
      [reflexivity|].
    rewrite <- Hr.
    destruct (60 <=? line_risk current_day days_remaining b)%Z;
      cbn [map fst snd]; rewrite ?Hh, <- ?app_assoc; reflexivity.
Qed.

Lemma fold_add_shift (l : list Z) (a : Z) :
  fold_left Z.add l a = (a + fold_left Z.add l 0)%Z.
Proof.
  revert a. induction l as [|x l IH]; intros a; cbn [fold_left]; [lia|].
  rewrite (IH (a + x)%Z), (IH (0 + x)%Z). lia.
Qed.

Lemma scores_sum_range (l : list Z) :
  Forall (fun x => 20 <= x <= 100)%Z l ->
  (20 * len l <= fold_left Z.add l 0 <= 100 * len l)%Z.
Proof.
  induction 1 as [|x l Hx _ IH].
  - change (len (@nil Z)) with 0%Z. cbn [fold_left]. lia.
  - cbn [fold_left]. rewrite (fold_add_shift l (0 + x)%Z), len_cons.
    cbv beta in Hx. lia.
Qed.

Lemma filter_scorable_none (budgets : list BudgetLine) :
  Forall (fun b => b_amount b == 0) budgets ->
  List.filter scorable budgets = [].
Proof.
  induction 1 as [|b l Hb _ IH]; [reflexivity|].
  cbn [List.filter]. unfold scorable at 1.
  apply Qeq_bool_iff in Hb. now rewrite Hb.
Qed.



(** X12. When at least one budget has a non-zero amount the overall risk
    score lies between 20 and 100 and the level is not [none]; when every
    budget has amount 0 the score is 0 and the level [low]. *)
Theorem overall_risk_score_range
    (current_day days_in_month : Z) (budgets : list BudgetLine)
    (Hbudgets : budgets <> []) :
  let report := predict_budget_risk current_day days_in_month budgets in
  r_risk_level report <> "none"%string /\
  (Exists (fun b => ~ b_amount b == 0) budgets ->
   20 <= r_risk_score report <= 100) /\
  (Forall (fun b => b_amount b == 0) budgets ->
   r_risk_score report = 0 /\ r_risk_level report = "low"%string).
Proof.
  intros report. unfold report, predict_budget_risk.
  destruct budgets as [|b0 budgets0]; [contradiction|].
  set (budgets := b0 :: budgets0) in *.
  rewrite score_budget_fold. cbn [fst snd app].
  set (dr := (days_in_month - current_day)%Z).
  set (scores := map (line_risk current_day dr) (List.filter scorable budgets)).
  split; [|split].
  - cbn [r_risk_level].
    destruct (Qle_bool 80 _); [discriminate|].
    destruct (Qle_bool 60 _); [discriminate|].
    destruct (Qle_bool 40 _); discriminate.
  - intros Hex. cbn [r_risk_score].
    assert (Hne : scores <> []).
    { apply List.Exists_exists in Hex as (b & Hin & Hb).
      assert (In b (List.filter scorable budgets)) as Hin'.
      { apply filter_In. split; [exact Hin|]. unfold scorable.
        apply negb_true_iff, not_true_is_false. intros E.
        now apply Qeq_bool_iff in E. }
      unfold scores. intros E. apply (in_map (line_risk current_day dr)) in Hin'.
      rewrite E in Hin'. exact Hin'. }
    assert (Hall : Forall (fun x => 20 <= x <= 100)%Z scores).
    { unfold scores. apply List.Forall_forall. intros x Hx.
      apply in_map_iff in Hx as (b & <- & _). apply risk_score_range. }
    pose proof (scores_sum_range scores Hall) as [Hlo Hhi].
    destruct scores as [|x scores'] eqn:Es; [contradiction|].
    rewrite <- Es in *. clear Es.
    assert (Hpos : (0 < len scores)%Z).
    { destruct scores; [contradiction|]. rewrite len_cons.
      pose proof (len_nonneg scores). lia. }
    assert (HposQ : 0 < inject_Z (len scores))
      by (change 0 with (inject_Z 0); now rewrite <- Zlt_Qlt).
    split.
    + apply Qle_shift_div_l; [exact HposQ|].
      change 20 with (inject_Z 20). rewrite <- inject_Z_mult, <- Zle_Qle. lia.
    + apply Qle_shift_div_r; [exact HposQ|].
      change 100 with (inject_Z 100). rewrite <- inject_Z_mult, <- Zle_Qle. lia.
  - intros Hall.
    unfold scores. rewrite (filter_scorable_none budgets Hall). cbn.
    now split.
Qed.

Lemma overall_risk_score_range_witness :
  let budgets := [mkBudgetLine "Food" 1000 (Some 900);
                  mkBudgetLine "Fuel" 400 None] in
  budgets <> [] /\
  Exists (fun b => ~ b_amount b == 0) budgets /\
  20 <= r_risk_score (predict_budget_risk 20 30 budgets) <= 100.
Proof.
  intros budgets.
  assert (Hne : budgets <> []) by discriminate.
  assert (Hex : Exists (fun b => ~ b_amount b == 0) budgets)
    by (apply Exists_cons_hd; cbn; discriminate).
  split; [exact Hne|]. split; [exact Hex|].
  exact (proj1 (proj2 (overall_risk_score_range 20 30 budgets Hne)) Hex).
Defined.

End RiskReportFacts.

(** ** Budget status, budget prediction and the risk score *)

Section BudgetFacts.

Local Open Scope Q_scope.

(** For a positive budget the projected utilization exceeds 100 exactly
    when the projected total exceeds the budget. *)
Lemma utilization_over_100 (projected budget_amount : Q) :
  0 < budget_amount ->
  (100 < projected / budget_amount * 100 <-> budget_amount < projected).
Proof.
  intros Hb.
  assert (E : projected / budget_amount * 100 - 100
              == (projected - budget_amount) * (100 / budget_amount))
    by (field; intros E; rewrite E in Hb; now apply Qlt_irrefl in Hb).
  assert (Hc : 0 < 100 / budget_amount)
    by (apply Qlt_shift_div_l; [exact Hb|Lqa.lra]).
  split; intros H.
  - destruct (Qlt_le_dec budget_amount projected) as [Hlt|Hge]; [exact Hlt|].
    exfalso.
    assert (0 <= (budget_amount - projected) * (100 / budget_amount))
      by (apply Qmult_le_0_compat; Lqa.lra).
    Lqa.lra.
  - assert (0 < (projected - budget_amount) * (100 / budget_amount))
      by (apply Qmult_lt_0_compat; Lqa.lra).
    Lqa.lra.
Qed.

(** X13. For a budget line with a positive amount, [predict_budget_status]
    flags the line as likely to exceed exactly when [predict_budget_risk]
    scores it 80 or more; and a line that [check_budget_status] reports as
    already exceeded is scored 80 or more on every day of the month. *)
Theorem exceed_warnings_agree_with_risk
    (current_day days_remaining : Z) (budget : BudgetLine)
    (Hbudget : 0 < b_amount budget) :
  (p_will_exceed (budget_prediction current_day days_remaining budget) = true
   <-> (80 <= line_risk current_day days_remaining budget)%Z) /\
  ((0 <= days_remaining)%Z ->
   bs_exceeded (budget_status budget) = true ->
   (80 <= line_risk current_day days_remaining budget)%Z).
Proof.
  set (spent := spent_to_date budget).
  set (projected := projected_total current_day days_remaining spent).
  assert (Hflag :
    p_will_exceed (budget_prediction current_day days_remaining budget)
    = Qltb (b_amount budget) projected) by reflexivity.
  assert (Hrisk : (80 <= line_risk current_day days_remaining budget)%Z
                  <-> b_amount budget < projected).
  { rewrite <- (utilization_over_100 projected (b_amount budget) Hbudget).
    unfold line_risk, projected_utilization. fold spent. fold projected.
    set (u := projected / b_amount budget * 100).
    unfold risk_score. split.
    - case_Qltb; intros H; try lia; Lqa.lra.
    - intros H. case_Qltb; try lia; exfalso; Lqa.lra. }
  split.
  - rewrite Hflag, Qltb_lt. symmetry. exact Hrisk.
  - intros Hdays Hex. apply Hrisk.
    change (bs_exceeded (budget_status budget))
      with (Qltb (b_amount budget) spent) in Hex.
    apply Qltb_lt in Hex.
    destruct (projected_total_scales current_day days_remaining Hdays)
      as (k & Hk & Hproj).
    unfold projected. rewrite Hproj.
    assert (0 <= spent * (k - 1)) by (apply Qmult_le_0_compat; Lqa.lra).
    Lqa.lra.
Qed.

Lemma exceed_warnings_agree_with_risk_witness :
  let budget := mkBudgetLine "Food" 1000 (Some 900) in
  0 < b_amount budget /\
  p_will_exceed (budget_prediction 20 10 budget) = true /\
  (80 <= line_risk 20 10 budget)%Z.
Proof.
  intros budget.
  assert (Hbudget : 0 < b_amount budget) by reflexivity.
  split; [exact Hbudget|]. split; [reflexivity|].
  apply (proj1 (exceed_warnings_agree_with_risk 20 10 budget Hbudget)).
  reflexivity.
Defined.

(** The loop of [check_budget_status], in closed form. *)
Lemma budget_status_fold (budgets : list BudgetLine) :
  forall acc : list BudgetStatus * list BudgetStatus,
    fold_left
      (fun (acc : list BudgetStatus * list BudgetStatus) budget =>
         let status := budget_status budget in
         (acc.1 ++ [status],
          if Qltb (b_amount budget) (spent_to_date budget)
          then acc.2 ++ [status] else acc.2))
      budgets acc
    = (acc.1 ++ map budget_status budgets,
       acc.2 ++ map budget_status
                  (List.filter
                     (fun b => Qltb (b_amount b) (spent_to_date b)) budgets)).
Proof.
  induction budgets as [|b budgets IH]; intros [all over].
  - cbn. now rewrite !app_nil_r.
  - cbn [fold_left List.filter]. rewrite IH. cbn [fst snd].
    destruct (Qltb (b_amount b) (spent_to_date b));
      cbn [map]; now rewrite <- !app_assoc.
Qed.


End BudgetFacts.

(** ** Spending insights *)

Section InsightFacts.

Local Open Scope Q_scope.

Lemma insights_fold_raised (rnd : Q -> Q) (results : list CategorySpend) :
  fold_left (fun acc row => insights ← acc; insight_step rnd insights row)
            results None = None.
Proof. induction results as [|row results IH]; [reflexivity|exact IH]. Qed.

Lemma insight_step_raises (rnd : Q -> Q) (insights : list Insight)
    (row : CategorySpend) :
  insight_step rnd insights row = None <-> cs_hist_avg row = None.
Proof.
  unfold insight_step. destruct (cs_hist_avg row) as [scalar|]; cbn.
  - split; [|discriminate].
    destruct (Qltb 0 _); [destruct (Qltb 20 _)|]; discriminate.
  - split; reflexivity.
Qed.

Lemma insight_step_grows (rnd : Q -> Q) (insights insights' : list Insight)
    (row : CategorySpend) :
  insight_step rnd insights row = Some insights' ->
  insights' = insights
  \/ exists i, insights' = insights ++ [i] /\ i_category i = cs_category row.
Proof.
  unfold insight_step. destruct (cs_hist_avg row) as [scalar|]; cbn;
    [|discriminate].
  destruct (Qltb 0 _); [destruct (Qltb 20 _)|]; intros [= <-]; eauto.
Qed.

Lemma insights_fold_outcome (rnd : Q -> Q) (results : list CategorySpend) :
  forall insights : list Insight,
    let outcome :=
      fold_left (fun acc row => l ← acc; insight_step rnd l row)
                results (Some insights) in
    (outcome = None <->
     exists row, In row results /\ cs_hist_avg row = None) /\
    (forall insights',
       outcome = Some insights' ->
       exists added,
         insights' = insights ++ added /\
         (length added <= length results)%nat /\
         forall i, In i added ->
                   exists row, In row results /\
                               i_category i = cs_category row).
Proof.
  induction results as [|row results IH]; intros insights; cbn.
  - split.
    + split; [discriminate|]. now intros (row & [] & _).
    + intros l [= <-]. exists []. rewrite app_nil_r.
      split; [reflexivity|]. split; [cbn; lia|]. now intros i [].
  - destruct (insight_step rnd insights row) as [l|] eqn:E.
    + destruct (IH l) as [IHnone IHsome]. cbv zeta in IHnone, IHsome.
      split.
      * rewrite IHnone. split.
        -- intros (r & Hin & Hr). exists r. split; [now right|exact Hr].
        -- intros (r & [<-|Hin] & Hr); [|eauto].
           apply (insight_step_raises rnd insights) in Hr. congruence.
      * intros l' Hl'. destruct (IHsome l' Hl') as (added & -> & Hlen & Hcat).
        apply insight_step_grows in E as [->|(i & -> & Hi)].
        -- exists added. split; [reflexivity|]. split; [cbn; lia|].
           intros j Hj. destruct (Hcat j Hj) as (r & Hr & Hc). eauto.
        -- exists (i :: added). split; [now rewrite <- app_assoc|].
           split; [cbn; lia|].
           intros j [<-|Hj]; [eauto|].
           destruct (Hcat j Hj) as (r & Hr & Hc). eauto.
    + rewrite insights_fold_raised. split; [|discriminate].
      split; [|reflexivity]. intros _. exists row. split; [now left|].
      now apply (insight_step_raises rnd insights).
Qed.

(** X15. [get_spending_insights] has no handler around its queries.  With
    no row for the current month it returns the empty list.  It raises
    exactly when the historical-average query raises for the category of
    one of the rows, so on a database that rejects that query it raises
    whenever the current month has a row.  When it returns, the list holds
    at most one insight per row, each under the category of a row. *)
Theorem insights_need_every_average
    (rnd : Q -> Q) (results : list CategorySpend) :
  get_spending_insights rnd [] = Some [] /\
  (get_spending_insights rnd results = None <->
   exists row, In row results /\ cs_hist_avg row = None) /\
  (results <> [] ->
   (forall row, In row results -> cs_hist_avg row = None) ->
   get_spending_insights rnd results = None) /\
  (forall insights,
     get_spending_insights rnd results = Some insights ->
     (length insights <= length results)%nat /\
     forall i, In i insights ->
               exists row, In row results /\ i_category i = cs_category row).
Proof.
  destruct (insights_fold_outcome rnd results []) as [Hnone Hsome].
  cbv zeta in Hnone, Hsome. fold (get_spending_insights rnd results) in *.
  split; [reflexivity|]. split; [exact Hnone|]. split.
  - intros Hne Hall. apply Hnone. destruct results as [|row rest]; [easy|].
    exists row. split; [now left|]. apply Hall. now left.
  - intros insights H. destruct (Hsome insights H) as (added & -> & Hlen & Hc).
    now split.
Qed.

End InsightFacts.

(** ** The conversation context, all methods *)

Import ContextStore.

Section ContextMethods.

(** A bounded deque keeps the last [maxlen] of what was appended. *)
Lemma deque_append_last {A} (maxlen : nat) (d : list A) (x : A) :
  (length d <= maxlen)%nat ->
  deque_append maxlen d x = drop (length (d ++ [x]) - maxlen) (d ++ [x]).
Proof.
  intros Hd. unfold deque_append. rewrite length_app. cbn [length].
  destruct (maxlen <? length d + 1)%nat eqn:E.
  - apply Nat.ltb_lt in E. replace (length d + 1 - maxlen)%nat with 1%nat by lia.
    now destruct (d ++ [x]).
  - apply Nat.ltb_ge in E. now replace (length d + 1 - maxlen)%nat with 0%nat by lia.
Qed.

Lemma drop_last_app {A} (n : nat) (a l : list A) :
  drop (length (drop (length a - n) a ++ l) - n) (drop (length a - n) a ++ l)
  = drop (length (a ++ l) - n) (a ++ l).
Proof.
  rewrite !length_app, length_drop.
  destruct (le_lt_dec (length a) n) as [Hle|Hgt].
  - replace (length a - n)%nat with 0%nat by lia. cbn [drop].
    now replace (length a - 0)%nat with (length a) by lia.
  - replace (length a - (length a - n) + length l - n)%nat
      with (length l) by lia.
    replace (length a + length l - n)%nat
      with ((length a - n) + length l)%nat by lia.
    rewrite <- (drop_drop (a ++ l) (length l) (length a - n)).
    now rewrite (drop_app_le a l (length a - n)) by lia.
Qed.

Lemma deque_fold_last {A} (maxlen : nat) (items : list A) :
  forall d : list A,
    (length d <= maxlen)%nat ->
    fold_left (deque_append maxlen) items d
    = drop (length (d ++ items) - maxlen) (d ++ items).
Proof.
  induction items as [|x items IH]; intros d Hd.
  - cbn [fold_left]. rewrite app_nil_r.
    now replace (length d - maxlen)%nat with 0%nat by lia.
  - cbn [fold_left]. rewrite IH by now apply deque_append_bounded.
    rewrite deque_append_last by exact Hd.
    rewrite drop_last_app. now rewrite <- app_assoc.
Qed.

Lemma messages_add_turns (turns : list Turn) :
  forall self : ConversationContext,
    messages (add_turns self turns)
    = fold_left (deque_append (max_history self)) (map turn_message turns)
                (messages self).
Proof.
  induction turns as [|t turns IH]; intros self; [reflexivity|].
  cbn [add_turns fold_left map]. fold (add_turns (add_turn self t) turns).
  rewrite IH. unfold add_turn at 1 2.
  now rewrite max_history_add_message, messages_add_message.
Qed.

(** X16. After any run of [add_message] calls on a fresh context the turn
    log is exactly the last 10 of the messages added, in the order they
    were added; [get_history] without a limit returns them all, and with a
    positive limit the last [limit] of them. *)
Theorem turn_log_is_the_last_ten
    (uid start : Z) (turns : list Turn) (limit : Z)
    (Hlimit : (0 < limit)%Z) :
  let self := add_turns (init uid 10 start) turns in
  let added := map turn_message turns in
  messages self = drop (length added - 10) added /\
  get_history self None = messages self /\
  get_history self (Some 0%Z) = messages self /\
  get_history self (Some limit)
    = drop (length added - Z.to_nat (Z.min limit 10)) added.
Proof.
  intros self added.
  assert (Hlog : messages self = drop (length added - 10) added).
  { unfold self. rewrite messages_add_turns.
    change (max_history (init uid 10 start)) with 10%nat.
    change (messages (init uid 10 start)) with (@nil Message).
    rewrite deque_fold_last by (cbn; lia). reflexivity. }
  split; [exact Hlog|]. split; [reflexivity|]. split; [reflexivity|].
  unfold get_history.
  replace (limit =? 0)%Z with false by (symmetry; apply Z.eqb_neq; lia).
  unfold slice_from.
  replace (- limit <? 0)%Z with true by (symmetry; apply Z.ltb_lt; lia).
  rewrite Hlog. unfold len. rewrite length_drop, drop_drop. f_equal. lia.
Qed.

Lemma turn_log_is_the_last_ten_witness :
  let turn n := mkTurn n "user" "hello" None None in
  let turns := map turn [1; 2; 3; 4; 5; 6; 7; 8; 9; 10; 11; 12]%Z in
  (0 < 3)%Z /\
  map timestamp (messages (add_turns (init 1 10 0) turns))
    = [3; 4; 5; 6; 7; 8; 9; 10; 11; 12]%Z /\
  map timestamp (get_history (add_turns (init 1 10 0) turns) (Some 3%Z))
    = [10; 11; 12]%Z.
Proof.
  intros turn turns.
  assert (Hlimit : (0 < 3)%Z) by reflexivity.
  destruct (turn_log_is_the_last_ten 1 0 turns 3 Hlimit) as (H1 & _ & _ & H4).
  split; [exact Hlimit|]. split.
  - rewrite H1. reflexivity.
  - rewrite H4. reflexivity.
Defined.

(** X17. A context variable that was set is read back, the other variables
    and the rest of the context are untouched by the write, and after
    [clear_context] every variable reads as the default. *)
Theorem context_variable_round_trip
    (self : ConversationContext) (key other : string)
    (value fallback : pyval)
    (Hother : other <> key) :
  get_context (set_context self key value) key fallback = value /\
  get_context (set_context self key value) other fallback
    = get_context self other fallback /\
  messages (set_context self key value) = messages self /\
  last_intent (set_context self key value) = last_intent self /\
  last_entities (set_context self key value) = last_entities self /\
  get_context (clear_context (set_context self key value)) key fallback
    = fallback.
Proof.
  unfold get_context, set_context, clear_context. cbn.
  rewrite lookup_insert_eq, lookup_insert_ne by congruence.
  rewrite lookup_empty. repeat split.
Qed.

Lemma context_variable_round_trip_witness :
  let self := set_context (init 1 10 0) "currency" (PStr "INR") in
  "month"%string <> "currency"%string /\
  get_context self "currency" PNone = PStr "INR" /\
  get_context self "month" PNone = PNone.
Proof.
  intros self.
  assert (Hne : "month"%string <> "currency"%string) by discriminate.
  split; [exact Hne|].
  destruct (context_variable_round_trip (init 1 10 0) "currency" "month"
              (PStr "INR") PNone Hne) as (H1 & H2 & _).
  split; [exact H1|]. unfold self. rewrite H2. reflexivity.
Defined.

(** X18. [from_dict] inverts [to_dict] on every context of capacity 10
    whose log is within capacity.  In general it raises [KeyError] without
    a [user_id], and otherwise builds a context of capacity 10 that keeps
    the last 10 of the stored messages and takes empty maps, no intent and
    the current time for the keys that are absent. *)
Theorem from_dict_inverts_to_dict
    (self : ConversationContext) (now : Z)
    (Hcapacity : max_history self = 10%nat)
    (Hlog : log_within_bound self) :
  from_dict (to_dict self) now = Some self /\
  (forall data, d_user_id data = None -> from_dict data now = None) /\
  (forall data uid,
     d_user_id data = Some uid ->
     exists context,
       from_dict data now = Some context /\
       user_id context = uid /\ max_history context = 10%nat /\
       messages context
         = drop (length (default [] (d_messages data)) - 10)
                (default [] (d_messages data)) /\
       (d_context_data data = None -> context_data context = ∅) /\
       (d_last_entities data = None -> last_entities context = ∅) /\
       last_intent context = d_last_intent data /\
       (d_session_start data = None -> session_start context = now)).
Proof.
  assert (Hdeque : forall items : list Message,
            deque_of 10 items = drop (length items - 10) items).
  { intros items. unfold deque_of. rewrite deque_fold_last by (cbn; lia).
    reflexivity. }
  split; [|split].
  - unfold from_dict, to_dict. cbn -[deque_of]. rewrite Hdeque.
    unfold log_within_bound in Hlog. rewrite Hcapacity in Hlog.
    replace (length (messages self) - 10)%nat with 0%nat by lia.
    destruct self. cbn in *. now subst.
  - intros data Hnone. unfold from_dict. now rewrite Hnone.
  - intros data uid Huid. unfold from_dict. rewrite Huid. cbn -[deque_of].
    eexists. split; [reflexivity|]. cbn -[deque_of]. rewrite Hdeque.
    repeat split; intros ->; reflexivity.
Qed.

Lemma from_dict_inverts_to_dict_witness :
  let self := add_message (init 7 10 100) 105 "user" "budget status"
                          (Some "check_budget"%string) None in
  max_history self = 10%nat /\ log_within_bound self /\
  from_dict (to_dict self) 999 = Some self.
Proof.
  intros self.
  assert (Hcap : max_history self = 10%nat) by reflexivity.
  assert (Hlog : log_within_bound self) by (unfold log_within_bound; cbn; lia).
  split; [exact Hcap|]. split; [exact Hlog|].
  exact (proj1 (from_dict_inverts_to_dict self 999 Hcap Hlog)).
Defined.

Lemma get_user_context_expired
    (store : gmap Z ConversationContext) (uid now : Z)
    (old : ConversationContext) :
  store !! uid = Some old ->
  (3600 < (now - session_start old) `mod` 86400)%Z ->
  get_user_context store uid now
  = (<[uid := mkContext (user_id old) (max_history old) (messages old)
                        ∅ None ∅ now]> store,
     mkContext (user_id old) (max_history old) (messages old) ∅ None ∅ now).
Proof.
  intros Hold Hage. unfold get_user_context. rewrite !Hold.
  change (default (init uid 10 now) (Some old)) with old.
  replace (3600 <? (now - session_start old) `mod` 86400)%Z with true
    by (symmetry; now apply Z.ltb_lt).
  reflexivity.
Qed.

Lemma get_user_context_active
    (store : gmap Z ConversationContext) (uid now : Z)
    (old : ConversationContext) :
  store !! uid = Some old ->
  ((now - session_start old) `mod` 86400 <= 3600)%Z ->
  get_user_context store uid now = (store, old).
Proof.
  intros Hold Hage. unfold get_user_context. rewrite !Hold.
  change (default (init uid 10 now) (Some old)) with old.
  replace (3600 <? (now - session_start old) `mod` 86400)%Z with false
    by (symmetry; now apply Z.ltb_ge).
  reflexivity.
Qed.

Lemma get_user_context_new
    (store : gmap Z ConversationContext) (uid now : Z) :
  store !! uid = None ->
  get_user_context store uid now
  = (<[uid := init uid 10 now]> store, init uid 10 now).
Proof.
  intros Hnew. unfold get_user_context. rewrite Hnew, lookup_insert_eq.
  change (default (init uid 10 now) (Some (init uid 10 now)))
    with (init uid 10 now).
  change (session_start (init uid 10 now)) with now.
  replace ((now - now) `mod` 86400)%Z with 0%Z by (now rewrite Z.sub_diag).
  reflexivity.
Qed.

(** X19. [get_user_context] stores the context it returns under the
    user's id and leaves every other user's context alone.  A user without
    a context gets a fresh one.  A stored context is returned as it is when
    the seconds part of its age is at most 3600; otherwise its variables,
    intent and entities are reset and its session restarted.  In both cases
    the turn log is kept. *)
Theorem get_user_context_keeps_turn_log
    (store : gmap Z ConversationContext) (uid other now : Z)
    (Hother : other <> uid) :
  let result := get_user_context store uid now in
  result.1 !! uid = Some result.2 /\
  result.1 !! other = store !! other /\
  (store !! uid = None -> result.2 = init uid 10 now) /\
  (forall old,
     store !! uid = Some old ->
     messages result.2 = messages old /\
     max_history result.2 = max_history old /\
     (((now - session_start old) `mod` 86400 <= 3600)%Z ->
      result = (store, old)) /\
     ((3600 < (now - session_start old) `mod` 86400)%Z ->
      context_data result.2 = ∅ /\ last_intent result.2 = None /\
      last_entities result.2 = ∅ /\ session_start result.2 = now)).
Proof.
  intros result. unfold result.
  destruct (store !! uid) as [old|] eqn:Hold.
  - destruct (Z.le_gt_cases ((now - session_start old) `mod` 86400) 3600)
      as [Hage|Hage].
    + rewrite (get_user_context_active store uid now old Hold Hage).
      cbn [fst snd].
      split; [exact Hold|]. split; [reflexivity|]. split; [discriminate|].
      intros old' [= <-]. repeat split; try reflexivity; lia.
    + rewrite (get_user_context_expired store uid now old Hold Hage).
      cbn [fst snd].
      rewrite lookup_insert_eq, lookup_insert_ne by congruence.
      split; [reflexivity|]. split; [reflexivity|]. split; [discriminate|].
      intros old' [= <-]. repeat split; try reflexivity; lia.
  - rewrite (get_user_context_new store uid now Hold). cbn [fst snd].
    rewrite lookup_insert_eq, lookup_insert_ne by congruence.
    split; [reflexivity|]. split; [reflexivity|]. split; [reflexivity|].
    intros old [=].
Qed.

Lemma get_user_context_keeps_turn_log_witness :
  let old := add_message (init 1 10 0) 5 "user" "add 500 for food"
                         (Some "add_transaction"%string) None in
  let store : gmap Z ConversationContext := {[ 1%Z := old ]} in
  2%Z <> 1%Z /\
  (get_user_context store 1 90000).2 = old /\
  last_intent (get_user_context store 1 7200).2 = None /\
  messages (get_user_context store 1 7200).2 = messages old.
Proof.
  intros old store.
  assert (Hne : 2%Z <> 1%Z) by discriminate.
  assert (Hold : store !! 1%Z = Some old) by reflexivity.
  split; [exact Hne|].
  destruct (get_user_context_keeps_turn_log store 1 2 90000 Hne)
    as (_ & _ & _ & Hday).
  destruct (Hday old Hold) as (_ & _ & Hkeep & _).
  destruct (get_user_context_keeps_turn_log store 1 2 7200 Hne)
    as (_ & _ & _ & Hhours).
  destruct (Hhours old Hold) as (Hmsg & _ & _ & Hreset).
  split; [now rewrite Hkeep by (vm_compute; discriminate)|].
  split; [|exact Hmsg].
  now apply Hreset.
Defined.

(** X20. After [clear_user_context] the user's next [get_user_context]
    starts from a fresh context with an empty turn log; the other users
    keep their contexts, and clearing a user without a context changes
    nothing. *)
Theorem cleared_user_starts_afresh
    (store : gmap Z ConversationContext) (uid other now : Z)
    (Hother : other <> uid) :
  (get_user_context (clear_user_context store uid) uid now).2
    = init uid 10 now /\
  messages (get_user_context (clear_user_context store uid) uid now).2 = [] /\
  clear_user_context store uid !! other = store !! other /\
  (store !! uid = None -> clear_user_context store uid = store).
Proof.
  unfold clear_user_context.
  rewrite get_user_context_new by apply lookup_delete_eq. cbn [fst snd].
  split; [reflexivity|]. split; [reflexivity|].
  split; [now rewrite lookup_delete_ne by congruence|].
  apply delete_id.
Qed.

Lemma cleared_user_starts_afresh_witness :
  let old := add_message (init 1 10 0) 5 "user" "hello" None None in
  let store : gmap Z ConversationContext := {[ 1%Z := old ]} in
  2%Z <> 1%Z /\
  messages (get_user_context (clear_user_context store 1) 1 10).2 = [] /\
  length (messages (get_user_context store 1 10).2) = 1%nat.
Proof.
  intros old store.
  assert (Hne : 2%Z <> 1%Z) by discriminate.
  split; [exact Hne|]. split; [|reflexivity].
  exact (proj1 (proj2 (cleared_user_starts_afresh store 1 2 10 Hne))).
Defined.

Lemma last_intent_add_turn (self : ConversationContext) (t : Turn) :
  last_intent (add_turn self t)
  = (if String.eqb (t_role t) "user" && truthy (t_intent t)
     then t_intent t else last_intent self) /\
  last_entities (add_turn self t)
  = (if String.eqb (t_role t) "user" && truthy (t_intent t)
     then default ∅ (t_entities t) else last_entities self) /\
  context_data (add_turn self t) = context_data self.
Proof.
  unfold add_turn, add_message. now destruct (_ && _).
Qed.

(** X21. After any run of [add_message] calls, [last_intent] and
    [last_entities] are those of the most recent message of role [user]
    that carried a non-empty intent, or unchanged when there was none;
    messages of other roles and user messages without intent never touch
    them, and no call changes [context_data]. *)
Theorem last_intent_is_latest_user_intent
    (turns : list Turn) (self : ConversationContext) :
  last_intent (add_turns self turns)
    = match last_user_intent turns with
      | Some t => t_intent t
      | None => last_intent self
      end /\
  last_entities (add_turns self turns)
    = match last_user_intent turns with
      | Some t => default ∅ (t_entities t)
      | None => last_entities self
      end /\
  context_data (add_turns self turns) = context_data self.
Proof.
  revert self. induction turns as [|t turns IH]; intros self.
  - now repeat split.
  - cbn [add_turns fold_left]. fold (add_turns (add_turn self t) turns).
    destruct (IH (add_turn self t)) as (Hi & He & Hc).
    destruct (last_intent_add_turn self t) as (Hi' & He' & Hc').
    rewrite Hi, He, Hc, Hi', He', Hc'. cbn [last_user_intent].
    destruct (last_user_intent turns); [now repeat split|].
    now destruct (_ && _).
Qed.

(** *** References to the previous turn *)

Lemma lower_upper_ascii (c : ascii) :
  lower_ascii (upper_ascii c) = lower_ascii c.
Proof.
  destruct c as [[] [] [] [] [] [] [] []]; vm_compute; reflexivity.
Qed.

Lemma lower_upper (s : string) : lower (upper s) = lower s.
Proof.
  induction s as [|c s IH]; cbn; [reflexivity|].
  now rewrite lower_upper_ascii, IH.
Qed.

Lemma any_in_false (words : list string) (text : string) :
  any_in words text = false <->
  forall word, In word words -> contains word text = false.
Proof.
  unfold any_in. split.
  - intros H word Hin. destruct (contains word text) eqn:E; [|reflexivity].
    assert (existsb (fun w => contains w text) words = true)
      by (apply existsb_exists; eauto).
    congruence.
  - intros H. apply not_true_is_false. intros E.
    apply existsb_exists in E as (word & Hin & Hc).
    rewrite (H word Hin) in Hc. discriminate.
Qed.

(** X22. [extract_reference] does not depend on the case of the input.
    When the lower-cased input contains none of the eight cue words the
    result is empty.  A [category] or [amount] reference is always the
    value held in [last_entities], and [expand_last] never comes without a
    [last_intent] entry. *)
Theorem references_come_from_last_entities
    (self : ConversationContext) (user_input : string) :
  extract_reference self (upper user_input)
    = extract_reference self user_input /\
  ((forall word,
      In word ["that"; "this"; "it"; "same";
               "more"; "details"; "elaborate"; "explain"]%string ->
      contains word (lower user_input) = false) ->
   extract_reference self user_input = ∅) /\
  (forall key value,
     In key ["category"; "amount"]%string ->
     extract_reference self user_input !! key = Some value ->
     last_entities self !! key = Some value) /\
  (forall value,
     extract_reference self user_input !! "expand_last"%string = Some value ->
     value = PBool true /\
     is_Some (extract_reference self user_input !! "last_intent"%string)).
Proof.
  split; [|split; [|split]].
  - unfold extract_reference. now rewrite lower_upper.
  - intros Hnone. unfold extract_reference.
    replace (any_in ["that"; "this"; "it"; "same"]%string (lower user_input))
      with false
      by (symmetry; apply any_in_false; intros w Hw; apply Hnone;
          simpl in *; tauto).
    replace (any_in ["more"; "details"; "elaborate"; "explain"]%string
               (lower user_input))
      with false
      by (symmetry; apply any_in_false; intros w Hw; apply Hnone;
          simpl in *; tauto).
    reflexivity.
  - intros key value Hkey. unfold extract_reference.
    destruct (any_in ["that"; "this"; "it"; "same"]%string _);
      destruct (any_in ["more"; "details"; "elaborate"; "explain"]%string _);
      destruct (last_entities self !! "category"%string) as [c|] eqn:Ec;
      destruct (last_entities self !! "amount"%string) as [a|] eqn:Ea;
      destruct Hkey as [<-|[<-|[]]];
      rewrite ?lookup_insert, ?lookup_empty;
      repeat case_decide; try discriminate; try congruence.
  - intros value. unfold extract_reference.
    destruct (any_in ["that"; "this"; "it"; "same"]%string _);
      destruct (any_in ["more"; "details"; "elaborate"; "explain"]%string _);
      destruct (last_entities self !! "category"%string) as [c|];
      destruct (last_entities self !! "amount"%string) as [a|];
      rewrite ?lookup_insert, ?lookup_empty;
      repeat case_decide; try discriminate; try congruence;
      intros [= <-]; (split; [reflexivity|eauto]).
Qed.

End ContextMethods.

(** ** The NL-to-SQL path beyond the keyword gate *)

Section QueryFacts.

Local Open Scope string_scope.

(** The failure response of the gate, with the explanation it carries. *)
Lemma execute_generation_error (db : Database) (reply : llm_reply)
    (msg : string) :
  generate_sql_query reply = generation_error msg ->
  execute_nlp_query db reply
  = (mkResponse false (Some (JStr ("Error generating query: " ++ msg)))
       JNull None None None,
     []).
Proof.
  intros H. rewrite execute_refuses_unsafe; now rewrite H.
Qed.

(** X23. No failed translation reaches the database: a status other than
    200, an exception while calling the model or decoding its answer, an
    answer that is not a JSON object, and a plan whose [sql] entry is not a
    string all come back as [success = False] with the cause as error, no
    query and nothing executed. *)
Theorem failed_translation_is_refused (db : Database) :
  (forall status_code,
     execute_nlp_query db (HttpStatus status_code)
     = (mkResponse false
          (Some (JStr ("API error: "
                       ++ NilZero.string_of_int (Z.to_int status_code))))
          JNull None None None,
        [])) /\
  (forall msg,
     execute_nlp_query db (Raised msg)
     = (mkResponse false (Some (JStr ("Error generating query: " ++ msg)))
          JNull None None None,
        [])) /\
  (forall answer,
     (forall fields, answer <> JObj fields) ->
     execute_nlp_query db (Decoded answer)
     = (mkResponse false
          (Some (JStr ("Error generating query: "
                       ++ attribute_error answer "get")))
          JNull None None None,
        [])) /\
  (forall plan entry,
     dict_get plan "sql" = Some entry ->
     (forall sql, entry <> JStr sql) ->
     execute_nlp_query db (Decoded (JObj plan))
     = (mkResponse false
          (Some (JStr ("Error generating query: "
                       ++ attribute_error entry "upper")))
          JNull None None None,
        [])).
Proof.
  split; [reflexivity|]. split; [reflexivity|]. split.
  - intros answer Hobj. apply execute_generation_error.
    destruct answer; try reflexivity. now elim (Hobj fields).
  - intros plan entry Hsql Hstr. apply execute_generation_error.
    unfold generate_sql_query. rewrite Hsql.
    destruct entry; try reflexivity. now elim (Hstr s).
Qed.

(** X24. [execute_nlp_query] sends at most one statement to the database,
    and the [query] entry of its response tells which: a statement was sent
    exactly when [query] is a string, and it is that string.  A successful
    response carries the rows with their count and no error; an
    unsuccessful one carries an error and no rows. *)
Theorem response_tells_what_was_sent (db : Database) (reply : llm_reply) :
  let response := (execute_nlp_query db reply).1 in
  let sent := (execute_nlp_query db reply).2 in
  (length sent <= 1)%nat /\
  (forall sql, sent = [sql] <-> query response = JStr sql) /\
  (success response = true ->
   exists rows, data response = Some rows /\
                row_count response = Some (len rows) /\
                error response = None /\ sent <> []) /\
  (success response = false ->
   is_Some (error response) /\ data response = None /\
   row_count response = None).
Proof.
  unfold execute_nlp_query.
  destruct (negb (py_truthy _)).
  - cbn. repeat split; try discriminate; eauto.
  - destruct (default JNull (dict_get (generate_sql_query reply) "sql"))
      as [| | | |sql| |] eqn:E.
    1-4, 6-7: (cbn; repeat split; try discriminate; eauto).
    destruct (run_query db sql _) as [msg|rows]; cbn.
    + repeat split; try discriminate; eauto; intros [= ->]; reflexivity.
    + repeat split; try discriminate; eauto; intros [= ->]; reflexivity.
Qed.

Lemma upper_app_split (w x y : string) :
  upper w = x ++ y ->
  exists w1 w2, w = w1 ++ w2 /\ upper w1 = x /\ upper w2 = y.
Proof.
  revert w. induction x as [|c x IH]; intros w H.
  - exists EmptyString, w. now repeat split.
  - destruct w as [|d w]; [discriminate|]. cbn in H. injection H as Hc Hw.
    destruct (IH w Hw) as (w1 & w2 & -> & H1 & H2).
    exists (String d w1), w2. cbn. now rewrite Hc, H1.
Qed.

Lemma string_app_assoc (a b c : string) : (a ++ b) ++ c = a ++ (b ++ c).
Proof.
  induction a as [|x a IH]; [reflexivity|].
  change (String x ((a ++ b) ++ c) = String x (a ++ (b ++ c))).
  now f_equal.
Qed.

(** A keyword inside a longer word is found all the same. *)
Lemma occurs_inside (keyword rest text : string) :
  occurs_ignoring_case (keyword ++ rest) text ->
  occurs_ignoring_case keyword text.
Proof.
  intros (before & word & after & -> & Hw).
  rewrite upper_app in Hw.
  destruct (upper_app_split word _ _ Hw) as (w1 & w2 & -> & H1 & _).
  exists before, w1, (w2 ++ after). split; [|exact H1].
  now rewrite string_app_assoc.
Qed.

(** X25. The keyword test works on substrings, so a query that names the
    column [created_at] or [updated_at], in any mixture of cases, is
    refused as dangerous and never executed, whatever else it says and
    even when the plan is marked safe. *)
Theorem timestamp_columns_are_refused
    (db : Database) (plan : dict json) (sql column : string)
    (Hsql : dict_get plan "sql" = Some (JStr sql))
    (Hcolumn : column = "created_at" \/ column = "updated_at")
    (Hoccurs : occurs_ignoring_case column sql) :
  execute_nlp_query db (Decoded (JObj plan))
  = (mkResponse false (Some (JStr unsafe_explanation)) JNull None None None,
     []).
Proof.
  assert (Hkw : exists keyword,
            In (upper keyword) dangerous_keywords /\
            occurs_ignoring_case keyword sql).
  { destruct Hcolumn as [-> | ->].
    - exists "create". split; [cbn; tauto|].
      now apply (occurs_inside "create" "d_at").
    - exists "update". split; [cbn; tauto|].
      now apply (occurs_inside "update" "d_at"). }
  destruct Hkw as (keyword & Hin & Hocc).
  rewrite execute_refuses_unsafe;
    rewrite (generate_sql_query_flags_keyword plan sql keyword Hsql Hin Hocc).
  - now rewrite dict_get_set_same.
  - now rewrite dict_get_set_other, dict_get_set_same by discriminate.
Qed.

Lemma timestamp_columns_are_refused_witness :
  let db := mkDatabase (fun _ _ => inr []) (fun _ => "TypeError") in
  let sql := "SELECT amount FROM transactions ORDER BY created_at DESC" in
  let plan := [("sql", JStr sql); ("safe", JBool true)] in
  dict_get plan "sql" = Some (JStr sql) /\
  occurs_ignoring_case "created_at" sql /\
  (execute_nlp_query db (Decoded (JObj plan))).2 = [].
Proof.
  intros db sql plan.
  assert (Hocc : occurs_ignoring_case "created_at" sql)
    by (exists "SELECT amount FROM transactions ORDER BY ", "created_at",
          " DESC"; split; reflexivity).
  split; [reflexivity|]. split; [exact Hocc|].
  now rewrite (timestamp_columns_are_refused db plan sql "created_at"
                 eq_refl (or_introl eq_refl) Hocc).
Defined.

End QueryFacts.

(** ** Categories and the pattern-matching fallback *)

Section FallbackFacts.

Local Open Scope string_scope.

Lemma upper_ascii_classes (c : ascii) :
  is_space (upper_ascii c) = is_space c /\
  is_digit (upper_ascii c) = is_digit c /\
  is_dot (upper_ascii c) = is_dot c /\
  (is_digit c = true -> upper_ascii c = c).
Proof.
  destruct c as [[] [] [] [] [] [] [] []]; vm_compute; repeat split;
    congruence.
Qed.

Lemma lstrip_upper (s : string) : lstrip (upper s) = upper (lstrip s).
Proof.
  induction s as [|c s IH]; [reflexivity|]. cbn [upper lstrip].
  destruct (upper_ascii_classes c) as (-> & _).
  now destruct (is_space c).
Qed.

Lemma rstrip_upper (s : string) : rstrip (upper s) = upper (rstrip s).
Proof.
  induction s as [|c s IH]; [reflexivity|]. cbn [upper rstrip].
  rewrite IH. destruct (upper_ascii_classes c) as (-> & _).
  destruct (rstrip s); cbn [upper]; [now destruct (is_space c)|reflexivity].
Qed.

Lemma normalise_upper (s : string) :
  lower (strip (upper s)) = lower (strip s).
Proof.
  unfold strip. now rewrite lstrip_upper, rstrip_upper, lower_upper.
Qed.

Lemma match_category_loop_some (name tx_type : string)
    (categories : list Category) (found : string) :
  match_category_loop name tx_type categories = Some found ->
  exists c, In c categories /\ c_name c = found /\ c_type c = tx_type /\
            lower (strip found) = name.
Proof.
  induction categories as [|c rest IH]; cbn; [discriminate|].
  destruct (String.eqb (c_type c) tx_type
            && String.eqb (lower (strip (c_name c))) name) eqn:E.
  - intros [= <-]. apply andb_true_iff in E as [Ht En].
    apply String.eqb_eq in Ht, En. exists c. repeat split; auto.
  - intros H. destruct (IH H) as (c' & Hin & Hrest). exists c'. auto.
Qed.

Lemma match_category_loop_none (name tx_type : string)
    (categories : list Category) :
  match_category_loop name tx_type categories = None <->
  forall c, In c categories -> c_type c = tx_type ->
            lower (strip (c_name c)) <> name.
Proof.
  induction categories as [|c rest IH]; cbn.
  - split; [intros _ c []|reflexivity].
  - destruct (String.eqb (c_type c) tx_type
              && String.eqb (lower (strip (c_name c))) name) eqn:E.
    + apply andb_true_iff in E as [Ht En]. apply String.eqb_eq in Ht, En.
      split; [discriminate|]. intros H. now elim (H c (or_introl eq_refl) Ht).
    + rewrite IH. apply andb_false_iff in E. split.
      * intros H c' [<-|Hin] Ht; [|now apply H].
        destruct E as [E|E]; apply String.eqb_neq in E; congruence.
      * intros H c' Hin. apply H. now right.
Qed.

(** X26. On ASCII text (the query and the category names),
    [match_category] returns the name of a category of the list that has
    the requested type and equals the query up to case and surrounding
    white space; the name it returns matches itself; it returns [None]
    exactly when no category of that type matches; and the case of the
    query does not matter. *)
Theorem match_category_finds_existing
    (name tx_type : string) (categories : list Category)
    (Hname : is_ascii name = true)
    (Hcategories : ascii_names categories) :
  (forall found,
     match_category name tx_type categories = Some found ->
     (exists c, In c categories /\ c_name c = found /\ c_type c = tx_type /\
                lower (strip found) = lower (strip name)) /\
     match_category found tx_type categories = Some found) /\
  (match_category name tx_type categories = None <->
   forall c, In c categories -> c_type c = tx_type ->
             lower (strip (c_name c)) <> lower (strip name)) /\
  match_category (upper name) tx_type categories
    = match_category name tx_type categories.
Proof.
  unfold match_category. split; [|split].
  - intros found H. pose proof (match_category_loop_some _ _ _ _ H) as Hc.
    split; [exact Hc|].
    destruct Hc as (_ & _ & _ & _ & ->). exact H.
  - apply match_category_loop_none.
  - now rewrite normalise_upper.
Qed.

Lemma match_category_finds_existing_witness :
  let categories := [mkCategory "Salary" "income";
                     mkCategory "Food" "expense"] in
  is_ascii "  food " = true /\
  ascii_names categories /\
  match_category "  food " "expense" categories = Some "Food" /\
  match_category "  FOOD " "expense" categories = Some "Food" /\
  (match_category "rent" "expense" categories = None <->
   forall c, In c categories -> c_type c = "expense" ->
             lower (strip (c_name c)) <> lower (strip "rent")).
Proof.
  intros categories.
  assert (Hname : is_ascii "  food " = true) by reflexivity.
  assert (Hrent : is_ascii "rent" = true) by reflexivity.
  assert (Hcategories : ascii_names categories)
    by (repeat constructor).
  split; [exact Hname|]. split; [exact Hcategories|].
  split; [reflexivity|].
  destruct (match_category_finds_existing "  food " "expense" categories
              Hname Hcategories) as (_ & _ & Hcase).
  split; [exact Hcase|].
  exact (proj1 (proj2 (match_category_finds_existing "rent" "expense"
                         categories Hrent Hcategories))).
Defined.

(** *** Numbers in the text *)

Lemma float_of_token_from_nonneg (token : string) :
  forall int_part : Z,
    (0 <= int_part)%Z -> (0 <= float_of_token_from int_part token)%Q.
Proof.
  induction token as [|c rest IH]; intros int_part Hip; cbn.
  - now apply inject_Z_nonneg.
  - destruct (is_dot c).
    + assert (Hfrac : forall l v, (0 <= v)%Z ->
                (0 <= fold_left (fun v d => 10 * v + digit_value d) l v)%Z).
      { induction l as [|d l IHl]; intros v Hv; cbn; [exact Hv|].
        apply IHl. unfold digit_value. lia. }
      assert (0 <= inject_Z int_part)%Q by now apply inject_Z_nonneg.
      assert (0 <= inject_Z (fold_left
                               (fun v d => (10 * v + digit_value d)%Z)
                               (list_ascii_of_string rest) 0%Z)
                   / inject_Z (10 ^ Z.of_nat (String.length rest))%Z)%Q.
      { apply Qmult_le_0_compat; [apply inject_Z_nonneg, Hfrac; lia|].
        apply Qinv_le_0_compat, inject_Z_nonneg. apply Z.pow_nonneg. lia. }
      Lqa.lra.
    + apply IH. unfold digit_value. lia.
Qed.

Lemma scan_upper (text : string) :
  forall st, scan st (upper text) = scan st text.
Proof.
  induction text as [|c text IH]; intros st; [reflexivity|].
  cbn [upper scan].
  destruct (upper_ascii_classes c) as (_ & Hd & Hdot & Hsame).
  rewrite Hd, Hdot.
  destruct st; destruct (is_digit c) eqn:E;
    rewrite ?(Hsame eq_refl), ?IH; reflexivity.
Qed.

Lemma find_numbers_upper (text : string) :
  find_numbers (upper text) = find_numbers text.
Proof. apply scan_upper. Qed.





(** X29. The intent the fallback chooses does not depend on the case of
    the message. *)
Theorem fallback_intent_ignores_case
    (user_input : string) (categories : list Category) :
  option_map intent_key (simple_intent_fallback (upper user_input) categories)
  = option_map intent_key (simple_intent_fallback user_input categories).
Proof.
  unfold simple_intent_fallback.
  rewrite lower_upper, find_numbers_upper.
  destruct (any_in ["update"; "change"; "modify"; "edit"] (lower user_input));
    destruct (find_numbers user_input) as [|a0 [|a1 more]];
    destruct (any_in ["delete"; "remove"; "cancel"] (lower user_input));
    destruct (any_in ["add"; "spent"; "paid"; "bought"; "transaction"]
                (lower user_input));
    destruct (mentioned_category (lower user_input) categories);
    cbn [head option_map intent_key]; try reflexivity;
    repeat match goal with
           | |- context [if ?b then _ else _] => destruct b
           end; reflexivity.
Qed.

End FallbackFacts.

(** ** Summaries *)

Section SummaryFacts.

Lemma reachable_user_id (uid start : Z) (self : ConversationContext) :
  reachable uid start self -> user_id self = uid.
Proof.
  induction 1 as [|self t _ IH|self key value _ IH|self _ IH];
    try assumption; try reflexivity.
  unfold add_turn, add_message. now destruct (_ && _).
Qed.

(** X30. For every context a session can hold, the summary reports the
    session's user, a message count between 0 and 10 (the size of the turn
    log, not the number of messages exchanged) and a session duration
    between 0 and 86399 seconds that starts again from 0 every 24 hours. *)
Theorem context_summary_bounds
    (uid start now : Z) (self : ConversationContext)
    (Hreachable : reachable uid start self) :
  let summary := get_context_summary self now in
  cs_user_id summary = uid /\
  (0 <= cs_message_count summary <= 10)%Z /\
  (0 <= cs_session_duration summary < 86400)%Z /\
  cs_session_duration (get_context_summary self (now + 86400))
    = cs_session_duration summary.
Proof.
  intros summary. unfold summary, get_context_summary.
  cbn [cs_user_id cs_message_count cs_session_duration].
  destruct (reachable_within_capacity uid start self Hreachable) as [_ Hlog].
  split; [now apply (reachable_user_id uid start)|].
  split; [unfold len; lia|].
  split; [apply Z.mod_pos_bound; lia|].
  replace (now + 86400 - session_start self)%Z
    with (now - session_start self + 1 * 86400)%Z by lia.
  now rewrite Z.mod_add by lia.
Qed.

Lemma context_summary_bounds_witness :
  let self := add_message (init 4 10 1000) 1005 "user" "hello" None None in
  reachable 4 1000 self /\
  cs_message_count (get_context_summary self 1000) = 1%Z /\
  cs_session_duration (get_context_summary self (1000 + 90000)) = 3600%Z /\
  (0 <= cs_session_duration (get_context_summary self 91000) < 86400)%Z.
Proof.
  intros self.
  assert (Hreach : reachable 4 1000 self)
    by (apply (reach_add 4 1000 (init 4 10 1000)
                 (mkTurn 1005 "user" "hello" None None)), reach_init).
  split; [exact Hreach|]. split; [reflexivity|]. split; [reflexivity|].
  exact (proj1 (proj2 (proj2 (context_summary_bounds 4 1000 91000 self
                                Hreach)))).
Defined.

End SummaryFacts.
